(** * Guillotine league: season statistics of [api/data_processor.py]

    A shallow embedding of the season pipeline [process_season_data] and of
    the stand-alone scripts that recompute parts of it, with the properties
    of the elimination simulation, the ranking, the waiver budget and the
    weekly statistics.

    Python numbers are modelled by their exact values: roster ids, weeks and
    bids are [Z]; scores (JSON numbers, int or float) are rationals [Q], with
    Python's [==] read as [Qeq] and [<] as [Qlt].  Dictionaries whose
    iteration order is irrelevant are [gmap]s, sets are [gset]s, and
    dictionaries and lists that are iterated in order are lists. *)

From Stdlib Require Import ZArith QArith Qround DecimalString Lqa.
From stdpp Require Import gmap strings list sorting.

Local Open Scope Z_scope.
#[local] Set Warnings "-clear-no-such-hyp".

(** ** Python builtins used by the pipeline *)

Module Py.

(** [a < b] on numbers. *)
Definition num_lt (a b : Q) : bool :=
  match (a ?= b)%Q with Lt => true | _ => false end.

(** [a <= b] on numbers. *)
Definition num_le (a b : Q) : bool :=
  match (a ?= b)%Q with Gt => false | _ => true end.

(** [(s1, r1) < (s2, r2)] on tuples of a number and an int: the first
    components decide unless they are equal. *)
Definition tuple_lt (a b : Q * Z) : bool :=
  match (a.1 ?= b.1)%Q with
  | Lt => true
  | Gt => false
  | Eq => a.2 <? b.2
  end.

(** The scan of [min(iterable, key=...)]: the running best is replaced only
    by a strictly smaller element. *)
Fixpoint min_scan {A K} (key : A → K) (lt : K → K → bool) (best : A) (l : list A) : A :=
  match l with
  | [] => best
  | x :: l' => min_scan key lt (if lt (key x) (key best) then x else best) l'
  end.

(** [min(l, key=key)]; [None] stands for the [ValueError] on an empty
    argument. *)
Definition min_by {A K} (key : A → K) (lt : K → K → bool) (l : list A) : option A :=
  match l with
  | [] => None
  | x :: l' => Some (min_scan key lt x l')
  end.

(** The scan of [max(iterable)]. *)
Definition max_by {A K} (key : A → K) (lt : K → K → bool) (l : list A) : option A :=
  match l with
  | [] => None
  | x :: l' => Some (min_scan key (flip lt) x l')
  end.

(** [range(a, b)]. *)
Definition range (a b : Z) : list Z := seqZ a (b - a).

(** [str(n)] for an int. *)
Definition str (n : Z) : string := NilZero.string_of_int (Z.to_int n).

(** [int(s)] for a decimal numeral; [None] stands for the [ValueError]. *)
Definition int (s : string) : option Z := Z.of_int <$> NilZero.int_of_string s.

(** [sorted(l, key=key, reverse=reverse)] and [list.sort]: the sort is
    stable in both directions, so an element is inserted in front of the
    sorted rest and moves right only past elements that must precede it. *)
Definition precedes {A K} (key : A → K) (lt : K → K → bool) (reverse : bool) (y x : A) : bool :=
  if reverse then lt (key x) (key y) else lt (key y) (key x).

Fixpoint insert_sorted {A K} (key : A → K) (lt : K → K → bool) (reverse : bool)
    (x : A) (l : list A) : list A :=
  match l with
  | [] => [x]
  | y :: l' =>
      if precedes key lt reverse y x
      then y :: insert_sorted key lt reverse x l'
      else x :: l
  end.

Definition sorted {A K} (key : A → K) (lt : K → K → bool) (reverse : bool) (l : list A) : list A :=
  foldr (insert_sorted key lt reverse) [] l.

(** The scan [for i, x in enumerate(l): if x[0] == who: rank = i + 1; break],
    started at index [i]. *)
Fixpoint rank_from {I B} `{EqDecision I} (who : I) (l : list (I * B)) (i : Z) : option Z :=
  match l with
  | [] => None
  | x :: l' => if decide (x.1 = who) then Some (i + 1) else rank_from who l' (i + 1)
  end.

(** [sum(l)] of ints. *)
Definition sum (l : list Z) : Z := foldr Z.add 0 l.

Definition sumQ (l : list Q) : Q := foldr Qplus 0%Q l.

(** [statistics.mean(l)] of ints: the exact quotient; [None] stands for
    the [StatisticsError] on an empty argument. *)
Definition mean (l : list Z) : option Q :=
  match l with
  | [] => None
  | _ => Some (inject_Z (sum l) / inject_Z (Z.of_nat (length l)))%Q
  end.

(** Rounding to the nearest integer, ties to the even one. *)
Definition round_half_even (x : Q) : Z :=
  let f := Qfloor x in
  match ((x - inject_Z f) ?= 1 # 2)%Q with
  | Lt => f
  | Gt => f + 1
  | Eq => if Z.even f then f else f + 1
  end.

(** [round(x, ndigits)]: Python rounds the decimal expansion of the float
    it is given, ties to even; here the same rounding is applied to the
    exact value. *)
Definition round (x : Q) (ndigits : nat) : Q :=
  let scale := Pos.pow 10 (Pos.of_nat ndigits) in
  match ndigits with
  | O => inject_Z (round_half_even x)
  | S _ => Qmake (round_half_even (x * inject_Z (Zpos scale))) scale
  end.

(** [data[i]] on a list that is known to be long enough. *)
Definition item (data : list Q) (i : Z) : Q := default 0%Q (data !! Z.to_nat i).

(** [statistics.median(data)]. *)
Definition median (data : list Q) : option Q :=
  let data := sorted id num_lt false data in
  let n := Z.of_nat (length data) in
  if decide (n = 0) then None
  else if decide (n `mod` 2 = 1) then Some (item data (n / 2))
  else Some ((item data (n / 2 - 1) + item data (n / 2)) / 2)%Q.

(** [statistics.quantiles(data, n=4)] with its default method
    ['exclusive']: the cut point [i] lies at position [i * (ld + 1) / 4]
    of the sorted data and is interpolated linearly between its two
    neighbours. *)
Definition quantile_cut (data : list Q) (ld : Z) (i : Z) : Q :=
  let n := 4 in
  let m := ld + 1 in
  let j := i * m / n in
  let j := if decide (j < 1) then 1 else if decide (j > ld - 1) then ld - 1 else j in
  let delta := i * m - j * n in
  ((item data (j - 1) * inject_Z (n - delta) + item data j * inject_Z delta) / inject_Z n)%Q.

Definition quantiles (data : list Q) : option (list Q) :=
  let data := sorted id num_lt false data in
  let ld := Z.of_nat (length data) in
  if decide (ld < 2) then None
  else Some (quantile_cut data ld <$> range 1 4).

(** [d.get(k, default)] on a dictionary of ints. *)
Definition get_or (d : gmap Z Z) (k : Z) (dflt : Z) : Z := default dflt (d !! k).

(** [d[k] = v] on a dictionary kept in insertion order: an existing key
    keeps its place. *)
Fixpoint setitem {K V} `{EqDecision K} (k : K) (v : V) (d : list (K * V)) : list (K * V) :=
  match d with
  | [] => [(k, v)]
  | (k', v') :: d' => if decide (k' = k) then (k, v) :: d' else (k', v') :: setitem k v d'
  end.

Fixpoint getitem {K V} `{EqDecision K} (k : K) (d : list (K * V)) : option V :=
  match d with
  | [] => None
  | (k', v') :: d' => if decide (k' = k) then Some v' else getitem k d'
  end.

End Py.

(** ** Step 3 of [process_season_data]: the elimination simulation *)

(** [all_scores]: week -> roster id -> points, holding only the matchups
    whose points are not null. *)
Abbreviation scores_t := (gmap Z (gmap Z Q)).

Record sim_state := SimState {
  remaining_teams : gset Z;
  eliminations : gmap Z Z;
  chop_scores : gmap Z Q
}.

(** The dict comprehension [week_scores], as the list of its items in the
    order in which [remaining] is iterated. *)
Definition week_scores_of (sc : gmap Z Q) (remaining : list Z) : list (Z * Q) :=
  omap (λ rid, (λ s, (rid, s)) <$> sc !! rid) remaining.

(** [min(week_scores.keys(), key=lambda r: (week_scores[r], r))]. *)
Definition chopped_team (week_scores : list (Z * Q)) : option Z :=
  fst <$> Py.min_by (λ p : Z * Q, (p.2, p.1)) Py.tuple_lt week_scores.

(** [min(week_scores.values())]. *)
Definition min_score_of (week_scores : list (Z * Q)) : option Q :=
  Py.min_by id Py.num_lt (snd <$> week_scores).

(** One iteration of the loop; [None] is [break]. *)
Definition sim_week (all_scores : scores_t) (week : Z) (st : sim_state) : option sim_state :=
  match all_scores !! week with
  | None => None
  | Some sc =>
      let week_scores := week_scores_of sc (elements (remaining_teams st)) in
      match min_score_of week_scores, chopped_team week_scores with
      | Some min_score, Some chopped =>
          Some {| remaining_teams := remaining_teams st ∖ {[chopped]};
                  eliminations := <[chopped := week]> (eliminations st);
                  chop_scores := <[week := min_score]> (chop_scores st) |}
      | _, _ => None
      end
  end.

Fixpoint sim_loop (all_scores : scores_t) (weeks : list Z) (st : sim_state) : sim_state :=
  match weeks with
  | [] => st
  | week :: rest =>
      match sim_week all_scores week st with
      | None => st
      | Some st' => sim_loop all_scores rest st'
      end
  end.

(** The state before the loop: every key of [roster_to_user] remains. *)
Definition start_of (teams : list Z) : sim_state :=
  {| remaining_teams := list_to_set teams; eliminations := ∅; chop_scores := ∅ |}.

(** The whole of step 3. *)
Definition simulate (teams : list Z) (all_scores : scores_t) (current_week : Z) : sim_state :=
  sim_loop all_scores (Py.range 1 (current_week + 1)) (start_of teams).

(** ** Step 2: the weekly scores *)

Record matchup := Matchup {
  m_roster_id : Z;
  m_points : option Q
}.

(** The body of the [try] for one week: the scores of the matchups that
    have points, a later matchup of a roster replacing an earlier one. *)
Definition week_points (matchups : list matchup) : gmap Z Q :=
  foldl (λ d m, match m_points m with
                | Some p => <[m_roster_id m := p]> d
                | None => d
                end) ∅ matchups.

(** The loop over the weeks; a week whose matchups cannot be fetched (no
    entry in [fetched]) ends it. *)
Fixpoint collect_scores (fetched : gmap Z (list matchup)) (weeks : list Z)
    (all_scores : scores_t) : scores_t :=
  match weeks with
  | [] => all_scores
  | week :: rest =>
      match fetched !! week with
      | None => all_scores
      | Some ms => collect_scores fetched rest (<[week := week_points ms]> all_scores)
      end
  end.

(** ** Step 5: the waiver budget *)

Definition STARTING_FAAB : Z := 1000.

(** A JSON field holding an int: missing, [null], or a value. *)
Inductive json_int := JAbsent | JNull | JInt (n : Z).

(** A transaction as the pipeline reads it.  [txn_settings] is [None] when
    the record carries ["settings": null]; a missing ["settings"] is the
    empty settings, [Some JAbsent].  [txn_adds] lists the keys of
    ["adds"]. *)
Record txn := Txn {
  txn_type : option string;
  txn_status : option string;
  txn_roster_ids : list Z;
  txn_settings : option json_int;
  txn_adds : list string
}.

(** [settings.get("waiver_bid", 0)]; the outer [None] is the
    [AttributeError] raised on null settings, the inner one Python's
    [None]. *)
Definition waiver_bid (t : txn) : option (option Z) :=
  match txn_settings t with
  | None => None
  | Some JAbsent => Some (Some 0)
  | Some JNull => Some None
  | Some (JInt b) => Some (Some b)
  end.

(** The first loop over a week's transactions: completed waiver claims are
    added to [faab_spent].  An exception leaves the loop with the additions
    made so far. *)
Fixpoint spend_week (txns : list txn) (faab_spent : gmap Z Z) : gmap Z Z :=
  match txns with
  | [] => faab_spent
  | t :: rest =>
      if decide (txn_type t = Some "waiver"%string ∧ txn_status t = Some "complete"%string)
      then
        match waiver_bid t with
        | None => faab_spent
        | Some bid =>
            match txn_roster_ids t, bid with
            | roster_id :: _, Some b =>
                if decide (b = 0) then spend_week rest faab_spent
                else spend_week rest (<[roster_id := Py.get_or faab_spent roster_id 0 + b]> faab_spent)
            | _, _ => spend_week rest faab_spent
            end
        end
      else spend_week rest faab_spent
  end.

Definition spend_season (transactions : gmap Z (list txn)) (weeks : list Z)
    (faab_spent : gmap Z Z) : gmap Z Z :=
  foldl (λ spent week, match transactions !! week with
                       | None => spent
                       | Some txns => spend_week txns spent
                       end) faab_spent weeks.

(** A claim on a player: [(roster_id, bid, status)]. *)
Definition claim : Type := Z * Z * option string.

(** [player_bids[player_id].append(c)], creating the list on first use. *)
Definition add_claim (player_id : string) (c : claim)
    (player_bids : list (string * list claim)) : list (string * list claim) :=
  Py.setitem player_id (default [] (Py.getitem player_id player_bids) ++ [c]) player_bids.

(** The second loop over a week's transactions: the claims grouped by
    player; [None] is an exception. *)
Fixpoint group_claims (txns : list txn) (player_bids : list (string * list claim))
    : option (list (string * list claim)) :=
  match txns with
  | [] => Some player_bids
  | t :: rest =>
      if decide (txn_type t = Some "waiver"%string)
      then
        match waiver_bid t with
        | None => None
        | Some bid =>
            group_claims rest
              (foldl (λ pb player_id,
                        match txn_roster_ids t, bid with
                        | roster_id :: _, Some b => add_claim player_id (roster_id, b, txn_status t) pb
                        | _, _ => pb
                        end) player_bids (txn_adds t))
        end
      else group_claims rest player_bids
  end.

Definition claim_bid (c : claim) : Z := c.1.2.
Definition claim_roster (c : claim) : Z := c.1.1.
Definition claim_status (c : claim) : option string := c.2.

(** The first completed claim of [sorted_bids]: [(winning_bid, winning_roster)]. *)
Definition winning_claim (sorted_bids : list claim) : option (Z * Z) :=
  (λ ic : nat * claim, (claim_bid ic.2, claim_roster ic.2)) <$>
    list_find (λ c, claim_status c = Some "complete"%string) sorted_bids.

(** The first claim of [sorted_bids] by another roster, 0 when there is
    none. *)
Definition second_bid_of (sorted_bids : list claim) (winning_roster : Z) : Z :=
  default 0 ((λ ic : nat * claim, claim_bid ic.2) <$>
               list_find (λ c, claim_roster c ≠ winning_roster) sorted_bids).

(** The wasted budget of one player's claims: the roster to charge and the
    amount, when something is charged. *)
Definition player_waste (bids : list claim) : option (Z * Z) :=
  let sorted_bids := Py.sorted claim_bid Z.ltb true bids in
  match winning_claim sorted_bids with
  | Some (winning_bid, winning_roster) =>
      if decide (1 < length sorted_bids)%nat
      then
        let second_bid := second_bid_of sorted_bids winning_roster in
        let wasted := Z.max 0 (winning_bid - second_bid - 1) in
        if decide (winning_roster ≠ 0) then Some (winning_roster, wasted) else None
      else None
  | None => None
  end.

Definition charge_waste (faab_wasted : gmap Z Z) (bids : list claim) : gmap Z Z :=
  match player_waste bids with
  | Some (winning_roster, wasted) =>
      <[winning_roster := Py.get_or faab_wasted winning_roster 0 + wasted]> faab_wasted
  | None => faab_wasted
  end.

(** One week of the second pass. *)
Definition waste_week (txns : list txn) (faab_wasted : gmap Z Z) : gmap Z Z :=
  match group_claims txns [] with
  | None => faab_wasted
  | Some player_bids => foldl charge_waste faab_wasted player_bids.*2
  end.

Definition waste_season (transactions : gmap Z (list txn)) (weeks : list Z)
    (faab_wasted : gmap Z Z) : gmap Z Z :=
  foldl (λ wasted week, match transactions !! week with
                        | None => wasted
                        | Some txns => waste_week txns wasted
                        end) faab_wasted weeks.

(** [{rid: 0 for rid in roster_to_user.keys()}]. *)
Definition zeros (teams : list Z) : gmap Z Z := list_to_map ((λ rid, (rid, 0)) <$> teams).

(** The loop filling [faab_remaining]. *)
Definition remaining_of (eliminations faab_spent : gmap Z Z) (rid : Z) : Z :=
  let spent := Py.get_or faab_spent rid 0 in
  if decide (is_Some (eliminations !! rid)) then 0 else STARTING_FAAB - spent.

Definition faab_remaining_of (teams : list Z) (eliminations faab_spent : gmap Z Z) : gmap Z Z :=
  foldl (λ d rid, <[rid := remaining_of eliminations faab_spent rid]> d) ∅ teams.

(** ** Step 6: positions above the chop and close calls *)

Definition CLOSE_CALL_POINTS_THRESHOLD : Q := 5.

(** [eliminations.get(rid) is None or eliminations[rid] >= week]. *)
Definition alive (eliminations : gmap Z Z) (week : Z) (rid : Z) : Prop :=
  match eliminations !! rid with
  | None => True
  | Some chop_week => week ≤ chop_week
  end.

#[global] Instance alive_dec eliminations week rid : Decision (alive eliminations week rid).
Proof. unfold alive. destruct (eliminations !! rid); apply _. Defined.

(** The teams alive in a week with their recorded scores, sorted by score,
    highest first. *)
Definition ranked_scores (teams : list Z) (eliminations : gmap Z Z) (sc : gmap Z Q)
    (week : Z) : list (Z * Q) :=
  let alive_in_week := filter (alive eliminations week) teams in
  Py.sorted snd Py.num_lt true (week_scores_of sc alive_in_week).

(** The [if]/[elif] that sets [is_close_call]. *)
Definition is_close_call (positions_above : Z) (points_above_chop : Q) : bool :=
  if decide (positions_above = 1) then true
  else if decide (positions_above > 0) then Py.num_le points_above_chop CLOSE_CALL_POINTS_THRESHOLD
  else false.

(** The body of the loop over the weeks for [roster_id]: the entry appended
    to [positions_above] with the close-call flag; [None] when the week is
    not counted. *)
Definition week_position (teams : list Z) (all_scores : scores_t) (st : sim_state)
    (roster_id week : Z) : option (Z * bool) :=
  match all_scores !! week with
  | None => None
  | Some sc =>
      match ranked_scores teams (eliminations st) sc week with
      | [] => None
      | week_scores =>
          let n := Z.of_nat (length week_scores) in
          match Py.rank_from roster_id week_scores 0 with
          | None => None
          | Some rank =>
              let chop_score_this_week := default 0%Q (chop_scores st !! week) in
              let my_score := default 0%Q (sc !! roster_id) in
              let points_above_chop := (my_score - chop_score_this_week)%Q in
              Some (n - rank, is_close_call (n - rank) points_above_chop)
          end
      end
  end.

(** [chop_week if chop_week else current_week]. *)
Definition end_week_of (chop_week : option Z) (dflt : Z) : Z :=
  match chop_week with
  | Some w => if decide (w = 0) then dflt else w
  | None => dflt
  end.

(** The loop over the weeks: [positions_above] and the close calls counted
    for [roster_id]. *)
Definition season_positions (teams : list Z) (all_scores : scores_t) (st : sim_state)
    (current_week roster_id : Z) : list Z * Z :=
  let end_week := end_week_of (eliminations st !! roster_id) current_week in
  foldl (λ acc week,
           match week_position teams all_scores st roster_id week with
           | None => acc
           | Some (pos, close) => (acc.1 ++ [pos], if close then acc.2 + 1 else acc.2)
           end) ([], 0) (Py.range 1 (end_week + 1)).

(** [round(statistics.mean(positions_above), 1) if positions_above else 0];
    [None] is an exception escaping the expression. *)
Definition average_position (positions_above : list Z) : option Q :=
  if decide (positions_above ≠ [])
  then (λ m, Py.round m 1) <$> Py.mean positions_above
  else Some 0%Q.

(** ** Step 7: weekly statistics *)

Record week_stats := WeekStats {
  high_score : option Q;
  percentile_75 : option Q;
  median : option Q;
  percentile_25 : option Q;
  chop_score : option Q;
  chop_differential : option Q
}.

(** The scores of the teams alive in a week, in roster order. *)
Definition alive_scores (teams : list Z) (eliminations : gmap Z Z) (sc : gmap Z Q)
    (week : Z) : list Q :=
  omap (λ rid, sc !! rid) (filter (alive eliminations week) teams).

(** The statistics of a non-empty list of scores; [None] is an exception
    raised by one of the entries. *)
Definition stats_of (scores : list Q) : option week_stats :=
  let sorted_scores := Py.sorted id Py.num_lt false scores in
  let n := length scores in
  high ← Py.max_by id Py.num_lt scores;
  low ← Py.min_by id Py.num_lt scores;
  p75 ← (if decide (4 ≤ n)%nat then Py.quantiles scores ≫= (λ q, q !! 2%nat) else Some high);
  med ← Py.median scores;
  p25 ← (if decide (4 ≤ n)%nat then Py.quantiles scores ≫= (λ q, q !! 0%nat) else Some low);
  Some {| high_score := Some high;
          percentile_75 := Some p75;
          median := Some med;
          percentile_25 := Some p25;
          chop_score := Some low;
          chop_differential :=
            Some (if decide (2 ≤ n)%nat
                  then Py.round (Py.item sorted_scores 1 - Py.item sorted_scores 0) 2
                  else 0%Q) |}.

Definition empty_stats : week_stats :=
  {| high_score := None; percentile_75 := None; median := None;
     percentile_25 := None; chop_score := None; chop_differential := None |}.

(** The loop over the played weeks, then the placeholders of the future
    weeks; [weekly_stats] is kept in insertion order. *)
Fixpoint played_stats (teams : list Z) (all_scores : scores_t) (eliminations : gmap Z Z)
    (weeks : list Z) (weekly_stats : list (string * week_stats))
    : option (list (string * week_stats)) :=
  match weeks with
  | [] => Some weekly_stats
  | week :: rest =>
      match all_scores !! week with
      | None => played_stats teams all_scores eliminations rest weekly_stats
      | Some sc =>
          match alive_scores teams eliminations sc week with
          | [] => played_stats teams all_scores eliminations rest weekly_stats
          | scores =>
              s ← stats_of scores;
              played_stats teams all_scores eliminations rest
                (Py.setitem (Py.str week) s weekly_stats)
          end
      end
  end.

Definition weekly_stats_of (teams : list Z) (all_scores : scores_t) (eliminations : gmap Z Z)
    (current_week : Z) : option (list (string * week_stats)) :=
  played ← played_stats teams all_scores eliminations (Py.range 1 (current_week + 1)) [];
  Some (foldl (λ d week, Py.setitem (Py.str week) empty_stats d) played
          (Py.range (current_week + 1) 18)).

(** ** Steps 8 to 10: the manager records *)

(** A manager record; [finish_position] is absent until step 10, and
    [avg_above_chop] is the key the repair script adds. *)
Record manager := Manager {
  user_name : string;
  roster_id : Z;
  draft_position : option Z;
  chop_week : option Z;
  faab_remaining : Z;
  faab_spent : Z;
  faab_wasted : Z;
  avg_pos_above_chop : Q;
  close_calls : Z;
  weekly_scores : gmap string (option Q);
  finish_position : option Z;
  avg_above_chop : option Q
}.

(** The value stored under [str(week)] in [weekly_scores_dict]. *)
Definition shown_score (all_scores : scores_t) (current_week : Z) (chop_week : option Z)
    (roster_id week : Z) : option Q :=
  if decide (week ≤ current_week) then
    match chop_week with
    | None => default ∅ (all_scores !! week) !! roster_id
    | Some w =>
        if decide (week ≤ w) then default ∅ (all_scores !! week) !! roster_id else None
    end
  else None.

Definition weekly_scores_dict (all_scores : scores_t) (current_week : Z)
    (chop_week : option Z) (roster_id : Z) : gmap string (option Q) :=
  foldl (λ d week, <[Py.str week := shown_score all_scores current_week chop_week roster_id week]> d)
    ∅ (Py.range 1 18).

(** The key of the display sort. *)
Definition display_key (m : manager) : Z * Z * Q :=
  let truthy := match chop_week m with Some w => bool_decide (w ≠ 0) | None => false end in
  (if truthy then 0 else 1,
   if truthy then default 0 (chop_week m) else 999,
   avg_pos_above_chop m).

Definition display_lt (a b : Z * Z * Q) : bool :=
  if decide (a.1.1 ≠ b.1.1) then a.1.1 <? b.1.1
  else if decide (a.1.2 ≠ b.1.2) then a.1.2 <? b.1.2
  else Py.num_lt a.2 b.2.

(** Step 10 for one manager. *)
Definition with_finish_position (total_teams : Z) (m : manager) : manager :=
  let position :=
    match chop_week m with
    | None => 1
    | Some w => total_teams - w + 1
    end in
  {| user_name := user_name m; roster_id := roster_id m;
     draft_position := draft_position m; chop_week := chop_week m;
     faab_remaining := faab_remaining m; faab_spent := faab_spent m;
     faab_wasted := faab_wasted m; avg_pos_above_chop := avg_pos_above_chop m;
     close_calls := close_calls m; weekly_scores := weekly_scores m;
     finish_position := Some position; avg_above_chop := avg_above_chop m |}.

Definition assign_finish_positions (managers : list manager) : list manager :=
  let total_teams := Z.of_nat (length managers) in
  with_finish_position total_teams <$> managers.

(** ** The pipeline [process_season_data] *)

(** What the pipeline fetches through the client.  A roster comes with the
    display name resolved for its owner; a week missing from [in_matchups]
    or [in_transactions] is a fetch that raised. *)
Record season_input := SeasonInput {
  in_rosters : list (Z * string);
  in_matchups : gmap Z (list matchup);
  in_draft_positions : gmap Z Z;
  in_transactions : gmap Z (list txn);
  in_winner_roster_id : option Z
}.

Record season_data := SeasonData {
  out_current_week : Z;
  out_starting_faab : Z;
  out_champion : option string;
  out_managers : list manager;
  out_weekly_stats : list (string * week_stats)
}.

(** Step 1: [roster_to_user], in insertion order. *)
Definition roster_to_user_of (rosters : list (Z * string)) : list (Z * string) :=
  foldl (λ d r, Py.setitem r.1 r.2 d) [] rosters.

(** Step 8 for one roster. *)
Definition build_manager (inp : season_input) (all_scores : scores_t) (st : sim_state)
    (spent wasted remaining : gmap Z Z) (current_week : Z) (r : Z * string) : option manager :=
  let rid := r.1 in
  let chop_week := eliminations st !! rid in
  avg ← average_position (season_positions (roster_to_user_of (in_rosters inp)).*1
                            all_scores st current_week rid).1;
  Some {| user_name := r.2;
          roster_id := rid;
          draft_position := in_draft_positions inp !! rid;
          chop_week := chop_week;
          faab_remaining := Py.get_or remaining rid 0;
          faab_spent := Py.get_or spent rid 0;
          faab_wasted := Py.get_or wasted rid 0;
          avg_pos_above_chop := avg;
          close_calls := (season_positions (roster_to_user_of (in_rosters inp)).*1
                            all_scores st current_week rid).2;
          weekly_scores := weekly_scores_dict all_scores current_week chop_week rid;
          finish_position := None;
          avg_above_chop := None |}.

Definition process_season_data (inp : season_input) (current_week : Z) : option season_data :=
  let roster_to_user := roster_to_user_of (in_rosters inp) in
  let teams := roster_to_user.*1 in
  let weeks := Py.range 1 (current_week + 1) in
  let all_scores := collect_scores (in_matchups inp) weeks ∅ in
  let st := simulate teams all_scores current_week in
  let spent := spend_season (in_transactions inp) weeks (zeros teams) in
  let wasted := waste_season (in_transactions inp) weeks (zeros teams) in
  let remaining := faab_remaining_of teams (eliminations st) spent in
  weekly_stats ← weekly_stats_of teams all_scores (eliminations st) current_week;
  let champion :=
    match in_winner_roster_id inp with
    | Some w => if decide (w = 0) then None else Py.getitem w roster_to_user
    | None => None
    end in
  managers ← mapM (build_manager inp all_scores st spent wasted remaining current_week)
               roster_to_user;
  let managers := Py.sorted display_key display_lt false managers in
  Some {| out_current_week := current_week;
          out_starting_faab := STARTING_FAAB;
          out_champion := champion;
          out_managers := assign_finish_positions managers;
          out_weekly_stats := weekly_stats |}.

(** ** [scripts/fix_avg_above_chop.py] *)

(** [m_chop is None or m_chop >= wk]. *)
Definition chop_alive (m_chop : option Z) (wk : Z) : bool :=
  match m_chop with
  | None => true
  | Some w => bool_decide (wk ≤ w)
  end.

(** The body of the inner loop over the managers: the entry appended to
    [week_scores] for [m], if any. *)
Definition named_entry (wk : Z) (m : manager) : option (string * Q) :=
  if chop_alive (chop_week m) wk
  then (λ score, (user_name m, score)) <$> mjoin (weekly_scores m !! Py.str wk)
  else None.

(** The scores of the managers alive in week [wk], under their names. *)
Definition named_week_scores (managers : list manager) (wk : Z) : list (string * Q) :=
  omap (named_entry wk) managers.

(** The body of the loop over the weeks: rank, number of scores and the
    manager's score in the sorted list. *)
Definition named_rank (managers : list manager) (name : string) (wk : Z) : option (Z * Z) :=
  match Py.sorted snd Py.num_lt true (named_week_scores managers wk) with
  | [] => None
  | week_scores =>
      (λ rank, (rank, Z.of_nat (length week_scores))) <$> Py.rank_from name week_scores 0
  end.

Definition rank_positions (managers : list manager) (manager : manager) : list Z :=
  let end_week := end_week_of (chop_week manager) 17 in
  foldl (λ positions_above wk,
           match named_rank managers (user_name manager) wk with
           | None => positions_above
           | Some (rank, n) => positions_above ++ [n - rank]
           end) [] (Py.range 1 (end_week + 1)).

Definition set_avg_above_chop (avg : Q) (m : manager) : manager :=
  {| user_name := user_name m; roster_id := roster_id m;
     draft_position := draft_position m; chop_week := chop_week m;
     faab_remaining := faab_remaining m; faab_spent := faab_spent m;
     faab_wasted := faab_wasted m; avg_pos_above_chop := avg_pos_above_chop m;
     close_calls := close_calls m; weekly_scores := weekly_scores m;
     finish_position := finish_position m; avg_above_chop := Some avg |}.

(** The loop writes a key that it never reads, so each manager is ranked
    against the records as they were passed in. *)
Definition calculate_rank_based_avg_above_chop (managers : list manager) : option (list manager) :=
  mapM (λ manager, (λ avg, set_avg_above_chop avg manager) <$>
                     average_position (rank_positions managers manager)) managers.

(** ** [scripts/add_close_calls.py] *)

(** [chop_scores] rebuilt from [weekly_stats]; [None] is the [ValueError]
    of [int]. *)
Fixpoint chop_scores_of (weekly_stats : list (string * week_stats)) (chop_scores : gmap Z Q)
    : option (gmap Z Q) :=
  match weekly_stats with
  | [] => Some chop_scores
  | (week_str, stats) :: rest =>
      match chop_score stats with
      | Some c => week ← Py.int week_str; chop_scores_of rest (<[week := c]> chop_scores)
      | None => chop_scores_of rest chop_scores
      end
  end.

(** The score found with the rank: the item of the first entry under
    [name]. *)
Definition named_score (week_scores : list (string * Q)) (name : string) : option Q :=
  (λ ix : nat * (string * Q), ix.2.2) <$> list_find (λ x, x.1 = name) week_scores.

Definition close_call_weeks (managers : list manager) (chop_scores : gmap Z Q)
    (manager : manager) : Z :=
  let end_week := end_week_of (chop_week manager) 17 in
  foldl (λ close_call_count week,
           let week_scores := Py.sorted snd Py.num_lt true (named_week_scores managers week) in
           match named_rank managers (user_name manager) week,
                 named_score week_scores (user_name manager) with
           | Some (rank, n), Some my_score =>
               let positions_above := n - rank in
               let chop_score_this_week := default 0%Q (chop_scores !! week) in
               let points_above_chop := (my_score - chop_score_this_week)%Q in
               if is_close_call positions_above points_above_chop
               then close_call_count + 1 else close_call_count
           | _, _ => close_call_count
           end) 0 (Py.range 1 (end_week + 1)).

Definition set_close_calls (n : Z) (m : manager) : manager :=
  {| user_name := user_name m; roster_id := roster_id m;
     draft_position := draft_position m; chop_week := chop_week m;
     faab_remaining := faab_remaining m; faab_spent := faab_spent m;
     faab_wasted := faab_wasted m; avg_pos_above_chop := avg_pos_above_chop m;
     close_calls := n; weekly_scores := weekly_scores m;
     finish_position := finish_position m; avg_above_chop := avg_above_chop m |}.

Definition calculate_close_calls (managers : list manager)
    (weekly_stats : list (string * week_stats)) : option (list manager) :=
  chop_scores ← chop_scores_of weekly_stats ∅;
  Some ((λ manager, set_close_calls (close_call_weeks managers chop_scores manager) manager)
          <$> managers).

(** ** [scripts/fix_faab_remaining.py] *)

Definition set_faab_remaining (n : Z) (m : manager) : manager :=
  {| user_name := user_name m; roster_id := roster_id m;
     draft_position := draft_position m; chop_week := chop_week m;
     faab_remaining := n; faab_spent := faab_spent m;
     faab_wasted := faab_wasted m; avg_pos_above_chop := avg_pos_above_chop m;
     close_calls := close_calls m; weekly_scores := weekly_scores m;
     finish_position := finish_position m; avg_above_chop := avg_above_chop m |}.

(** The body of the loop of [main] for one manager. *)
Definition fix_faab_remaining (m : manager) : manager :=
  let old_remaining := faab_remaining m in
  let new_remaining := STARTING_FAAB - faab_spent m in
  if decide (old_remaining ≠ new_remaining) then set_faab_remaining new_remaining m else m.

(** ** Notions used in the statements *)

(** A team has a recorded score in a week. *)
Definition recorded (all_scores : scores_t) (week rid : Z) : Prop :=
  ∃ sc, all_scores !! week = Some sc ∧ is_Some (sc !! rid).

(** Every team has a recorded score in every week of [1..current_week] in
    which it is alive under [eliminations]. *)
Definition scored_while_alive (teams : list Z) (all_scores : scores_t)
    (eliminations : gmap Z Z) (current_week : Z) : Prop :=
  ∀ week rid, 1 ≤ week ≤ current_week → rid ∈ teams →
    alive eliminations week rid → recorded all_scores week rid.

(** A two-team league that plays two weeks. *)
Definition two_teams_two_weeks : scores_t :=
  <[1 := <[1 := 10%Q]> (<[2 := 20%Q]> ∅)]> (<[2 := <[2 := 15%Q]> ∅]> ∅).

(** Three teams, two of them tied at the bottom of week 1. *)
Definition tied_week : scores_t :=
  <[1 := <[1 := 90%Q]> (<[2 := 80%Q]> (<[3 := 80%Q]> ∅))]> ∅.

Definition after_tied_week : sim_state :=
  {| remaining_teams := list_to_set [1; 3];
     eliminations := <[2 := 1]> ∅;
     chop_scores := <[1 := 80%Q]> ∅ |}.

(** The finish position that step 10 gives to a chop week. *)
Definition position_of (total_teams : Z) (chop_week : option Z) : Z :=
  match chop_week with
  | None => 1
  | Some w => total_teams - w + 1
  end.

(** A complete season of [N] managers: one survivor, and chop weeks that
    are pairwise distinct and lie in [1..N-1]. *)
Record complete_season (managers : list manager) : Prop := CompleteSeason {
  one_survivor : length (filter (λ m, chop_week m = None) managers) = 1%nat;
  chop_weeks_in_range :
    Forall (λ m, ∀ w, chop_week m = Some w → 1 ≤ w ≤ Z.of_nat (length managers) - 1) managers;
  chop_weeks_distinct : NoDup (omap chop_week managers)
}.

(** A manager record built by step 8, before the statistics are known. *)
Definition bare_manager (name : string) (rid : Z) (chop : option Z) : manager :=
  {| user_name := name; roster_id := rid; draft_position := None; chop_week := chop;
     faab_remaining := 0; faab_spent := 0; faab_wasted := 0; avg_pos_above_chop := 0%Q;
     close_calls := 0; weekly_scores := ∅; finish_position := None; avg_above_chop := None |}.

Definition three_managers : list manager :=
  [bare_manager "C" 3 (Some 1); bare_manager "A" 1 (Some 2); bare_manager "B" 2 None].

(** The intermediate values of [process_season_data]. *)
Definition roster_of (inp : season_input) : list (Z * string) := roster_to_user_of (in_rosters inp).
Definition teams_of (inp : season_input) : list Z := (roster_of inp).*1.
Definition scores_of (inp : season_input) (current_week : Z) : scores_t :=
  collect_scores (in_matchups inp) (Py.range 1 (current_week + 1)) ∅.
Definition sim_of (inp : season_input) (current_week : Z) : sim_state :=
  simulate (teams_of inp) (scores_of inp current_week) current_week.
Definition spent_of (inp : season_input) (current_week : Z) : gmap Z Z :=
  spend_season (in_transactions inp) (Py.range 1 (current_week + 1)) (zeros (teams_of inp)).
Definition wasted_of (inp : season_input) (current_week : Z) : gmap Z Z :=
  waste_season (in_transactions inp) (Py.range 1 (current_week + 1)) (zeros (teams_of inp)).
Definition built_manager (inp : season_input) (current_week : Z) (r : Z * string) : option manager :=
  build_manager inp (scores_of inp current_week) (sim_of inp current_week)
    (spent_of inp current_week) (wasted_of inp current_week)
    (faab_remaining_of (teams_of inp) (eliminations (sim_of inp current_week))
       (spent_of inp current_week))
    current_week r.

(** The scenario of the specification: three teams, two played weeks, a
    contested waiver claim won by team 1 and an uncontested one by team 2. *)
Definition spec_scenario : season_input :=
  {| in_rosters := [(1, "A"); (2, "B"); (3, "C")]%string;
     in_matchups :=
       <[1 := [Matchup 1 (Some 100%Q); Matchup 2 (Some 90%Q); Matchup 3 (Some 80%Q)]]>
         (<[2 := [Matchup 1 (Some 70%Q); Matchup 2 (Some 85%Q); Matchup 3 None]]> ∅);
     in_draft_positions := ∅;
     in_transactions :=
       <[1 := [Txn (Some "waiver") (Some "complete") [1] (Some (JInt 50)) ["p1"];
               Txn (Some "waiver") (Some "failed") [2] (Some (JInt 30)) ["p1"];
               Txn (Some "waiver") (Some "complete") [2] (Some (JInt 40)) ["p2"]]%string]> ∅;
     in_winner_roster_id := Some 2 |}.

(** The order of a list sorted with [reverse=True] on its scores. *)
Definition score_ge {I} (a b : I * Q) : Prop := (b.2 <= a.2)%Q.


(** The cut point [i] of four parts of [n] sorted values lies between the
    values at [j - 1] and [j], at [delta] quarters of the way. *)
Definition cut_index (n i : Z) : Z := i * (n + 1) / 4.
Definition cut_delta (n i : Z) : Z := (i * (n + 1)) `mod` 4.

Definition interpolated (data : list Q) (n i : Z) : Q :=
  ((Py.item data (cut_index n i - 1) * inject_Z (4 - cut_delta n i)
    + Py.item data (cut_index n i) * inject_Z (cut_delta n i)) / 4)%Q.

(** [winning_roster] holds the winning claim on a player: a completed claim
    of the highest completed bid [winning_bid]. *)
Definition wins (bids : list claim) (winning_bid winning_roster : Z) : Prop :=
  ∃ c, c ∈ bids ∧ claim_status c = Some "complete"%string ∧
       claim_bid c = winning_bid ∧ claim_roster c = winning_roster ∧
       ∀ c', c' ∈ bids → claim_status c' = Some "complete"%string → claim_bid c' ≤ winning_bid.

(** [second] is the highest bid on the player by another roster, 0 when no
    other roster bid. *)
Definition highest_other_bid (bids : list claim) (winning_roster second : Z) : Prop :=
  (∃ c, c ∈ bids ∧ claim_roster c ≠ winning_roster ∧ claim_bid c = second ∧
        ∀ c', c' ∈ bids → claim_roster c' ≠ winning_roster → claim_bid c' ≤ second) ∨
  ((∀ c, c ∈ bids → claim_roster c = winning_roster) ∧ second = 0).

(** The order of claims sorted by bid with [reverse=True]. *)
Definition bid_ge (a b : claim) : Prop := claim_bid b ≤ claim_bid a.

(** The claims on the two players of [spec_scenario]. *)
Definition contested_claims : list claim :=
  [(1, 50, Some "complete"%string); (2, 30, Some "failed"%string)].
Definition uncontested_claims : list claim := [(2, 40, Some "complete"%string)].

(** The close-call flag of a team in a week, false when the week is not
    counted for it. *)
Definition flagged (teams : list Z) (all_scores : scores_t) (st : sim_state)
    (roster_id week : Z) : bool :=
  match week_position teams all_scores st roster_id week with
  | Some (_, close) => close
  | None => false
  end.

(** The positions above the chop of a team in a week, when the week is
    counted for it. *)
Definition positions_above_chop (teams : list Z) (all_scores : scores_t) (st : sim_state)
    (roster_id week : Z) : option Z :=
  fst <$> week_position teams all_scores st roster_id week.

(** A season of three teams in which teams 1 and 2 tie at the top of
    week 1 and team 2 is chopped before team 1; the matchups of week 3
    cannot be fetched. *)
Definition tied_season : season_input :=
  {| in_rosters := [(1, "A"); (2, "B"); (3, "C")]%string;
     in_matchups :=
       <[1 := [Matchup 1 (Some 100%Q); Matchup 2 (Some 100%Q); Matchup 3 (Some 50%Q)]]>
         (<[2 := [Matchup 1 (Some 20%Q); Matchup 2 (Some 10%Q)]]> ∅);
     in_draft_positions := ∅;
     in_transactions := ∅;
     in_winner_roster_id := None |}.

(** The rosters alive in a week that have a recorded score, with that
    score, in roster order. *)
Definition scored_alive (roster : list (Z * string)) (eliminations : gmap Z Z)
    (sc : gmap Z Q) (week : Z) : list (Z * string * Q) :=
  omap (λ r, if decide (alive eliminations week r.1)
             then (λ s, (r, s)) <$> sc !! r.1
             else None) roster.

Definition by_roster_id (t : Z * string * Q) : Z * Q := (t.1.1, t.2).
Definition by_user_name (t : Z * string * Q) : string * Q := (t.1.2, t.2).

(** No two teams alive in the same week of the season have equal recorded
    scores in it. *)
Definition no_tied_scores (teams : list Z) (all_scores : scores_t)
    (eliminations : gmap Z Z) : Prop :=
  ∀ week r1 r2 s1 s2,
    week ∈ Py.range 1 18 → r1 ∈ teams → r2 ∈ teams →
    alive eliminations week r1 → alive eliminations week r2 →
    default ∅ (all_scores !! week) !! r1 = Some s1 →
    default ∅ (all_scores !! week) !! r2 = Some s2 →
    (s1 == s2)%Q → r1 = r2.

(** What the repair script appends to [positions_above] for a week. *)
Definition named_position (managers : list manager) (name : string) (wk : Z) : option Z :=
  (λ p : Z * Z, p.2 - p.1) <$> named_rank managers name wk.

From Stdlib Require DecimalPos DecimalZ.
(** ** Further notions used in the statements *)

(** The chop weeks recorded in a state are exactly the weeks 1 to [k]. *)
Definition chop_weeks_upto (st : sim_state) (k : Z) : Prop :=
  ∀ w, (∃ r, eliminations st !! r = Some w) ↔ 1 ≤ w ≤ k.

(** The order of the display sort: [a] may stand before [b]. *)
Definition display_le (a b : manager) : Prop :=
  display_lt (display_key b) (display_key a) = false.

(** The bid that a transaction adds to the spent total of roster [rid]: the
    bid of a completed waiver claim whose first roster id is [rid]. *)
Definition completed_bid (rid : Z) (t : txn) : option Z :=
  if decide (txn_type t = Some "waiver"%string ∧ txn_status t = Some "complete"%string)
  then match txn_roster_ids t, waiver_bid t with
       | r :: _, Some (Some b) => if decide (r = rid) then Some b else None
       | _, _ => None
       end
  else None.

(** A completed waiver claim whose settings are null. *)
Definition malformed_claim : txn :=
  Txn (Some "waiver"%string) (Some "complete"%string) [2] None ["p9"%string].

Definition well_formed_claim : txn :=
  Txn (Some "waiver"%string) (Some "complete"%string) [1] (Some (JInt 50)) ["p1"%string].

(** The entry that the loop of step 7 writes for a week, if any: the
    statistics of the scores of the teams alive in it. *)
Definition week_entry (teams : list Z) (all_scores : scores_t) (eliminations : gmap Z Z)
    (week : Z) : option week_stats :=
  sc ← all_scores !! week;
  match alive_scores teams eliminations sc week with
  | [] => None
  | scores => stats_of scores
  end.

(** ** [SleeperClient.get_current_week] and the week of a live season *)

(** The league record as [get_current_week] reads it: the string under
    ["status"], if any, and the ["leg"] of ["settings"].  [league_settings]
    is [None] when the record carries ["settings": null]; without the key
    the settings are empty, [Some JAbsent]. *)
Record league := League {
  league_status : option string;
  league_settings : option json_int
}.

(** [settings.get("leg", 1)]; [None] is Python's [None]. *)
Definition settings_leg (settings : json_int) : option Z :=
  match settings with
  | JAbsent => Some 1
  | JNull => None
  | JInt n => Some n
  end.

(** [get_current_week]: the argument is [None] for an empty league record,
    the result is [None] when reading null settings raises. *)
Definition get_current_week (league : option league) : option Z :=
  match league with
  | Some league =>
      if decide (league_status league = Some "complete"%string) then Some 17
      else
        settings ← league_settings league;
        match settings_leg settings with
        | Some current_week =>
            if decide (current_week ≠ 0 ∧ 1 ≤ current_week ≤ 17)
            then Some current_week else Some 1
        | None => Some 1
        end
  | None => Some 1
  end.

(** [get_season_data] for a live season that has started: the week handed
    to [process_season_data], from the query parameter [week] or from the
    client. *)
Definition season_week (week : option Z) (league : option league) : option Z :=
  week ← match week with
         | None => get_current_week league
         | Some week => Some week
         end;
  Some (Z.max 1 (Z.min 17 week)).

(** ** Truth values *)

(** The truth value of an int that may be [None]. *)
Definition truthy (x : option Z) : bool :=
  match x with
  | Some n => bool_decide (n ≠ 0)
  | None => false
  end.

(** ** [get_manager_profile]: the finish position of a season *)

(** The finish position shown for a record of a season with
    [num_managers] records: the stored one, or the one computed from the
    chop week. *)
Definition profile_finish (num_managers : Z) (manager_data : manager) : option Z :=
  let finish_pos := finish_position manager_data in
  if negb (truthy finish_pos) && truthy (chop_week manager_data)
  then (λ w, num_managers - w + 1) <$> chop_week manager_data
  else if negb (truthy finish_pos) && negb (truthy (chop_week manager_data))
       then Some 1
       else finish_pos.

(** ** Step 4 of [process_season_data]: draft positions *)

Record draft_pick := DraftPick {
  pick_round : option Z;
  pick_roster_id : option Z;
  pick_no : option Z
}.

Definition draft_positions_of (draft_picks : list draft_pick) : gmap Z Z :=
  foldl (λ draft_positions pick,
           if decide (pick_round pick = Some 1)
           then match pick_roster_id pick, pick_no pick with
                | Some roster_id, Some no =>
                    if truthy (Some roster_id) && truthy (Some no)
                    then <[roster_id := no]> draft_positions
                    else draft_positions
                | _, _ => draft_positions
                end
           else draft_positions) ∅ draft_picks.

(** The pick number that a pick records for [rid]. *)
Definition first_round_pick (rid : Z) (pick : draft_pick) : option Z :=
  if decide (pick_round pick = Some 1 ∧ pick_roster_id pick = Some rid ∧ rid ≠ 0)
  then match pick_no pick with
       | Some no => if decide (no ≠ 0) then Some no else None
       | None => None
       end
  else None.

(** ** [get_chopped_players]: the roster chopped in a week *)

(** The scan [for manager in managers: if manager["chop_week"] == w: ...; break]. *)
Definition chopped_roster_of (managers : list manager) (w : Z) : option Z :=
  (λ im : nat * manager, roster_id im.2) <$> list_find (λ m, chop_week m = Some w) managers.

(** ** [get_season_recap] *)

(** An entry of ["elimination_order"]: week, manager and score. *)
Definition elimination_order (managers : list manager) : list (Z * string * option Q) :=
  let eliminated := filter (λ m, truthy (chop_week m)) managers in
  let eliminated := Py.sorted (λ m, default 0 (chop_week m)) Z.ltb false eliminated in
  (λ m, (default 0 (chop_week m), user_name m,
         mjoin (weekly_scores m !! Py.str (default 0 (chop_week m))))) <$> eliminated.

(** The entries of [week_scores] for the stats key [week_str], read as the
    week [week]: manager, score and [was_chopped]. *)
Definition recap_week_scores (managers : list manager) (week_str : string) (week : Z)
    : list (string * Q * bool) :=
  omap (λ m,
          match mjoin (weekly_scores m !! week_str) with
          | Some score =>
              if negb (truthy (chop_week m)) || chop_alive (chop_week m) week
              then Some (user_name m, score, bool_decide (chop_week m = Some week))
              else None
          | None => None
          end) managers.

Record close_call := CloseCall {
  cc_week : Z;
  cc_survivor : string;
  cc_survivor_score : Q;
  cc_chopped : string;
  cc_chopped_score : Q;
  cc_margin : Q
}.

Record blowout := Blowout {
  bo_week : Z;
  bo_chopped : string;
  bo_score : Q;
  bo_margin_to_safety : Q
}.

(** [if chop_score:] on a score that may be [None]. *)
Definition truthy_score (x : option Q) : bool :=
  match x with
  | Some c => negb (Qeq_bool c 0)
  | None => false
  end.

(** The loop over the items of [weekly_stats]; [None] is the [ValueError]
    of [int]. *)
Fixpoint recap_weeks (managers : list manager) (weekly_stats : list (string * week_stats))
    (close_calls : list close_call) (biggest_blowouts : list blowout)
    : option (list close_call * list blowout) :=
  match weekly_stats with
  | [] => Some (close_calls, biggest_blowouts)
  | (week_str, stats) :: rest =>
      week ← Py.int week_str;
      if truthy_score (chop_score stats)
      then
        match Py.sorted (λ x : string * Q * bool, x.1.2) Py.num_lt false
                (recap_week_scores managers week_str week) with
        | chopped :: survivor :: _ =>
            let diff := Py.round (survivor.1.2 - chopped.1.2) 2 in
            recap_weeks managers rest
              (if Py.num_lt diff 5
               then close_calls ++ [CloseCall week survivor.1.1 survivor.1.2
                                      chopped.1.1 chopped.1.2 diff]
               else close_calls)
              (if Py.num_lt 20 diff
               then biggest_blowouts ++ [Blowout week chopped.1.1 chopped.1.2 diff]
               else biggest_blowouts)
        | _ => recap_weeks managers rest close_calls biggest_blowouts
        end
      else recap_weeks managers rest close_calls biggest_blowouts
  end.

(** ["close_calls"] and ["biggest_blowouts"] of the recap. *)
Definition recap_close_calls (managers : list manager)
    (weekly_stats : list (string * week_stats)) : option (list close_call * list blowout) :=
  found ← recap_weeks managers weekly_stats [] [];
  Some (take 5 (Py.sorted cc_margin Py.num_lt false found.1),
        take 5 (Py.sorted bo_margin_to_safety Py.num_lt true found.2)).




(** The transactions of the fetched weeks of a season, in week order. *)
Definition season_txns (inp : season_input) (current_week : Z) : list txn :=
  mjoin ((λ week, default [] (in_transactions inp !! week)) <$> Py.range 1 (current_week + 1)).

(** In every week up to 17 in which a team alive has a recorded score, the
    elimination loop has chopped a team. *)
Definition chop_in_every_scored_week (inp : season_input) : Prop :=
  ∀ week sc, 1 ≤ week ≤ 17 → scores_of inp 17 !! week = Some sc →
    alive_scores (teams_of inp) (eliminations (sim_of inp 17)) sc week ≠ [] →
    is_Some (chop_scores (sim_of inp 17) !! week).

(** The body of the loop of [calculate_close_calls] over the weeks: whether
    the week is counted as a close call of [name]. *)
Definition script_close_call (managers : list manager) (chop_scores : gmap Z Q)
    (name : string) (week : Z) : bool :=
  match named_rank managers name week,
        named_score (Py.sorted snd Py.num_lt true (named_week_scores managers week)) name with
  | Some (rank, n), Some my_score =>
      is_close_call (n - rank) (my_score - default 0%Q (chop_scores !! week))
  | _, _ => false
  end.

(** A close call of the recap agrees with the statistics [weekly_stats] of
    its week: the margin is their [chop_differential] and the chopped score
    their [chop_score]. *)
Definition close_call_in_stats (weekly_stats : list (string * week_stats))
    (e : close_call) : Prop :=
  ∃ st low, Py.getitem (Py.str (cc_week e)) weekly_stats = Some st ∧
            chop_differential st = Some (cc_margin e) ∧
            chop_score st = Some low ∧ (low == cc_chopped_score e)%Q.

Definition blowout_in_stats (weekly_stats : list (string * week_stats))
    (b : blowout) : Prop :=
  ∃ st low, Py.getitem (Py.str (bo_week b)) weekly_stats = Some st ∧
            chop_differential st = Some (bo_margin_to_safety b) ∧
            chop_score st = Some low ∧ (low == bo_score b)%Q.

(** ** The wasted budget of a season *)

(** The amount that the claims on one player charge to roster [rid]. *)
Definition charged_to (rid : Z) (bids : list claim) : option Z :=
  match player_waste bids with
  | Some (winning_roster, wasted) => if decide (winning_roster = rid) then Some wasted else None
  | None => None
  end.

(** The claims of a week grouped by player, in the order in which the
    players are first claimed; none when the grouping raises. *)
Definition week_claims (txns : list txn) : list (list claim) :=
  match group_claims txns [] with
  | Some player_bids => player_bids.*2
  | None => []
  end.

(** The groups of claims of the fetched weeks of a season. *)
Definition season_claims (inp : season_input) (current_week : Z) : list (list claim) :=
  mjoin ((λ week, match in_transactions inp !! week with
                  | Some txns => week_claims txns
                  | None => []
                  end) <$> Py.range 1 (current_week + 1)).

(** The claim that a transaction places on [player_id], if any. *)
Definition claim_on (player_id : string) (t : txn) : option claim :=
  if decide (txn_type t = Some "waiver"%string ∧ player_id ∈ txn_adds t)
  then match txn_roster_ids t, waiver_bid t with
       | roster_id :: _, Some (Some b) => Some (roster_id, b, txn_status t)
       | _, _ => None
       end
  else None.

(** ** [SleeperClient._cached_get] *)

Definition CACHE_TTL : Q := 300.

(** The two dictionaries of the client; times are in seconds. *)
Record client_state (V : Type) := ClientState {
  cache : gmap string V;
  cache_time : gmap string Q
}.
Arguments ClientState {V} _ _.
Arguments cache {V} _.
Arguments cache_time {V} _.

Inductive outcome (V : Type) :=
  | Returned (data : V)
  | Raised.
Arguments Returned {V} _.
Arguments Raised {V}.

(** [_cached_get(url)] at time [now]; [response] is what the GET request
    yields if it is made, [None] when it raises.  The result comes with the
    state of the client afterwards. *)
Definition cached_get {V} (now : Q) (response : option V) (url : string)
    (st : client_state V) : outcome V * client_state V :=
  let request :=
    match response with
    | Some data =>
        (Returned data,
         {| cache := <[url := data]> (cache st); cache_time := <[url := now]> (cache_time st) |})
    | None => (Raised, st)
    end in
  match cache st !! url with
  | Some cached =>
      match cache_time st !! url with
      | Some stored =>
          let cache_age := (now - stored)%Q in
          if Py.num_lt cache_age CACHE_TTL then (Returned cached, st) else request
      | None => (Raised, st)
      end
  | None => request
  end.

(** Every cached url has its time of storage. *)
Definition cache_timed {V} (st : client_state V) : Prop :=
  ∀ url, is_Some (cache st !! url) → is_Some (cache_time st !! url).

(** The client as [__init__] leaves it. *)
Definition new_client {V} : client_state V := {| cache := ∅; cache_time := ∅ |}.

(** * Properties *)

(** ** Comparisons and the scan of [min] *)

Lemma num_lt_spec a b : Py.num_lt a b = true ↔ (a < b)%Q.
Proof. unfold Py.num_lt. rewrite Qlt_alt. destruct (a ?= b)%Q; intuition congruence. Qed.

Lemma num_lt_false a b : Py.num_lt a b = false ↔ (b <= a)%Q.
Proof.
  rewrite <- not_true_iff_false, num_lt_spec. split.
  - apply Qnot_lt_le.
  - apply Qle_not_lt.
Qed.

Lemma num_le_spec a b : Py.num_le a b = true ↔ (a <= b)%Q.
Proof. unfold Py.num_le. rewrite Qle_alt. destruct (a ?= b)%Q; intuition congruence. Qed.

Lemma tuple_lt_spec a b :
  Py.tuple_lt a b = true ↔ (a.1 < b.1)%Q ∨ ((a.1 == b.1)%Q ∧ a.2 < b.2).
Proof.
  unfold Py.tuple_lt. destruct (a.1 ?= b.1)%Q eqn:E.
  - apply Qeq_alt in E. rewrite Z.ltb_lt. split; [auto |].
    intros [H | [_ H]]; [| done]. rewrite E in H. by apply Qlt_irrefl in H.
  - apply Qlt_alt in E. intuition.
  - apply Qgt_alt in E. split; [done |]. intros [H | [H _]].
    + exfalso. eapply Qlt_irrefl, Qlt_trans; eauto.
    + rewrite H in E. by apply Qlt_irrefl in E.
Qed.

Lemma tuple_lt_false a b :
  Py.tuple_lt a b = false ↔ (b.1 <= a.1)%Q ∧ ((a.1 == b.1)%Q → b.2 ≤ a.2).
Proof.
  rewrite <- not_true_iff_false, tuple_lt_spec. split.
  - intros H. split.
    + apply Qnot_lt_le. tauto.
    + intros E. destruct (decide (b.2 ≤ a.2)); [done |]. exfalso. apply H. right. split; [done | lia].
  - intros [H1 H2] [H | [E H]].
    + by apply Qle_not_lt in H1.
    + specialize (H2 E). lia.
Qed.

Section min_scan.
Context {A K : Type} (key : A → K) (lt : K → K → bool).
Hypothesis lt_irrefl : ∀ a, lt a a = false.
Hypothesis lt_trans : ∀ a b c, lt a b = true → lt b c = true → lt a c = true.

Lemma min_scan_elem best l : Py.min_scan key lt best l ∈ best :: l.
Proof using Type.
  clear lt_irrefl lt_trans.
  revert best. induction l as [| x l IH]; intros best; simpl.
  - left.
  - pose proof (IH (if lt (key x) (key best) then x else best)) as H.
    apply elem_of_cons in H as [H | H].
    + rewrite H. destruct (lt (key x) (key best)); [right; left | left].
    + right; by right.
Qed.

Lemma min_scan_mono l best y :
  lt (key y) (key best) = false → lt (key y) (key (Py.min_scan key lt best l)) = false.
Proof using lt_trans.
  revert best. induction l as [| x l IH]; intros best Hy; simpl; [done |].
  apply IH. destruct (lt (key x) (key best)) eqn:E; [| done].
  destruct (lt (key y) (key x)) eqn:E'; [| done].
  by rewrite (lt_trans _ _ _ E' E) in Hy.
Qed.

Lemma min_scan_least best l x :
  x ∈ best :: l → lt (key x) (key (Py.min_scan key lt best l)) = false.
Proof using lt_irrefl lt_trans.
  revert best. induction l as [| z l IH]; intros best Hx; simpl.
  - apply list_elem_of_singleton in Hx. subst x. apply lt_irrefl.
  - apply elem_of_cons in Hx as [Hx | Hx]; [| apply elem_of_cons in Hx as [Hx | Hx]].
    + subst x. apply min_scan_mono.
      destruct (lt (key z) (key best)) eqn:E; [| apply lt_irrefl].
      destruct (lt (key best) (key z)) eqn:E'; [| done].
      by rewrite <- (lt_irrefl (key best)), (lt_trans _ _ _ E' E).
    + subst x. apply min_scan_mono.
      destruct (lt (key z) (key best)) eqn:E; [apply lt_irrefl | done].
    + apply IH. by right.
Qed.

Lemma min_by_spec l m :
  Py.min_by key lt l = Some m → m ∈ l ∧ ∀ x, x ∈ l → lt (key x) (key m) = false.
Proof using lt_irrefl lt_trans.
  destruct l as [| x l]; simpl; [done |]. intros [= <-]. split.
  - apply min_scan_elem.
  - intros y. apply min_scan_least.
Qed.

Lemma min_by_is_Some l : l ≠ [] → is_Some (Py.min_by key lt l).
Proof using Type. destruct l; [done | by eexists]. Qed.
End min_scan.

Lemma num_lt_irrefl a : Py.num_lt a a = false.
Proof. apply num_lt_false, Qle_refl. Qed.

Lemma num_lt_trans a b c : Py.num_lt a b = true → Py.num_lt b c = true → Py.num_lt a c = true.
Proof. rewrite !num_lt_spec. apply Qlt_trans. Qed.

Lemma tuple_lt_irrefl a : Py.tuple_lt a a = false.
Proof. apply tuple_lt_false. split; [apply Qle_refl | lia]. Qed.

Lemma tuple_lt_trans a b c :
  Py.tuple_lt a b = true → Py.tuple_lt b c = true → Py.tuple_lt a c = true.
Proof.
  rewrite !tuple_lt_spec. intros [H1 | [E1 H1]] [H2 | [E2 H2]].
  - left. eapply Qlt_trans; eauto.
  - left. by rewrite <- E2.
  - left. by rewrite E1.
  - right. split; [by rewrite E1 | lia].
Qed.

(** ** The elimination simulation *)

Lemma elem_of_week_scores_of sc l rid s :
  (rid, s) ∈ week_scores_of sc l ↔ rid ∈ l ∧ sc !! rid = Some s.
Proof.
  unfold week_scores_of. rewrite list_elem_of_omap. split.
  - intros (r & Hr & Hs). destruct (sc !! r) eqn:E; simplify_eq/=. done.
  - intros [Hr Hs]. exists rid. by rewrite Hs.
Qed.

Lemma week_scores_of_nil sc l :
  week_scores_of sc l = [] ↔ ∀ rid, rid ∈ l → sc !! rid = None.
Proof.
  split.
  - intros H rid Hrid. destruct (sc !! rid) as [s |] eqn:E; [| done].
    assert ((rid, s) ∈ week_scores_of sc l) as Hin by by apply elem_of_week_scores_of.
    rewrite H in Hin. by apply not_elem_of_nil in Hin.
  - intros H. destruct (week_scores_of sc l) as [| [rid s] ws] eqn:E; [done |].
    assert ((rid, s) ∈ week_scores_of sc l) as Hin by (rewrite E; left).
    apply elem_of_week_scores_of in Hin as [Hin Hs]. rewrite (H _ Hin) in Hs. done.
Qed.

(** The team returned by [chopped_team] has a lowest score, and the lowest
    roster id among the teams with that score. *)
Lemma chopped_team_spec ws c :
  chopped_team ws = Some c →
  ∃ s, (c, s) ∈ ws ∧ ∀ r s', (r, s') ∈ ws → (s <= s')%Q ∧ ((s == s')%Q → c ≤ r).
Proof.
  unfold chopped_team. intros H. apply fmap_Some in H as ([c' s] & H & ->).
  apply (min_by_spec _ _ tuple_lt_irrefl tuple_lt_trans) in H as [Hin Hmin].
  exists s. split; [done |]. intros r s' Hr.
  specialize (Hmin _ Hr). apply tuple_lt_false in Hmin. simpl in Hmin.
  destruct Hmin as [H1 H2]. split; [done |]. intros E. apply H2. by symmetry.
Qed.

Lemma min_score_of_spec ws m :
  min_score_of ws = Some m →
  (∃ r, (r, m) ∈ ws) ∧ ∀ r s', (r, s') ∈ ws → (m <= s')%Q.
Proof.
  unfold min_score_of. intros H.
  apply (min_by_spec _ _ num_lt_irrefl num_lt_trans) in H as [Hin Hmin]. split.
  - apply list_elem_of_fmap in Hin as ([r s] & -> & Hin). by exists r.
  - intros r s' Hr. apply num_lt_false, (Hmin s'). apply list_elem_of_fmap. by exists (r, s').
Qed.

(** Two scans of the same scores, in whatever order, name the same team. *)
Lemma chopped_team_order ws ws' c :
  ws ≡ₚ ws' → chopped_team ws = Some c → chopped_team ws' = Some c.
Proof.
  intros Hp H. destruct (chopped_team ws') as [c' |] eqn:E.
  - apply chopped_team_spec in H as (s & Hin & Hmin).
    apply chopped_team_spec in E as (s' & Hin' & Hmin').
    rewrite Hp in Hin. rewrite <- Hp in Hin'.
    destruct (Hmin _ _ Hin') as [H1 H2]. destruct (Hmin' _ _ Hin) as [H1' H2'].
    assert (s == s')%Q as Heq by by apply Qle_antisym.
    f_equal. specialize (H2 Heq). symmetry in Heq. specialize (H2' Heq). lia.
  - unfold chopped_team in *. destruct ws' as [| x ws']; [| done].
    apply Permutation_nil_r in Hp. by subst ws.
Qed.

Lemma sim_week_Some all_scores week st st' :
  sim_week all_scores week st = Some st' →
  ∃ sc c s m,
    all_scores !! week = Some sc ∧ c ∈ remaining_teams st ∧ sc !! c = Some s ∧
    (∀ r s', r ∈ remaining_teams st → sc !! r = Some s' → (s <= s')%Q ∧ ((s == s')%Q → c ≤ r)) ∧
    (m == s)%Q ∧
    chopped_team (week_scores_of sc (elements (remaining_teams st))) = Some c ∧
    st' = {| remaining_teams := remaining_teams st ∖ {[c]};
             eliminations := <[c := week]> (eliminations st);
             chop_scores := <[week := m]> (chop_scores st) |}.
Proof.
  unfold sim_week. destruct (all_scores !! week) as [sc |]; [| done].
  destruct (min_score_of _) as [m |] eqn:Em; [| done].
  destruct (chopped_team _) as [c |] eqn:Ec; [| done]. intros [= <-].
  pose proof Ec as Ec'.
  apply chopped_team_spec in Ec as (s & Hin & Hmin).
  apply min_score_of_spec in Em as [[r Hr] Hm].
  apply elem_of_week_scores_of in Hin as [Hc Hs]. apply elem_of_elements in Hc.
  exists sc, c, s, m. split_and!; try done.
  - intros r' s' Hr' Hs'. apply Hmin, elem_of_week_scores_of. by rewrite elem_of_elements.
  - apply Qle_antisym.
    + apply (Hm c), elem_of_week_scores_of. by rewrite elem_of_elements.
    + by apply (Hmin r m).
Qed.

Lemma sim_week_None all_scores week st :
  sim_week all_scores week st = None →
  all_scores !! week = None ∨
  ∃ sc, all_scores !! week = Some sc ∧ ∀ rid, rid ∈ remaining_teams st → sc !! rid = None.
Proof.
  unfold sim_week. destruct (all_scores !! week) as [sc |]; [| by left].
  intros H. right. exists sc. split; [done |].
  intros rid Hrid. apply elem_of_elements in Hrid. revert rid Hrid. apply week_scores_of_nil.
  destruct (week_scores_of sc _) as [| p ws]; [done |]. exfalso.
  unfold min_score_of, chopped_team in H. simpl in H. done.
Qed.

(** The invariant of the loop, entering week [lo]. *)
Record sim_inv (teams : gset Z) (st : sim_state) (lo : Z) : Prop := SimInv {
  inv_remaining : remaining_teams st = teams ∖ dom (eliminations st);
  inv_dom : dom (eliminations st) ⊆ teams;
  inv_weeks : ∀ r w, eliminations st !! r = Some w → 1 ≤ w < lo;
  inv_inj : ∀ r1 r2 w, eliminations st !! r1 = Some w → eliminations st !! r2 = Some w → r1 = r2;
  inv_chops : ∀ w, is_Some (chop_scores st !! w) ↔ ∃ r, eliminations st !! r = Some w;
  inv_size : size (chop_scores st) = size (eliminations st)
}.

Lemma sim_inv_init teams lo :
  sim_inv teams {| remaining_teams := teams; eliminations := ∅; chop_scores := ∅ |} lo.
Proof.
  split; simpl.
  - rewrite dom_empty_L. set_solver.
  - rewrite dom_empty_L. set_solver.
  - intros r w. by rewrite lookup_empty.
  - intros r1 r2 w. by rewrite lookup_empty.
  - intros w. rewrite lookup_empty. split; [by intros [? ?] |]. intros [r H].
    by rewrite lookup_empty in H.
  - by rewrite !map_size_empty.
Qed.

Lemma sim_inv_weaken teams st lo lo' : lo ≤ lo' → sim_inv teams st lo → sim_inv teams st lo'.
Proof.
  intros Hle [H1 H2 H3 H4 H5 H6]. split; try done.
  intros r w Hr. specialize (H3 _ _ Hr). lia.
Qed.

Lemma sim_week_inv teams all_scores week st st' :
  1 ≤ week → sim_inv teams st week → sim_week all_scores week st = Some st' →
  sim_inv teams st' (week + 1) ∧
  eliminations st ⊆ eliminations st' ∧
  size (eliminations st') = S (size (eliminations st)) ∧
  size (remaining_teams st) = S (size (remaining_teams st')).
Proof.
  intros Hpos [H1 H2 H3 H4 H5 H6] H.
  apply sim_week_Some in H as (sc & c & s & m & Hsc & Hc & Hs & Hmin & Hm & _ & ->). simpl.
  assert (eliminations st !! c = None) as Hfresh.
  { rewrite H1 in Hc. apply elem_of_difference in Hc as [_ Hc]. by apply not_elem_of_dom. }
  assert (chop_scores st !! week = None) as Hfreshw.
  { apply eq_None_not_Some. rewrite H5. intros [r Hr]. specialize (H3 _ _ Hr). lia. }
  split_and!.
  - split; simpl.
    + rewrite dom_insert_L, H1. set_solver.
    + rewrite dom_insert_L. rewrite H1 in Hc. set_solver.
    + intros r w. rewrite lookup_insert. case_decide.
      * intros [= <-]. lia.
      * intros Hr. specialize (H3 _ _ Hr). lia.
    + intros r1 r2 w. rewrite !lookup_insert. repeat case_decide; simplify_eq.
      * done.
      * intros [= <-] Hr. specialize (H3 _ _ Hr). lia.
      * intros Hr [= <-]. specialize (H3 _ _ Hr). lia.
      * apply H4.
    + intros w. rewrite lookup_insert. case_decide as Hw.
      * subst w. split; [| by eauto]. intros _. exists c. by rewrite lookup_insert_eq.
      * rewrite H5. split; intros [r Hr].
        -- exists r. rewrite lookup_insert_ne; [done |]. intros ->. congruence.
        -- rewrite lookup_insert in Hr. case_decide; simplify_eq. by exists r.
    + rewrite !map_size_insert_None by done. by rewrite H6.
  - by apply insert_subseteq.
  - by apply map_size_insert_None.
  - rewrite size_difference by set_solver.
    rewrite size_singleton. assert (size (remaining_teams st) ≠ 0%nat); [| lia].
    apply size_non_empty_iff. set_solver.
Qed.

Lemma sim_loop_inv (teams : gset Z) all_scores n lo st :
  1 ≤ lo → sim_inv teams st lo →
  sim_inv teams (sim_loop all_scores (seqZ lo (Z.of_nat n)) st) (lo + Z.of_nat n) ∧
  eliminations st ⊆ eliminations (sim_loop all_scores (seqZ lo (Z.of_nat n)) st).
Proof.
  revert lo st. induction n as [| n IH]; intros lo st Hlo Hinv.
  - simpl. split; [| done]. eapply sim_inv_weaken; [| done]. lia.
  - rewrite seqZ_cons by lia. simpl.
    replace (Z.pred (Z.of_nat (S n))) with (Z.of_nat n) by lia.
    destruct (sim_week all_scores lo st) as [st' |] eqn:E.
    + destruct (sim_week_inv _ _ _ _ _ Hlo Hinv E) as (Hinv' & Hsub & _).
      destruct (IH (Z.succ lo) st') as [H1 H2]; [lia | by rewrite <- Z.add_1_r |]. split.
      * eapply sim_inv_weaken; [| done]. lia.
      * by etrans.
    + split; [| done]. eapply sim_inv_weaken; [| done]. lia.
Qed.

Lemma sim_loop_count (teams : gset Z) all_scores (roster : list Z) n lo st :
  1 ≤ lo → sim_inv teams st lo →
  (∀ rid, rid ∈ teams → rid ∈ roster) →
  (∀ week rid, lo ≤ week < lo + Z.of_nat n → rid ∈ roster →
     alive (eliminations (sim_loop all_scores (seqZ lo (Z.of_nat n)) st)) week rid →
     recorded all_scores week rid) →
  size (eliminations (sim_loop all_scores (seqZ lo (Z.of_nat n)) st)) =
    (size (eliminations st) + n `min` size (remaining_teams st))%nat.
Proof.
  revert lo st. induction n as [| n IH]; intros lo st Hlo Hinv Hroster Hrec.
  - simpl. lia.
  - revert Hrec. rewrite seqZ_cons by lia. cbn [sim_loop].
    replace (Z.pred (Z.of_nat (S n))) with (Z.of_nat n) by lia.
    destruct (sim_week all_scores lo st) as [st' |] eqn:E; intros Hrec.
    + destruct (sim_week_inv _ _ _ _ _ Hlo Hinv E) as (Hinv' & Hsub & Hsz & Hsz').
      rewrite (IH (Z.succ lo) st'); [lia | lia | by rewrite <- Z.add_1_r | done |].
      intros week rid Hweek. apply Hrec. lia.
    + assert (remaining_teams st = ∅) as Hempty.
      { apply set_eq. intros rid. split; [| set_solver]. intros Hrid. exfalso.
        destruct (Hrec lo rid) as (sc & Hsc & Hs); [lia | | |].
        - apply Hroster. rewrite (inv_remaining _ _ _ Hinv) in Hrid. set_solver.
        - unfold alive. rewrite (inv_remaining _ _ _ Hinv) in Hrid.
          apply elem_of_difference in Hrid as [_ Hrid].
          apply not_elem_of_dom in Hrid. by rewrite Hrid.
        - apply sim_week_None in E as [E | (sc' & E & Hnone)]; [congruence |].
          simplify_eq. rewrite (Hnone rid Hrid) in Hs. by destruct Hs. }
      rewrite Hempty, size_empty. lia.
Qed.

Lemma range_seqZ n : Py.range 1 (n + 1) = seqZ 1 (Z.of_nat (Z.to_nat n)).
Proof.
  unfold Py.range. replace (n + 1 - 1) with n by lia.
  unfold seqZ. by rewrite Nat2Z.id.
Qed.

Lemma simulate_inv teams all_scores current_week :
  sim_inv (list_to_set teams) (simulate teams all_scores current_week)
    (1 + Z.of_nat (Z.to_nat current_week)).
Proof. unfold simulate. rewrite range_seqZ. apply sim_loop_inv; [done | apply sim_inv_init]. Qed.

Lemma two_teams_scored :
  scored_while_alive [1; 2] two_teams_two_weeks
    (eliminations (simulate [1; 2] two_teams_two_weeks 2)) 2.
Proof.
  assert (eliminations (simulate [1; 2] two_teams_two_weeks 2) = <[2 := 2]> (<[1 := 1]> ∅)) as ->
    by by vm_compute.
  intros week rid Hweek Hrid. unfold alive, recorded, two_teams_two_weeks.
  assert (week = 1 ∨ week = 2) as [-> | ->] by lia;
    apply elem_of_cons in Hrid as [-> | Hrid];
    try (apply list_elem_of_singleton in Hrid as ->); simpl; intros Halive.
  - eexists. split; [reflexivity |]. by eexists.
  - eexists. split; [reflexivity |]. by eexists.
  - vm_compute in Halive. done.
  - eexists. split; [reflexivity |]. by eexists.
Qed.

(** C1, as the claim states it, fails: two teams that both have a score
    while alive are both eliminated in two weeks, not min(2, 2 - 1) = 1 of
    them. *)
Lemma C1_last_team_is_chopped :
  scored_while_alive [1; 2] two_teams_two_weeks
    (eliminations (simulate [1; 2] two_teams_two_weeks 2)) 2 ∧
  size (eliminations (simulate [1; 2] two_teams_two_weeks 2)) ≠ (2 `min` (2 - 1))%nat.
Proof. split; [apply two_teams_scored | by vm_compute]. Qed.

(** C1 (amended): when every team has a recorded score in every week in
    which it is alive, the simulation of [current_week] weeks over [N]
    teams records exactly min(current_week, N) eliminations, one chop score
    per elimination (no elimination replaces an earlier one of the same
    team), and no two teams are eliminated in the same week. *)
Theorem C1_elimination_count teams all_scores current_week :
  let st := simulate teams all_scores current_week in
  let N := size (list_to_set teams : gset Z) in
  scored_while_alive teams all_scores (eliminations st) current_week →
  size (eliminations st) = (Z.to_nat current_week `min` N)%nat ∧
  size (chop_scores st) = size (eliminations st) ∧
  (∀ r1 r2 week, eliminations st !! r1 = Some week → eliminations st !! r2 = Some week → r1 = r2) ∧
  (∀ r week, eliminations st !! r = Some week → r ∈ teams ∧ 1 ≤ week ≤ current_week).
Proof.
  intros st N Hrec. pose proof (simulate_inv teams all_scores current_week) as Hinv.
  fold st in Hinv. split_and!.
  - subst st. unfold simulate in *. rewrite range_seqZ in *.
    rewrite (sim_loop_count (list_to_set teams) _ teams); unfold start_of; simpl.
    + by rewrite map_size_empty.
    + done.
    + apply sim_inv_init.
    + intros rid. by rewrite elem_of_list_to_set.
    + intros week rid Hweek. apply Hrec. lia.
  - apply (inv_size _ _ _ Hinv).
  - apply (inv_inj _ _ _ Hinv).
  - intros r week Hr. split.
    + assert (r ∈ (list_to_set teams : gset Z)) as Hin
        by (apply (inv_dom _ _ _ Hinv), elem_of_dom; by eexists).
      by apply elem_of_list_to_set in Hin.
    + pose proof (inv_weeks _ _ _ Hinv _ _ Hr) as Hlt. lia.
Qed.

Lemma C1_elimination_count_witness :
  scored_while_alive [1; 2] two_teams_two_weeks
    (eliminations (simulate [1; 2] two_teams_two_weeks 2)) 2 ∧
  size (eliminations (simulate [1; 2] two_teams_two_weeks 2)) = 2%nat.
Proof.
  split; [apply two_teams_scored |].
  apply (C1_elimination_count [1; 2] two_teams_two_weeks 2 two_teams_scored).
Defined.

(** C2: in a week that is simulated, the eliminated team is an alive team
    with a recorded score; no alive team scored less, and every alive team
    with the same score has a roster id at least as large.  The choice
    depends on the scores and ids only: scanning the alive teams in any
    other order names the same team. *)
Theorem C2_tie_break_lowest_roster_id all_scores week st st' :
  sim_week all_scores week st = Some st' →
  ∃ sc chopped s,
    all_scores !! week = Some sc ∧
    chopped ∈ remaining_teams st ∧ sc !! chopped = Some s ∧
    eliminations st' = <[chopped := week]> (eliminations st) ∧
    remaining_teams st' = remaining_teams st ∖ {[chopped]} ∧
    (∀ r s', r ∈ remaining_teams st → sc !! r = Some s' →
       (s <= s')%Q ∧ ((s' == s)%Q → chopped ≤ r)) ∧
    (∀ order, order ≡ₚ elements (remaining_teams st) →
       chopped_team (week_scores_of sc order) = Some chopped).
Proof.
  intros H. apply sim_week_Some in H as (sc & c & s & m & Hsc & Hc & Hs & Hmin & Hm & Hch & ->).
  exists sc, c, s. simpl. split_and!; try done.
  - intros r s' Hr Hs'. destruct (Hmin _ _ Hr Hs') as [H1 H2]. split; [done |].
    intros E. apply H2. by symmetry.
  - intros order Hp. eapply chopped_team_order; [| exact Hch].
    unfold week_scores_of. by rewrite Hp.
Qed.

Lemma C2_tie_break_witness :
  sim_week tied_week 1 (start_of [1; 2; 3]) = Some after_tied_week ∧
  ∃ sc chopped s,
    tied_week !! 1 = Some sc ∧
    chopped ∈ remaining_teams (start_of [1; 2; 3]) ∧ sc !! chopped = Some s ∧
    eliminations after_tied_week = <[chopped := 1]> (eliminations (start_of [1; 2; 3])) ∧
    remaining_teams after_tied_week = remaining_teams (start_of [1; 2; 3]) ∖ {[chopped]} ∧
    (∀ r s', r ∈ remaining_teams (start_of [1; 2; 3]) → sc !! r = Some s' →
       (s <= s')%Q ∧ ((s' == s)%Q → chopped ≤ r)) ∧
    (∀ order, order ≡ₚ elements (remaining_teams (start_of [1; 2; 3])) →
       chopped_team (week_scores_of sc order) = Some chopped).
Proof.
  split; [by vm_compute |].
  apply (C2_tie_break_lowest_roster_id tied_week 1 (start_of [1; 2; 3]) after_tied_week).
  by vm_compute.
Defined.

(** ** Finish positions *)

Lemma NoDup_option_list (l : list (option Z)) :
  (length (filter (λ o, o = None) l) ≤ 1)%nat → NoDup (omap id l) → NoDup l.
Proof.
  induction l as [| [w |] l IH]; intros Hlen Hnd.
  - constructor.
  - rewrite filter_cons_False in Hlen by done. simpl in Hnd.
    apply NoDup_cons in Hnd as [Hw Hnd]. apply NoDup_cons. split; [| by apply IH].
    intros Hin. apply Hw, list_elem_of_omap. by exists (Some w).
  - rewrite filter_cons_True in Hlen by done. simpl in *.
    apply NoDup_cons. split; [| apply IH; [lia | done]].
    intros Hin. assert (None ∈ filter (λ o : option Z, o = None) l) as Hin'
      by by apply list_elem_of_filter.
    destruct (filter _ l); [by apply not_elem_of_nil in Hin' | simpl in Hlen; lia].
Qed.

Lemma filter_fmap_length {A B} (f : A → B) (P : B → Prop) `{∀ x, Decision (P x)} (l : list A) :
  length (filter P (f <$> l)) = length (filter (λ x, P (f x)) l).
Proof.
  induction l as [| x l IH]; [done |]. rewrite fmap_cons.
  destruct (decide (P (f x))).
  - rewrite !filter_cons_True by done. simpl. by rewrite IH.
  - rewrite !filter_cons_False by done. done.
Qed.

Lemma omap_fmap_id {A B} (f : A → option B) (l : list A) : omap id (f <$> l) = omap f l.
Proof. apply list_omap_ext, Forall2_fmap_l, Forall_Forall2_diag, Forall_forall. done. Qed.

Lemma finish_positions_of managers :
  finish_position <$> assign_finish_positions managers =
    (λ m, Some (position_of (Z.of_nat (length managers)) (chop_week m))) <$> managers.
Proof. unfold assign_finish_positions. rewrite <- list_fmap_compose. done. Qed.

(** C3: after a complete season of [N] managers, step 10 gives position 1
    to the survivor and [N - W + 1] to the manager chopped in week [W], and
    the positions given are exactly 1, ..., N, each once. *)
Theorem C3_finish_position_bijection managers :
  complete_season managers →
  let N := Z.of_nat (length managers) in
  Forall2 (λ m m', finish_position m' =
                     Some (match chop_week m with None => 1 | Some W => N - W + 1 end))
    managers (assign_finish_positions managers) ∧
  omap finish_position (assign_finish_positions managers) ≡ₚ seqZ 1 N.
Proof.
  intros [Hone Hrange Hdist] N. split.
  { unfold assign_finish_positions. apply Forall2_fmap_r, Forall_Forall2_diag, Forall_forall.
    by intros m _. }
  rewrite <- omap_fmap_id, finish_positions_of.
  rewrite (list_fmap_compose chop_week (λ c, Some (position_of N c))), omap_fmap_id.
  rewrite <- (list_fmap_alt (position_of N)).
  assert (NoDup (chop_week <$> managers)) as Hnd.
  { apply NoDup_option_list.
    - rewrite (filter_fmap_length chop_week (λ o, o = None)). by rewrite Hone.
    - by rewrite omap_fmap_id. }
  assert (∀ c, c ∈ chop_week <$> managers → ∀ w, c = Some w → 1 ≤ w ≤ N - 1) as Hin.
  { intros c Hc w ->. apply list_elem_of_fmap in Hc as (m & Hm & Hc).
    rewrite Forall_forall in Hrange. by apply (Hrange m). }
  apply submseteq_length_Permutation.
  - apply NoDup_submseteq.
    + apply NoDup_fmap_2_strong; [| done].
      intros [w1 |] [w2 |] H1 H2; simpl; intros Heq;
        try pose proof (Hin _ H1 _ eq_refl); try pose proof (Hin _ H2 _ eq_refl);
        try done; try (f_equal; lia); lia.
    + intros p Hp. apply list_elem_of_fmap in Hp as (c & -> & Hc).
      apply elem_of_seqZ. destruct c as [w |]; simpl.
      * pose proof (Hin _ Hc _ eq_refl). lia.
      * destruct managers; [done | simpl in *; lia].
  - rewrite length_seqZ, !length_fmap. lia.
Qed.

Lemma C3_finish_position_witness :
  complete_season three_managers ∧
  omap finish_position (assign_finish_positions three_managers) ≡ₚ seqZ 1 3.
Proof.
  assert (complete_season three_managers) as H.
  { split.
    - reflexivity.
    - unfold three_managers.
      repeat (apply Forall_cons; split; [intros w Hw; simplify_eq/=; lia |]).
      by apply Forall_nil.
    - simpl. apply NoDup_cons. split; [set_solver |]. apply NoDup_singleton. }
  split; [exact H |]. apply (C3_finish_position_bijection three_managers H).
Defined.

(** ** The records returned by the pipeline *)

Lemma insert_sorted_Permutation {A K} (key : A → K) lt reverse x l :
  Py.insert_sorted key lt reverse x l ≡ₚ x :: l.
Proof.
  induction l as [| y l IH]; simpl; [done |].
  destruct (Py.precedes key lt reverse y x); [| done].
  rewrite IH. apply Permutation_swap.
Qed.

Lemma sorted_Permutation {A K} (key : A → K) lt reverse l :
  Py.sorted key lt reverse l ≡ₚ l.
Proof.
  induction l as [| x l IH]; simpl; [done |].
  by rewrite insert_sorted_Permutation, IH.
Qed.

Lemma foldl_insert_lookup `{Countable K} {A V} (f : A → K) (g : A → V) l (d0 : gmap K V) k :
  k ∈ l → (∀ k', k' ∈ l → f k' = f k → g k' = g k) →
  foldl (λ d a, <[f a := g a]> d) d0 l !! f k = Some (g k).
Proof.
  induction l as [| a l IH] using rev_ind; intros Hk Hinj.
  - by apply not_elem_of_nil in Hk.
  - rewrite foldl_app. simpl. rewrite lookup_insert. case_decide as Ha.
    + f_equal. apply Hinj; [| done]. apply elem_of_app. right. left.
    + apply IH.
      * apply elem_of_app in Hk as [Hk | Hk]; [done |].
        apply list_elem_of_singleton in Hk. by subst.
      * intros k' Hk'. apply Hinj, elem_of_app. by left.
Qed.

Lemma foldl_insert_dom `{Countable K} {A V} (f : A → K) (g : A → V) l (d0 : gmap K V) :
  dom (foldl (λ d a, <[f a := g a]> d) d0 l) = dom d0 ∪ list_to_set (f <$> l).
Proof.
  revert d0. induction l as [| a l IH]; intros d0; simpl.
  - set_solver.
  - rewrite IH, dom_insert_L. set_solver.
Qed.

Lemma faab_remaining_of_lookup teams eliminations spent rid :
  rid ∈ teams →
  faab_remaining_of teams eliminations spent !! rid = Some (remaining_of eliminations spent rid).
Proof.
  intros Hrid. unfold faab_remaining_of.
  apply (foldl_insert_lookup id (remaining_of eliminations spent)); [done |].
  intros k' _ Hk. unfold id in Hk. by subst.
Qed.

(** Every returned record is the record built for a roster, with its
    finish position added. *)
Lemma process_season_data_managers inp current_week d m :
  process_season_data inp current_week = Some d → m ∈ out_managers d →
  ∃ r m0, r ∈ roster_of inp ∧ built_manager inp current_week r = Some m0 ∧
          m = with_finish_position (Z.of_nat (length (roster_of inp))) m0.
Proof.
  unfold process_season_data. intros H Hm.
  apply bind_Some in H as (stats & _ & H). apply bind_Some in H as (built & Hbuilt & H).
  injection H as <-. simpl in Hm. unfold assign_finish_positions in Hm.
  apply list_elem_of_fmap in Hm as (m0 & -> & Hm0).
  rewrite (Permutation_length (sorted_Permutation display_key display_lt false built)).
  rewrite sorted_Permutation in Hm0.
  apply mapM_Some in Hbuilt. rewrite <- (Forall2_length _ _ _ Hbuilt).
  apply list_elem_of_lookup in Hm0 as [i Hi].
  destruct (Forall2_lookup_r _ _ _ _ _ Hbuilt Hi) as (r & Hr & Hb).
  exists r, m0. split_and!; [| done | done].
  apply list_elem_of_lookup. by exists i.
Qed.

Lemma built_manager_fields inp current_week r m0 :
  built_manager inp current_week r = Some m0 →
  user_name m0 = r.2 ∧ roster_id m0 = r.1 ∧
  chop_week m0 = eliminations (sim_of inp current_week) !! r.1 ∧
  faab_spent m0 = Py.get_or (spent_of inp current_week) r.1 0 ∧
  faab_remaining m0 =
    Py.get_or (faab_remaining_of (teams_of inp) (eliminations (sim_of inp current_week))
                 (spent_of inp current_week)) r.1 0 ∧
  weekly_scores m0 =
    weekly_scores_dict (scores_of inp current_week) current_week
      (eliminations (sim_of inp current_week) !! r.1) r.1 ∧
  average_position (season_positions (teams_of inp) (scores_of inp current_week)
                      (sim_of inp current_week) current_week r.1).1
    = Some (avg_pos_above_chop m0) ∧
  close_calls m0 = (season_positions (teams_of inp) (scores_of inp current_week)
                      (sim_of inp current_week) current_week r.1).2.
Proof.
  unfold built_manager, build_manager. intros H.
  apply bind_Some in H as (avg & Havg & H). injection H as <-. simpl.
  split_and!; done.
Qed.

(** ** Remaining budget *)

(** C5 (amended): the remaining budget reported for a team is
    [STARTING_FAAB - spent] when the team has not been eliminated and 0
    when it has; the script [fix_faab_remaining] then sets it to
    [STARTING_FAAB - faab_spent] for every record, eliminated or not. *)
Theorem C5_faab_remaining inp current_week d m :
  process_season_data inp current_week = Some d → m ∈ out_managers d →
  faab_remaining m =
    (match chop_week m with Some _ => 0 | None => STARTING_FAAB - faab_spent m end) ∧
  faab_remaining (fix_faab_remaining m) = STARTING_FAAB - faab_spent m.
Proof.
  intros Hd Hm. split.
  - destruct (process_season_data_managers _ _ _ _ Hd Hm) as (r & m0 & Hr & Hb & ->).
    apply built_manager_fields in Hb as (_ & _ & Hchop & Hspent & Hrem & _). simpl.
    rewrite Hrem, Hchop, Hspent. unfold Py.get_or at 1.
    rewrite faab_remaining_of_lookup by (apply list_elem_of_fmap; by exists r).
    simpl. unfold remaining_of. case_decide as Hel.
    + by destruct Hel as [w ->].
    + destruct (eliminations _ !! r.1) as [w |]; [| done]. exfalso. by apply Hel.
  - unfold fix_faab_remaining. case_decide as Hne; simpl; [done |].
    destruct (decide (faab_remaining m = STARTING_FAAB - faab_spent m)); done.
Qed.


(** ** The weekly scores of a record *)

Lemma str_weeks_NoDup : NoDup (Py.str <$> Py.range 1 18).
Proof. apply (bool_decide_unpack _). by vm_compute. Qed.

Lemma str_week_inj week week' :
  week ∈ Py.range 1 18 → week' ∈ Py.range 1 18 → Py.str week' = Py.str week → week' = week.
Proof.
  intros H H' Heq. apply list_elem_of_lookup in H as [i Hi]. apply list_elem_of_lookup in H' as [j Hj].
  assert (i = j) as ->.
  { eapply NoDup_lookup; [apply str_weeks_NoDup | |].
    - rewrite list_lookup_fmap, Hi. reflexivity.
    - rewrite list_lookup_fmap, Hj. simpl. by rewrite Heq. }
  congruence.
Qed.

Lemma weekly_scores_dict_lookup all_scores current_week chop rid week :
  1 ≤ week ≤ 17 →
  weekly_scores_dict all_scores current_week chop rid !! Py.str week =
    Some (shown_score all_scores current_week chop rid week).
Proof.
  intros Hweek. unfold weekly_scores_dict.
  assert (week ∈ Py.range 1 18) as Hin by (apply elem_of_seqZ; lia).
  apply (foldl_insert_lookup Py.str (shown_score all_scores current_week chop rid)); [done |].
  intros week' Hin' Heq. f_equal. by apply str_week_inj.
Qed.

Lemma weekly_scores_dict_dom all_scores current_week chop rid :
  dom (weekly_scores_dict all_scores current_week chop rid) = list_to_set (Py.str <$> seqZ 1 17).
Proof. unfold weekly_scores_dict. rewrite foldl_insert_dom, dom_empty_L. set_solver. Qed.

(** C10: the [weekly_scores] of every returned record has exactly the keys
    "1" to "17".  Under a week that is played ([week <= current_week]) and
    not after the team's chop week it holds the team's recorded score of
    that week; under every week after the chop week and every week after
    the current week it holds null. *)
Theorem C10_weekly_scores inp current_week d m :
  process_season_data inp current_week = Some d → m ∈ out_managers d →
  dom (weekly_scores m) = list_to_set (Py.str <$> seqZ 1 17) ∧
  ∀ week, 1 ≤ week ≤ 17 →
    (week ≤ current_week → (∀ w, chop_week m = Some w → week ≤ w) →
       weekly_scores m !! Py.str week =
         Some (default ∅ (scores_of inp current_week !! week) !! roster_id m)) ∧
    (∀ w, chop_week m = Some w → w < week → weekly_scores m !! Py.str week = Some None) ∧
    (current_week < week → weekly_scores m !! Py.str week = Some None).
Proof.
  intros Hd Hm.
  destruct (process_season_data_managers _ _ _ _ Hd Hm) as (r & m0 & Hr & Hb & ->).
  apply built_manager_fields in Hb as (_ & Hrid & Hchop & _ & _ & Hws & _). simpl.
  rewrite Hws, Hrid, Hchop. split; [apply weekly_scores_dict_dom |].
  intros week Hweek. rewrite weekly_scores_dict_lookup by done. unfold shown_score.
  split_and!.
  - intros Hcw Halive. rewrite decide_True by done.
    destruct (eliminations _ !! r.1) as [w |]; [| done].
    rewrite decide_True; [done |]. by apply Halive.
  - intros w -> Hw. case_decide; [| done]. rewrite decide_False; [done | lia].
  - intros Hcw. rewrite decide_False; [done | lia].
Qed.


(** ** Sorting *)

Section sorted.
Context {A K : Type} (key : A → K) (lt : K → K → bool) (reverse : bool) (R : relation A).
Hypothesis precedes_R : ∀ y x, Py.precedes key lt reverse y x = true → R y x.
Hypothesis not_precedes_R : ∀ y x, Py.precedes key lt reverse y x = false → R x y.
Hypothesis R_trans : Transitive R.

Lemma insert_sorted_StronglySorted x l :
  StronglySorted R l → StronglySorted R (Py.insert_sorted key lt reverse x l).
Proof using precedes_R not_precedes_R R_trans.
  induction 1 as [| y l Hl IH Hy]; simpl.
  - repeat constructor.
  - destruct (Py.precedes key lt reverse y x) eqn:E.
    + constructor; [done |].
      rewrite Forall_forall. intros z Hz.
      rewrite insert_sorted_Permutation in Hz. apply elem_of_cons in Hz as [-> | Hz].
      * by apply precedes_R.
      * rewrite Forall_forall in Hy. by apply Hy.
    + apply not_precedes_R in E. constructor; [by constructor |].
      constructor; [done |]. eapply Forall_impl; [exact Hy |].
      intros z Hz. by etrans.
Qed.

Lemma sorted_StronglySorted l : StronglySorted R (Py.sorted key lt reverse l).
Proof using precedes_R not_precedes_R R_trans.
  induction l as [| x l IH]; simpl; [constructor |].
  by apply insert_sorted_StronglySorted.
Qed.
End sorted.

Lemma sorted_length {A K} (key : A → K) lt reverse l :
  length (Py.sorted key lt reverse l) = length l.
Proof. apply Permutation_length, sorted_Permutation. Qed.

(** [sorted(scores)] is in ascending order. *)
Lemma sorted_scores_ascending (scores : list Q) :
  StronglySorted Qle (Py.sorted id Py.num_lt false scores).
Proof.
  apply sorted_StronglySorted.
  - intros y x H. simpl in H. apply num_lt_spec in H. by apply Qlt_le_weak.
  - intros y x H. simpl in H. by apply num_lt_false in H.
  - intros a b c. apply Qle_trans.
Qed.

(** A list sorted with [reverse=True] on its scores is in descending
    order. *)
Lemma ranked_descending {I} (l : list (I * Q)) :
  StronglySorted score_ge (Py.sorted snd Py.num_lt true l).
Proof.
  apply sorted_StronglySorted.
  - intros y x H. simpl in H. apply num_lt_spec in H. by apply Qlt_le_weak.
  - intros y x H. simpl in H. by apply num_lt_false in H.
  - intros a b c. unfold score_ge. intros H1 H2. by eapply Qle_trans.
Qed.

Lemma StronglySorted_lookup_lt {A} (R : relation A) l i j x y :
  StronglySorted R l → l !! i = Some x → l !! j = Some y → (i < j)%nat → R x y.
Proof.
  intros Hs. revert i j. induction Hs as [| z l Hs IH Hz]; intros i j Hi Hj Hlt.
  - by rewrite lookup_nil in Hi.
  - destruct j as [| j]; [lia |]. simpl in Hj. destruct i as [| i].
    + simpl in Hi. simplify_eq. rewrite Forall_forall in Hz.
      by eapply Hz, list_elem_of_lookup_2.
    + simpl in Hi. eapply IH; [done | done | lia].
Qed.

(** The first element of a sorted list that satisfies [P] is related to
    every element that satisfies [P]. *)
Lemma list_find_sorted {A} (R : relation A) (P : A → Prop) `{∀ x, Decision (P x)} l i x :
  (∀ a, R a a) → StronglySorted R l → list_find P l = Some (i, x) →
  x ∈ l ∧ P x ∧ ∀ y, y ∈ l → P y → R x y.
Proof.
  intros Hrefl Hs Hf. apply list_find_Some in Hf as (Hi & HP & Hbefore).
  split; [by eapply list_elem_of_lookup_2 |]. split; [done |].
  intros y Hy HPy. apply list_elem_of_lookup in Hy as [j Hj].
  destruct (decide (i = j)) as [-> | Hne]; [simplify_eq; apply Hrefl |].
  destruct (decide (j < i)%nat) as [Hlt | Hge]; [by destruct (Hbefore _ _ Hj Hlt) |].
  eapply StronglySorted_lookup_lt; [done | done | done | lia].
Qed.

(** ** Weekly statistics *)

Lemma max_by_spec (scores : list Q) high :
  Py.max_by id Py.num_lt scores = Some high →
  high ∈ scores ∧ ∀ x, x ∈ scores → (x <= high)%Q.
Proof.
  intros H. change (Py.min_by id (flip Py.num_lt) scores = Some high) in H.
  apply min_by_spec in H as [Hin Hmax].
  - split; [done |]. intros x Hx. by apply num_lt_false, (Hmax x).
  - intros a. apply num_lt_irrefl.
  - intros a b c H1 H2. unfold flip in *. by eapply num_lt_trans.
Qed.

Lemma min_by_scores_spec (scores : list Q) low :
  Py.min_by id Py.num_lt scores = Some low →
  low ∈ scores ∧ ∀ x, x ∈ scores → (low <= x)%Q.
Proof.
  intros H. apply (min_by_spec _ _ num_lt_irrefl num_lt_trans) in H as [Hin Hmin].
  split; [done |]. intros x Hx. by apply num_lt_false, (Hmin x).
Qed.

Lemma median_is_Some scores : scores ≠ [] → is_Some (Py.median scores).
Proof.
  intros Hne. unfold Py.median. rewrite sorted_length.
  rewrite decide_False by (destruct scores; [done | simpl; lia]).
  case_decide; by eexists.
Qed.

Lemma quantile_cut_interpolated data ld i :
  4 ≤ ld → 1 ≤ i ≤ 3 → Py.quantile_cut data ld i = interpolated data ld i.
Proof.
  intros Hld Hi. unfold Py.quantile_cut, interpolated, cut_index, cut_delta.
  assert (1 ≤ i * (ld + 1) / 4 ≤ ld - 1) as Hj.
  { split.
    - apply Z.div_le_lower_bound; nia.
    - apply Z.lt_succ_r, Z.div_lt_upper_bound; nia. }
  rewrite decide_False by lia. rewrite decide_False by lia.
  replace ((i * (ld + 1)) `mod` 4) with (i * (ld + 1) - i * (ld + 1) / 4 * 4)
    by (rewrite Z.mod_eq by lia; ring).
  reflexivity.
Qed.

Lemma quantiles_lookup scores :
  (4 ≤ length scores)%nat →
  Py.quantiles scores ≫= (λ q, q !! 0%nat) =
    Some (interpolated (Py.sorted id Py.num_lt false scores) (Z.of_nat (length scores)) 1) ∧
  Py.quantiles scores ≫= (λ q, q !! 2%nat) =
    Some (interpolated (Py.sorted id Py.num_lt false scores) (Z.of_nat (length scores)) 3).
Proof.
  intros Hn. unfold Py.quantiles. rewrite sorted_length.
  rewrite decide_False by lia. simpl.
  rewrite !quantile_cut_interpolated by lia. done.
Qed.

Lemma item_lookup data i x : data !! i = Some x → Py.item data (Z.of_nat i) = x.
Proof. unfold Py.item. rewrite Nat2Z.id. by intros ->. Qed.





Example weekly_statistics_of_five :
  stats_of [10; 20; 30; 40; 50]%Q =
    Some {| high_score := Some 50%Q; percentile_75 := Some (180 # 4)%Q; median := Some 30%Q;
            percentile_25 := Some (60 # 4)%Q; chop_score := Some 10%Q;
            chop_differential := Some (1000 # 100)%Q |}.
Proof. reflexivity. Qed.

(** ** Wasted budget *)

Lemma claims_descending bids : StronglySorted bid_ge (Py.sorted claim_bid Z.ltb true bids).
Proof.
  apply sorted_StronglySorted.
  - intros y x H. simpl in H. apply Z.ltb_lt in H. unfold bid_ge. lia.
  - intros y x H. simpl in H. apply Z.ltb_ge in H. done.
  - intros a b c. unfold bid_ge. lia.
Qed.

Lemma bid_ge_refl c : bid_ge c c.
Proof. unfold bid_ge. lia. Qed.

Lemma winning_claim_spec bids :
  (∃ c, c ∈ bids ∧ claim_status c = Some "complete"%string) →
  ∃ w r, winning_claim (Py.sorted claim_bid Z.ltb true bids) = Some (w, r) ∧ wins bids w r.
Proof.
  intros (c & Hc & Hst).
  rewrite <- (sorted_Permutation claim_bid Z.ltb true bids) in Hc.
  destruct (list_find_elem_of (λ c, claim_status c = Some "complete"%string) _ c Hc Hst)
    as [[i x] Hf].
  unfold winning_claim. rewrite Hf. simpl. eexists _, _. split; [done |].
  apply (list_find_sorted bid_ge) in Hf as (Hx & Hxs & Hmax); [| apply bid_ge_refl | apply claims_descending].
  exists x. rewrite sorted_Permutation in Hx. split_and!; try done.
  intros c' Hc' Hst'. apply Hmax; [| done]. by rewrite sorted_Permutation.
Qed.

Lemma second_bid_of_spec bids r :
  highest_other_bid bids r (second_bid_of (Py.sorted claim_bid Z.ltb true bids) r).
Proof.
  unfold second_bid_of.
  destruct (list_find _ _) as [[i x] |] eqn:Hf; simpl.
  - left. apply (list_find_sorted bid_ge) in Hf as (Hx & Hxr & Hmax); [| apply bid_ge_refl | apply claims_descending].
    exists x. rewrite sorted_Permutation in Hx. split_and!; try done.
    intros c' Hc' Hr'. apply Hmax; [| done]. by rewrite sorted_Permutation.
  - right. split; [| done]. apply list_find_None in Hf. rewrite Forall_forall in Hf.
    intros c Hc. rewrite <- (sorted_Permutation claim_bid Z.ltb true bids) in Hc.
    specialize (Hf c Hc). simpl in Hf. by destruct (decide (claim_roster c = r)).
Qed.

(** C4 (amended): for the claims on a player that hold a completed claim,
    the pass charges the roster of the highest completed bid with
    max(0, winning bid - second - 1), where second is the highest bid of
    another roster and 0 when there is none, provided the player has at
    least two claims (and the roster id is not 0); the winner of the only
    claim on a player is charged nothing. *)
Theorem C4_wasted_on_contested_player faab_wasted bids :
  (∃ c, c ∈ bids ∧ claim_status c = Some "complete"%string) →
  ∃ winning_bid winning_roster second,
    wins bids winning_bid winning_roster ∧
    highest_other_bid bids winning_roster second ∧
    ((1 < length bids)%nat → winning_roster ≠ 0 →
       charge_waste faab_wasted bids =
         <[winning_roster := Py.get_or faab_wasted winning_roster 0
                             + Z.max 0 (winning_bid - second - 1)]> faab_wasted) ∧
    ((length bids ≤ 1)%nat → charge_waste faab_wasted bids = faab_wasted).
Proof.
  intros Hc. destruct (winning_claim_spec bids Hc) as (w & r & Hw & Hwins).
  exists w, r, (second_bid_of (Py.sorted claim_bid Z.ltb true bids) r).
  split; [done |]. split; [apply second_bid_of_spec |].
  unfold charge_waste, player_waste. rewrite Hw, sorted_length. split.
  - intros Hlen Hr. rewrite decide_True by done. by rewrite decide_True by done.
  - intros Hlen. by rewrite decide_False by lia.
Qed.

Lemma C4_wasted_witness :
  (∃ c, c ∈ contested_claims ∧ claim_status c = Some "complete"%string) ∧
  ∃ winning_bid winning_roster second,
    wins contested_claims winning_bid winning_roster ∧
    highest_other_bid contested_claims winning_roster second ∧
    ((1 < length contested_claims)%nat → winning_roster ≠ 0 →
       charge_waste (zeros [1; 2; 3]) contested_claims =
         <[winning_roster := Py.get_or (zeros [1; 2; 3]) winning_roster 0
                             + Z.max 0 (winning_bid - second - 1)]> (zeros [1; 2; 3])) ∧
    ((length contested_claims ≤ 1)%nat →
       charge_waste (zeros [1; 2; 3]) contested_claims = zeros [1; 2; 3]).
Proof.
  assert (∃ c, c ∈ contested_claims ∧ claim_status c = Some "complete"%string) as H.
  { exists (1, 50, Some "complete"%string). split; [left | done]. }
  split; [exact H |]. exact (C4_wasted_on_contested_player (zeros [1; 2; 3]) contested_claims H).
Defined.

Example contested_player_wastes_19 :
  charge_waste (zeros [1; 2; 3]) contested_claims !! 1 = Some 19.
Proof. by vm_compute. Qed.

(** ** Chop scores of the simulated weeks *)

Lemma sim_loop_chop_mono (teams : gset Z) all_scores n lo st :
  1 ≤ lo → sim_inv teams st lo →
  chop_scores st ⊆ chop_scores (sim_loop all_scores (seqZ lo (Z.of_nat n)) st).
Proof.
  revert lo st. induction n as [| n IH]; intros lo st Hlo Hinv; [done |].
  rewrite seqZ_cons by lia. cbn [sim_loop].
  replace (Z.pred (Z.of_nat (S n))) with (Z.of_nat n) by lia.
  destruct (sim_week all_scores lo st) as [st' |] eqn:E; [| done].
  destruct (sim_week_inv _ _ _ _ _ Hlo Hinv E) as (Hinv' & _).
  etrans; [| apply (IH (Z.succ lo)); [lia | by rewrite <- Z.add_1_r]].
  apply sim_week_Some in E as (sc & c & s & m & _ & _ & _ & _ & _ & _ & ->). simpl.
  apply insert_subseteq, eq_None_not_Some. rewrite (inv_chops _ _ _ Hinv).
  intros [r Hr]. pose proof (inv_weeks _ _ _ Hinv _ _ Hr). lia.
Qed.

(** The chop score recorded for a week is the score of the team eliminated
    in it, and no team alive in that week scored less. *)
Lemma sim_loop_chop_score (teams : gset Z) all_scores n lo st w c :
  1 ≤ lo → sim_inv teams st lo → lo ≤ w →
  chop_scores (sim_loop all_scores (seqZ lo (Z.of_nat n)) st) !! w = Some c →
  ∃ sc ch s,
    all_scores !! w = Some sc ∧
    eliminations (sim_loop all_scores (seqZ lo (Z.of_nat n)) st) !! ch = Some w ∧
    ch ∈ teams ∧ sc !! ch = Some s ∧ (c == s)%Q ∧
    ∀ r s', r ∈ teams →
      alive (eliminations (sim_loop all_scores (seqZ lo (Z.of_nat n)) st)) w r →
      sc !! r = Some s' → (s <= s')%Q ∧ ((s == s')%Q → ch ≤ r).
Proof.
  revert lo st. induction n as [| n IH]; intros lo st Hlo Hinv Hw.
  - simpl. intros Hc. exfalso.
    destruct (proj1 (inv_chops _ _ _ Hinv w)) as [r Hr]; [by eexists |].
    pose proof (inv_weeks _ _ _ Hinv _ _ Hr). lia.
  - rewrite seqZ_cons by lia. cbn [sim_loop].
    replace (Z.pred (Z.of_nat (S n))) with (Z.of_nat n) by lia.
    destruct (sim_week all_scores lo st) as [st' |] eqn:E.
    + destruct (sim_week_inv _ _ _ _ _ Hlo Hinv E) as (Hinv' & Hsub & _).
      destruct (decide (w = lo)) as [-> | Hne].
      * destruct (sim_loop_inv teams all_scores n (Z.succ lo) st') as [_ Hsubf];
          [lia | by rewrite <- Z.add_1_r |].
        assert (chop_scores st' ⊆
                  chop_scores (sim_loop all_scores (seqZ (Z.succ lo) (Z.of_nat n)) st')) as Hsubc
          by (apply (sim_loop_chop_mono teams); [lia | by rewrite <- Z.add_1_r]).
        apply sim_week_Some in E as (sc & ch & s & m & Hsc & Hch & Hs & Hmin & Hm & _ & ->).
        simpl in *. intros Hc.
        assert (c = m) as ->.
        { eapply lookup_weaken in Hsubc; [| apply lookup_insert_eq]. congruence. }
        exists sc, ch, s. split_and!; try done.
        -- eapply lookup_weaken; [apply lookup_insert_eq | done].
        -- rewrite (inv_remaining _ _ _ Hinv) in Hch. set_solver.
        -- intros r s' Hr Halive Hs'. apply Hmin; [| done].
           rewrite (inv_remaining _ _ _ Hinv). apply elem_of_difference. split; [done |].
           intros Hdom. apply elem_of_dom in Hdom as [w' Hw'].
           pose proof (inv_weeks _ _ _ Hinv _ _ Hw').
           assert (eliminations (sim_loop all_scores (seqZ (Z.succ lo) (Z.of_nat n))
                     {| remaining_teams := remaining_teams st ∖ {[ch]};
                        eliminations := <[ch := lo]> (eliminations st);
                        chop_scores := <[lo := m]> (chop_scores st) |}) !! r = Some w') as Hfin.
           { eapply lookup_weaken; [| exact Hsubf]. eapply lookup_weaken; [exact Hw' | exact Hsub]. }
           unfold alive in Halive. rewrite Hfin in Halive. lia.
      * apply (IH (Z.succ lo)); [lia | by rewrite <- Z.add_1_r | lia].
    + intros Hc. exfalso.
      destruct (proj1 (inv_chops _ _ _ Hinv w)) as [r Hr]; [by eexists |].
      pose proof (inv_weeks _ _ _ Hinv _ _ Hr). lia.
Qed.

Lemma simulate_chop_score teams all_scores current_week w c :
  chop_scores (simulate teams all_scores current_week) !! w = Some c →
  ∃ sc ch s,
    all_scores !! w = Some sc ∧
    eliminations (simulate teams all_scores current_week) !! ch = Some w ∧
    ch ∈ teams ∧ sc !! ch = Some s ∧ (c == s)%Q ∧
    ∀ r s', r ∈ teams → alive (eliminations (simulate teams all_scores current_week)) w r →
      sc !! r = Some s' → (s <= s')%Q ∧ ((s == s')%Q → ch ≤ r).
Proof.
  intros Hc. pose proof (simulate_inv teams all_scores current_week) as Hinv.
  assert (1 ≤ w) as Hw.
  { destruct (proj1 (inv_chops _ _ _ Hinv w)) as [r Hr]; [by eexists |].
    pose proof (inv_weeks _ _ _ Hinv _ _ Hr). lia. }
  revert Hc. unfold simulate. rewrite range_seqZ. intros Hc.
  destruct (sim_loop_chop_score (list_to_set teams) all_scores (Z.to_nat current_week) 1
              (start_of teams) w c)
    as (sc & ch & s & Hsc & Hch & Hin & Hs & Heq & Hmin); try done.
  { apply sim_inv_init. }
  exists sc, ch, s. split_and!; try done.
  - by apply elem_of_list_to_set in Hin.
  - intros r s' Hr. apply Hmin. by apply elem_of_list_to_set.
Qed.

(** ** Ranking: positions above the chop and close calls *)

Lemma rank_from_Some {I B} `{EqDecision I} (who : I) (l : list (I * B)) i rank :
  Py.rank_from who l i = Some rank →
  (∃ b, (who, b) ∈ l) ∧ i < rank ≤ i + Z.of_nat (length l).
Proof.
  revert i. induction l as [| [x b] l IH]; intros i; simpl; [done |].
  case_decide as Hx.
  - intros [= <-]. subst x. split; [exists b; left | lia].
  - intros H. apply IH in H as [[b' Hb'] Hr]. split; [exists b'; by right | lia].
Qed.


Lemma elem_of_ranked_scores teams eliminations sc week rid s :
  (rid, s) ∈ ranked_scores teams eliminations sc week ↔
    rid ∈ teams ∧ alive eliminations week rid ∧ sc !! rid = Some s.
Proof.
  unfold ranked_scores. rewrite sorted_Permutation, elem_of_week_scores_of, list_elem_of_filter.
  tauto.
Qed.

Lemma week_position_Some teams all_scores st rid week pos flag :
  week_position teams all_scores st rid week = Some (pos, flag) →
  ∃ sc my_score rank,
    all_scores !! week = Some sc ∧ sc !! rid = Some my_score ∧
    rid ∈ teams ∧ alive (eliminations st) week rid ∧
    Py.rank_from rid (ranked_scores teams (eliminations st) sc week) 0 = Some rank ∧
    pos = Z.of_nat (length (ranked_scores teams (eliminations st) sc week)) - rank ∧
    0 ≤ pos < Z.of_nat (length (ranked_scores teams (eliminations st) sc week)) ∧
    flag = is_close_call pos (my_score - default 0%Q (chop_scores st !! week)).
Proof.
  unfold week_position. destruct (all_scores !! week) as [sc |]; [| done].
  destruct (ranked_scores _ _ _ _) as [| p ws] eqn:E; [done |]. rewrite <- E.
  destruct (Py.rank_from _ _ _) as [rank |] eqn:Er; [| done]. intros [= <- <-].
  pose proof Er as Er'. apply rank_from_Some in Er' as [[s Hs] Hrank].
  apply elem_of_ranked_scores in Hs as (Hrid & Halive & Hs).
  exists sc, s, rank. rewrite Hs. simpl. split_and!; try done; lia.
Qed.

Lemma season_positions_fold teams all_scores st rid weeks acc :
  foldl (λ acc week,
           match week_position teams all_scores st rid week with
           | None => acc
           | Some (pos, close) => (acc.1 ++ [pos], if close then acc.2 + 1 else acc.2)
           end) acc weeks =
    (acc.1 ++ omap (positions_above_chop teams all_scores st rid) weeks,
     acc.2 + Z.of_nat (length (filter (λ week, flagged teams all_scores st rid week = true) weeks))).
Proof.
  revert acc. induction weeks as [| week weeks IH]; intros [ps n].
  - simpl. by rewrite app_nil_r, Z.add_0_r.
  - cbn [foldl]. rewrite IH, filter_cons.
    change (omap (positions_above_chop teams all_scores st rid) (week :: weeks))
      with (match positions_above_chop teams all_scores st rid week with
            | Some y => y :: omap (positions_above_chop teams all_scores st rid) weeks
            | None => omap (positions_above_chop teams all_scores st rid) weeks
            end).
    assert (positions_above_chop teams all_scores st rid week
              = fst <$> week_position teams all_scores st rid week) as -> by done.
    destruct (week_position teams all_scores st rid week) as [[pos [|]] |] eqn:E;
      cbn [fst snd fmap option_fmap option_map].
    + rewrite decide_True by (unfold flagged; by rewrite E).
      rewrite <- app_assoc, length_cons. f_equal. lia.
    + rewrite decide_False by (unfold flagged; by rewrite E). by rewrite <- app_assoc.
    + rewrite decide_False by (unfold flagged; by rewrite E). done.
Qed.

Lemma season_positions_spec teams all_scores st current_week rid :
  season_positions teams all_scores st current_week rid =
    (omap (positions_above_chop teams all_scores st rid)
       (Py.range 1 (end_week_of (eliminations st !! rid) current_week + 1)),
     Z.of_nat (length (filter (λ week, flagged teams all_scores st rid week = true)
                         (Py.range 1 (end_week_of (eliminations st !! rid) current_week + 1))))).
Proof. unfold season_positions. by rewrite season_positions_fold. Qed.



(** ** The pipeline never raises *)

Lemma average_position_spec positions_above :
  average_position positions_above =
    Some (if decide (positions_above = []) then 0%Q
          else Py.round (inject_Z (Py.sum positions_above)
                         / inject_Z (Z.of_nat (length positions_above))) 1).
Proof.
  unfold average_position. destruct positions_above as [| p l]; [done |].
  rewrite decide_True by done. by rewrite decide_False by done.
Qed.

Lemma stats_of_is_Some scores : scores ≠ [] → is_Some (stats_of scores).
Proof.
  intros Hne.
  destruct (min_by_is_Some id Py.num_lt scores Hne) as [low Hlow].
  destruct (min_by_is_Some id (flip Py.num_lt) scores Hne) as [high Hhigh].
  change (Py.max_by id Py.num_lt scores = Some high) in Hhigh.
  destruct (median_is_Some scores Hne) as [med Hmed].
  unfold stats_of. rewrite Hhigh, Hlow, Hmed. simpl.
  destruct (decide (4 ≤ length scores)%nat) as [H4 | H4]; [| by eexists].
  destruct (quantiles_lookup scores H4) as [Hq1 Hq3]. rewrite Hq1, Hq3. by eexists.
Qed.

Lemma played_stats_is_Some teams all_scores eliminations weeks weekly_stats :
  is_Some (played_stats teams all_scores eliminations weeks weekly_stats).
Proof.
  revert weekly_stats. induction weeks as [| week weeks IH]; intros weekly_stats; simpl.
  - by eexists.
  - destruct (all_scores !! week) as [sc |]; [| apply IH].
    destruct (alive_scores teams eliminations sc week) as [| s scores] eqn:E; [apply IH |].
    destruct (stats_of_is_Some (s :: scores)) as [st Hst]; [done |].
    rewrite Hst. simpl. apply IH.
Qed.

Lemma built_manager_is_Some inp current_week r : is_Some (built_manager inp current_week r).
Proof.
  unfold built_manager, build_manager. rewrite average_position_spec. by eexists.
Qed.

Lemma process_season_data_unfold inp current_week :
  process_season_data inp current_week =
    (weekly_stats ← weekly_stats_of (teams_of inp) (scores_of inp current_week)
                      (eliminations (sim_of inp current_week)) current_week;
     managers ← mapM (built_manager inp current_week) (roster_of inp);
     Some {| out_current_week := current_week;
             out_starting_faab := STARTING_FAAB;
             out_champion :=
               match in_winner_roster_id inp with
               | Some w => if decide (w = 0) then None else Py.getitem w (roster_of inp)
               | None => None
               end;
             out_managers :=
               assign_finish_positions (Py.sorted display_key display_lt false managers);
             out_weekly_stats := weekly_stats |}).
Proof. reflexivity. Qed.

Lemma process_season_data_is_Some inp current_week :
  is_Some (process_season_data inp current_week).
Proof.
  rewrite process_season_data_unfold. unfold weekly_stats_of.
  destruct (played_stats_is_Some (teams_of inp) (scores_of inp current_week)
              (eliminations (sim_of inp current_week))
              (Py.range 1 (current_week + 1)) []) as [played ->].
  simpl.
  destruct (mapM_is_Some_2 (built_manager inp current_week) (roster_of inp)) as [built ->].
  { apply Forall_forall. intros r _. apply built_manager_is_Some. }
  by eexists.
Qed.

Lemma sim_of_chop_week_pos inp current_week rid w :
  eliminations (sim_of inp current_week) !! rid = Some w → 1 ≤ w ≤ Z.of_nat (Z.to_nat current_week).
Proof.
  intros H. pose proof (simulate_inv (teams_of inp) (scores_of inp current_week) current_week) as Hinv.
  pose proof (inv_weeks _ _ _ Hinv _ _ H). lia.
Qed.


(** ** The two computations of the average position above the chop *)

Lemma insert_sorted_fmap {A B K} (f : A → B) (key : B → K) lt reverse x l :
  Py.insert_sorted key lt reverse (f x) (f <$> l) =
    f <$> Py.insert_sorted (key ∘ f) lt reverse x l.
Proof.
  induction l as [| y l IH]; [done |]. rewrite fmap_cons. cbn [Py.insert_sorted].
  change (Py.precedes key lt reverse (f y) (f x))
    with (Py.precedes (key ∘ f) lt reverse y x).
  destruct (Py.precedes (key ∘ f) lt reverse y x); [| done].
  by rewrite IH.
Qed.

Lemma sorted_fmap {A B K} (f : A → B) (key : B → K) lt reverse l :
  Py.sorted key lt reverse (f <$> l) = f <$> Py.sorted (key ∘ f) lt reverse l.
Proof.
  induction l as [| x l IH]; [done |]. rewrite fmap_cons. cbn [Py.sorted foldr].
  change (foldr (Py.insert_sorted key lt reverse) [] (f <$> l))
    with (Py.sorted key lt reverse (f <$> l)).
  rewrite IH. apply insert_sorted_fmap.
Qed.

(** Sorting by score does not depend on the order of the input when equal
    scores belong to equal entries. *)
Lemma sorted_by_score_unique {I} (l l' : list (I * Q)) :
  l ≡ₚ l' → (∀ x y, x ∈ l' → y ∈ l' → (x.2 == y.2)%Q → x = y) →
  Py.sorted snd Py.num_lt true l = Py.sorted snd Py.num_lt true l'.
Proof.
  intros Hp Hinj. apply (StronglySorted_unique_strong score_ge).
  - intros x y Hx Hy Hxy Hyx. rewrite sorted_Permutation in Hx, Hy. rewrite Hp in Hx.
    apply Hinj; [done | done |]. by apply Qle_antisym.
  - apply ranked_descending.
  - apply ranked_descending.
  - by rewrite !sorted_Permutation.
Qed.

Lemma NoDup_fst_inj {K V} (l : list (K * V)) k v v' :
  NoDup l.*1 → (k, v) ∈ l → (k, v') ∈ l → v = v'.
Proof.
  intros Hnd H H'. apply list_elem_of_lookup in H as [i Hi]. apply list_elem_of_lookup in H' as [j Hj].
  assert (i = j) as ->; [| congruence].
  eapply NoDup_lookup; [exact Hnd | |]; rewrite list_lookup_fmap.
  - by rewrite Hi.
  - by rewrite Hj.
Qed.

Lemma NoDup_snd_inj {K V} (l : list (K * V)) k k' v :
  NoDup l.*2 → (k, v) ∈ l → (k', v) ∈ l → k = k'.
Proof.
  intros Hnd H H'. apply list_elem_of_lookup in H as [i Hi]. apply list_elem_of_lookup in H' as [j Hj].
  assert (i = j) as ->; [| congruence].
  eapply NoDup_lookup; [exact Hnd | |]; rewrite list_lookup_fmap.
  - by rewrite Hi.
  - by rewrite Hj.
Qed.

Lemma setitem_keys {K V} `{EqDecision K} (k : K) (v : V) d :
  k ∈ d.*1 → (Py.setitem k v d).*1 = d.*1.
Proof.
  induction d as [| [k' v'] d IH]; simpl; [by intros ?%not_elem_of_nil |].
  case_decide as Hk; [by subst |]. intros Hin. rewrite fmap_cons. simpl. f_equal. apply IH.
  apply elem_of_cons in Hin as [-> | Hin]; done.
Qed.

Lemma setitem_new_key {K V} `{EqDecision K} (k : K) (v : V) d :
  k ∉ d.*1 → (Py.setitem k v d).*1 = d.*1 ++ [k].
Proof.
  induction d as [| [k' v'] d IH]; simpl; [done |].
  intros Hin. rewrite not_elem_of_cons in Hin. destruct Hin as [Hne Hin].
  rewrite decide_False by done. rewrite fmap_cons. simpl. f_equal. by apply IH.
Qed.

Lemma setitem_keys_NoDup {K V} `{EqDecision K} (k : K) (v : V) d :
  NoDup d.*1 → NoDup (Py.setitem k v d).*1.
Proof.
  intros Hnd. destruct (decide (k ∈ d.*1)) as [Hin | Hin].
  - by rewrite setitem_keys.
  - rewrite setitem_new_key by done. apply NoDup_app. split_and!; [done | | apply NoDup_singleton].
    intros x Hx Hx'. apply list_elem_of_singleton in Hx'. by subst.
Qed.

Lemma roster_of_keys_NoDup inp : NoDup (teams_of inp).
Proof.
  unfold teams_of, roster_of, roster_to_user_of.
  assert (∀ rosters d, NoDup d.*1 →
            NoDup (foldl (λ d (r : Z * string), Py.setitem r.1 r.2 d) d rosters).*1) as H.
  { induction rosters as [| r rosters IH]; intros d Hd; simpl; [done |].
    by apply IH, setitem_keys_NoDup. }
  apply H. constructor.
Qed.

Lemma omap_filter {A B} (g : A → option B) (P : A → Prop) `{∀ x, Decision (P x)}
    (l : list A) :
  omap g (filter P l) = omap (λ x, if decide (P x) then g x else None) l.
Proof.
  induction l as [| x l IH]; [done |]. rewrite filter_cons. csimpl.
  destruct (decide (P x)); csimpl; by rewrite IH.
Qed.

Lemma omap_fmap {A B C} (f : A → B) (g : B → option C) (l : list A) :
  omap g (f <$> l) = omap (g ∘ f) l.
Proof. apply list_omap_ext, Forall2_fmap_l, Forall_Forall2_diag, Forall_forall. done. Qed.

Lemma week_scores_of_scored_alive roster eliminations sc week :
  week_scores_of sc (filter (alive eliminations week) roster.*1) =
    by_roster_id <$> scored_alive roster eliminations sc week.
Proof.
  unfold week_scores_of, scored_alive.
  rewrite omap_filter, omap_fmap, list_fmap_omap.
  apply list_omap_ext, Forall_Forall2_diag, Forall_forall. intros r _. simpl.
  case_decide; [| done]. by destruct (sc !! r.1).
Qed.

Lemma scored_alive_elem roster eliminations sc week t :
  t ∈ scored_alive roster eliminations sc week ↔
    t.1 ∈ roster ∧ alive eliminations week t.1.1 ∧ sc !! t.1.1 = Some t.2.
Proof.
  unfold scored_alive. rewrite list_elem_of_omap. split.
  - intros (r & Hr & H). case_decide; [| done]. destruct (sc !! r.1) eqn:E; simplify_eq/=. done.
  - intros (Hr & Ha & Hs). exists t.1. split; [done |]. rewrite decide_True by done.
    rewrite Hs. simpl. by destruct t.
Qed.

Lemma rank_from_renamed (S : list (Z * string * Q)) rid name i :
  (∀ t, t ∈ S → t.1.1 = rid ↔ t.1.2 = name) →
  Py.rank_from name (by_user_name <$> S) i = Py.rank_from rid (by_roster_id <$> S) i.
Proof.
  revert i. induction S as [| t S IH]; intros i Hbij; [done |].
  rewrite !fmap_cons. cbn [Py.rank_from]. unfold by_user_name at 1, by_roster_id at 1. simpl.
  destruct (Hbij t) as [H1 H2]; [left |].
  destruct (decide (t.1.2 = name)) as [Hn | Hn], (decide (t.1.1 = rid)) as [Hr | Hr];
    try done; try (by destruct Hn; auto); try (by destruct Hr; auto).
  apply IH. intros t' Ht'. apply Hbij. by right.
Qed.

Lemma process_season_data_built inp current_week d :
  process_season_data inp current_week = Some d →
  ∃ built, mapM (built_manager inp current_week) (roster_of inp) = Some built ∧
           out_managers d =
             assign_finish_positions (Py.sorted display_key display_lt false built).
Proof.
  rewrite process_season_data_unfold. intros H.
  apply bind_Some in H as (stats & _ & H). apply bind_Some in H as (built & Hbuilt & H).
  injection H as <-. by exists built.
Qed.

Lemma scored_alive_empty roster eliminations week : scored_alive roster eliminations ∅ week = [].
Proof.
  unfold scored_alive. induction roster as [| r roster IH]; [done |]. csimpl.
  case_decide; [rewrite lookup_empty |]; csimpl; exact IH.
Qed.

(** The scores the repair script collects for a week from the returned
    records are those of the rosters alive in that week, under the user
    names. *)
Lemma named_week_scores_pipeline inp d wk :
  process_season_data inp 17 = Some d → 1 ≤ wk ≤ 17 →
  named_week_scores (out_managers d) wk ≡ₚ
    by_user_name <$> scored_alive (roster_of inp) (eliminations (sim_of inp 17))
                       (default ∅ (scores_of inp 17 !! wk)) wk.
Proof.
  intros Hd Hwk. apply process_season_data_built in Hd as (built & Hbuilt & ->).
  unfold named_week_scores, assign_finish_positions, scored_alive.
  rewrite omap_fmap.
  trans (omap (named_entry wk) built).
  { etrans; [| apply omap_Permutation, (sorted_Permutation display_key display_lt false)].
    apply reflexive_eq, list_omap_ext, Forall_Forall2_diag, Forall_forall. done. }
  rewrite list_fmap_omap. apply mapM_Some in Hbuilt.
  erewrite list_omap_ext; [reflexivity |].
  apply Forall2_flip. eapply Forall2_impl; [exact Hbuilt |].
  intros r m0 Hb. apply built_manager_fields in Hb as (Hname & _ & Hchop & _ & _ & Hws & _).
  unfold named_entry. simpl. rewrite Hname, Hchop, Hws, weekly_scores_dict_lookup by done. simpl.
  unfold shown_score. rewrite decide_True by lia.
  destruct (decide (alive (eliminations (sim_of inp 17)) wk r.1)) as [Ha | Ha];
    unfold alive in Ha; destruct (eliminations (sim_of inp 17) !! r.1) as [w |]; simpl.
  - rewrite bool_decide_eq_true_2 by done. rewrite decide_True by done.
    by destruct (default ∅ (scores_of inp 17 !! wk) !! r.1).
  - by destruct (default ∅ (scores_of inp 17 !! wk) !! r.1).
  - by rewrite bool_decide_eq_false_2 by done.
  - done.
Qed.

Lemma rank_positions_spec managers m :
  rank_positions managers m =
    omap (named_position managers (user_name m))
      (Py.range 1 (end_week_of (chop_week m) 17 + 1)).
Proof.
  unfold rank_positions.
  assert (∀ weeks acc,
            foldl (λ positions_above wk,
                     match named_rank managers (user_name m) wk with
                     | None => positions_above
                     | Some (rank, n) => positions_above ++ [n - rank]
                     end) acc weeks =
              acc ++ omap (named_position managers (user_name m)) weeks) as H.
  { induction weeks as [| wk weeks IH]; intros acc; [by rewrite app_nil_r |].
    cbn [foldl]. rewrite IH. csimpl. unfold named_position at 2.
    destruct (named_rank managers (user_name m) wk) as [[rank n] |]; csimpl; [| done].
    by rewrite <- app_assoc. }
  by rewrite H.
Qed.

(** Without tied scores and with distinct user names, the repair script
    and the pipeline rank a team alike in every week. *)
Lemma named_position_pipeline inp d rid name wk :
  process_season_data inp 17 = Some d → 1 ≤ wk ≤ 17 →
  (rid, name) ∈ roster_of inp →
  NoDup (roster_of inp).*2 →
  no_tied_scores (teams_of inp) (scores_of inp 17) (eliminations (sim_of inp 17)) →
  named_position (out_managers d) name wk =
    positions_above_chop (teams_of inp) (scores_of inp 17) (sim_of inp 17) rid wk.
Proof.
  intros Hd Hwk Hr Hnames Hties.
  pose proof (roster_of_keys_NoDup inp) as Hkeys. unfold teams_of in Hkeys.
  set (sc := default ∅ (scores_of inp 17 !! wk)).
  set (T := scored_alive (roster_of inp) (eliminations (sim_of inp 17)) sc wk).
  set (S := Py.sorted (λ t : Z * string * Q, t.2) Py.num_lt true T).
  assert (Py.sorted snd Py.num_lt true (named_week_scores (out_managers d) wk)
            = by_user_name <$> S) as Hnamed.
  { rewrite (sorted_by_score_unique _ (by_user_name <$> T)).
    - apply (sorted_fmap by_user_name snd).
    - by apply named_week_scores_pipeline.
    - intros x y Hx Hy Heq.
      apply list_elem_of_fmap in Hx as (t1 & -> & Ht1). apply list_elem_of_fmap in Hy as (t2 & -> & Ht2).
      apply scored_alive_elem in Ht1 as (Hr1 & Ha1 & Hs1).
      apply scored_alive_elem in Ht2 as (Hr2 & Ha2 & Hs2).
      destruct t1 as [[k1 n1] s1], t2 as [[k2 n2] s2]. simpl in *.
      assert (k1 = k2) as ->.
      { apply (Hties wk k1 k2 s1 s2); try done.
        - apply elem_of_seqZ. lia.
        - apply list_elem_of_fmap. by exists (k1, n1).
        - apply list_elem_of_fmap. by exists (k2, n2). }
      unfold by_user_name. simpl. f_equal.
      + by eapply NoDup_fst_inj.
      + congruence. }
  assert (∀ t, t ∈ S → t.1.1 = rid ↔ t.1.2 = name) as Hbij.
  { intros t Ht. unfold S in Ht. rewrite sorted_Permutation in Ht.
    apply scored_alive_elem in Ht as (Ht & _). destruct t as [[k n] s]. simpl in *. split.
    - intros ->. by eapply NoDup_fst_inj.
    - intros ->. by eapply NoDup_snd_inj. }
  unfold named_position, named_rank. rewrite Hnamed.
  unfold positions_above_chop, week_position.
  destruct (scores_of inp 17 !! wk) as [sc' |] eqn:Esc.
  - unfold ranked_scores, teams_of. rewrite week_scores_of_scored_alive.
    rewrite (sorted_fmap by_roster_id snd).
    change (Py.sorted (snd ∘ by_roster_id) Py.num_lt true
              (scored_alive (roster_of inp) (eliminations (sim_of inp 17)) sc' wk)) with S.
    destruct S as [| t S']; [done |].
    rewrite !fmap_cons. cbv iota. rewrite <- !fmap_cons.
    rewrite (rank_from_renamed (t :: S') rid name 0 Hbij), !length_fmap.
    destruct (Py.rank_from rid _ 0) as [rank |]; done.
  - assert (S = []) as ->; [| done].
    unfold S, T, sc. simpl. by rewrite scored_alive_empty.
Qed.

Lemma end_week_of_bounds inp rid :
  end_week_of (eliminations (sim_of inp 17) !! rid) 17 ≤ 17.
Proof.
  unfold end_week_of. destruct (eliminations _ !! rid) as [w |] eqn:E; [| done].
  apply sim_of_chop_week_pos in E. case_decide; lia.
Qed.

Lemma rank_positions_pipeline inp d r m0 :
  process_season_data inp 17 = Some d → r ∈ roster_of inp →
  built_manager inp 17 r = Some m0 →
  NoDup (roster_of inp).*2 →
  no_tied_scores (teams_of inp) (scores_of inp 17) (eliminations (sim_of inp 17)) →
  rank_positions (out_managers d)
    (with_finish_position (Z.of_nat (length (roster_of inp))) m0) =
  (season_positions (teams_of inp) (scores_of inp 17) (sim_of inp 17) 17 r.1).1.
Proof.
  intros Hd Hr Hb Hnames Hties.
  apply built_manager_fields in Hb as (Hname & _ & Hchop & _).
  rewrite rank_positions_spec, season_positions_spec. simpl. rewrite Hname, Hchop.
  apply list_omap_ext, Forall_Forall2_diag, Forall_forall. intros wk Hwk.
  apply elem_of_seqZ in Hwk. pose proof (end_week_of_bounds inp r.1).
  apply (named_position_pipeline inp d r.1 r.2 wk); try done; [lia |]. by destruct r.
Qed.

(** C9 (amended): for a complete-season dataset (current week 17) with
    pairwise distinct user names in which no two teams alive in the same
    week have equal scores in it, the repair script, run on the records the
    pipeline returns, computes for every manager the value that the pipeline
    stored in [avg_pos_above_chop]. *)
Theorem C9_rank_average_agrees_without_ties inp d :
  process_season_data inp 17 = Some d →
  NoDup (roster_of inp).*2 →
  no_tied_scores (teams_of inp) (scores_of inp 17) (eliminations (sim_of inp 17)) →
  ∃ fixed,
    calculate_rank_based_avg_above_chop (out_managers d) = Some fixed ∧
    Forall2 (λ m m', user_name m' = user_name m ∧
                     avg_above_chop m' = Some (avg_pos_above_chop m))
      (out_managers d) fixed.
Proof.
  intros Hd Hnames Hties.
  assert (∀ m, m ∈ out_managers d →
            average_position (rank_positions (out_managers d) m) = Some (avg_pos_above_chop m))
    as Havg.
  { intros m Hm.
    destruct (process_season_data_managers _ _ _ _ Hd Hm) as (r & m0 & Hr & Hb & ->).
    rewrite (rank_positions_pipeline inp d r m0) by done.
    by apply built_manager_fields in Hb as (_ & _ & _ & _ & _ & _ & Havg & _). }
  exists ((λ m, set_avg_above_chop (avg_pos_above_chop m) m) <$> out_managers d). split.
  - unfold calculate_rank_based_avg_above_chop. apply mapM_Some_2, Forall2_fmap_r.
    apply Forall_Forall2_diag, Forall_forall. intros m Hm. by rewrite (Havg m Hm).
  - apply Forall2_fmap_r, Forall_Forall2_diag, Forall_forall. by intros m Hm.
Qed.

Lemma spec_scenario_no_ties :
  no_tied_scores (teams_of spec_scenario) (scores_of spec_scenario 17)
    (eliminations (sim_of spec_scenario 17)).
Proof.
  intros week r1 r2 s1 s2 Hweek Hr1 Hr2 _ _ Hs1 Hs2 Heq.
  assert (teams_of spec_scenario = [1; 2; 3]) as Hteams by reflexivity.
  rewrite Hteams in Hr1, Hr2.
  assert (Py.range 1 18 = [1; 2; 3; 4; 5; 6; 7; 8; 9; 10; 11; 12; 13; 14; 15; 16; 17])
    as Hweeks by reflexivity.
  rewrite Hweeks in Hweek.
  repeat (apply elem_of_cons in Hr1 as [-> | Hr1]); [| | | by apply not_elem_of_nil in Hr1];
    (repeat (apply elem_of_cons in Hr2 as [-> | Hr2]); [| | | by apply not_elem_of_nil in Hr2]);
    try done;
    (repeat (apply elem_of_cons in Hweek as [-> | Hweek]);
     try (by apply not_elem_of_nil in Hweek));
    vm_compute in Hs1; try done; vm_compute in Hs2; try done;
    simplify_eq; by vm_compute in Heq.
Qed.


(** ** The scenarios of the specification, run through the pipeline *)

(** Reading a summary [f] off the record at index [i] of the result. *)
Lemma pipeline_record_at {A} inp current_week i (f : manager → A) x :
  f <$> (process_season_data inp current_week ≫= λ d, out_managers d !! i) = Some x →
  ∃ d m, process_season_data inp current_week = Some d ∧
         out_managers d !! i = Some m ∧ f m = x.
Proof.
  destruct (process_season_data inp current_week) as [d |]; simpl; [| done].
  destruct (out_managers d !! i) as [m |] eqn:Em; simpl; [| done].
  intros [= <-]. by exists d, m.
Qed.

Lemma fixed_record_at {A} inp current_week i (f : manager → manager → A) x :
  (process_season_data inp current_week ≫= λ d,
   calculate_rank_based_avg_above_chop (out_managers d) ≫= λ fixed,
   out_managers d !! i ≫= λ m, fixed !! i ≫= λ m', Some (f m m')) = Some x →
  ∃ d fixed m m',
    process_season_data inp current_week = Some d ∧
    calculate_rank_based_avg_above_chop (out_managers d) = Some fixed ∧
    out_managers d !! i = Some m ∧ fixed !! i = Some m' ∧ f m m' = x.
Proof.
  destruct (process_season_data inp current_week) as [d |]; simpl; [| done].
  destruct (calculate_rank_based_avg_above_chop (out_managers d)) as [fixed |] eqn:Ef;
    simpl; [| done].
  destruct (out_managers d !! i) as [m |] eqn:Em; simpl; [| done].
  destruct (fixed !! i) as [m' |] eqn:Em'; simpl; [| done].
  intros [= <-]. by exists d, fixed, m, m'.
Qed.

(** C5, as the claim states it, fails: in the scenario of the
    specification the second record is team 1 ("A"), chopped in week 2 after
    spending 50; its remaining budget is reported as 0, not 1000 - 50. *)
Lemma C5_eliminated_team_shows_zero :
  ∃ d m, process_season_data spec_scenario 2 = Some d ∧
         out_managers d !! 1%nat = Some m ∧
         roster_id m = 1 ∧ chop_week m = Some 2 ∧ faab_spent m = 50 ∧
         faab_remaining m = 0 ∧
         faab_remaining m ≠ STARTING_FAAB - faab_spent m.
Proof.
  destruct (pipeline_record_at spec_scenario 2 1
              (λ m, (roster_id m, chop_week m, faab_spent m, faab_remaining m))
              (1, Some 2, 50, 0)) as (d & m & Hd & Hm & Hf); [by vm_compute |].
  injection Hf as H1 H2 H3 H4. exists d, m. rewrite H1, H2, H3, H4. by split_and!.
Qed.

Lemma C5_faab_remaining_witness :
  ∃ d m, process_season_data spec_scenario 2 = Some d ∧ m ∈ out_managers d ∧
         faab_remaining m =
           (match chop_week m with Some _ => 0 | None => STARTING_FAAB - faab_spent m end) ∧
         faab_remaining (fix_faab_remaining m) = STARTING_FAAB - faab_spent m.
Proof.
  destruct (pipeline_record_at spec_scenario 2 0 (λ _, ()) ()) as (d & m & Hd & Hm & _);
    [by vm_compute |].
  apply list_elem_of_lookup_2 in Hm.
  exists d, m. split; [done |]. split; [done |].
  exact (C5_faab_remaining spec_scenario 2 d m Hd Hm).
Defined.

Lemma C10_weekly_scores_witness :
  ∃ d m, process_season_data spec_scenario 2 = Some d ∧ m ∈ out_managers d ∧
         dom (weekly_scores m) = list_to_set (Py.str <$> seqZ 1 17).
Proof.
  destruct (pipeline_record_at spec_scenario 2 0 (λ _, ()) ()) as (d & m & Hd & Hm & _);
    [by vm_compute |].
  apply list_elem_of_lookup_2 in Hm.
  exists d, m. split; [done |]. split; [done |].
  exact (proj1 (C10_weekly_scores spec_scenario 2 d m Hd Hm)).
Defined.

(** C4, as the claim states it, fails: a completed bid of 40 that is the
    only claim on its player adds nothing to the wasted total of its roster,
    not max(0, 40 - 0 - 1) = 39; in the scenario of the specification team 2
    ("B") ends with 0 wasted. *)
Lemma C4_uncontested_bid_adds_nothing :
  wins uncontested_claims 40 2 ∧ highest_other_bid uncontested_claims 2 0 ∧
  charge_waste (zeros [1; 2; 3]) uncontested_claims !! 2 ≠
    Some (Py.get_or (zeros [1; 2; 3]) 2 0 + Z.max 0 (40 - 0 - 1)) ∧
  ∃ d m, process_season_data spec_scenario 2 = Some d ∧ out_managers d !! 2%nat = Some m ∧
         roster_id m = 2 ∧ faab_spent m = 40 ∧ faab_wasted m = 0.
Proof.
  split_and!.
  - exists (2, 40, Some "complete"%string). split_and!; try done; [left |].
    intros c' Hc' _. apply list_elem_of_singleton in Hc' as ->. done.
  - right. split; [| done]. intros c Hc. by apply list_elem_of_singleton in Hc as ->.
  - by vm_compute.
  - destruct (pipeline_record_at spec_scenario 2 2
                (λ m, (roster_id m, faab_spent m, faab_wasted m)) (2, 40, 0))
      as (d & m & Hd & Hm & Hf); [by vm_compute |].
    injection Hf as H1 H2 H3. exists d, m. split_and!; assumption.
Qed.

(** C9, as the claim states it, fails: in a season where teams 1 ("A") and
    2 ("B") tie in week 1 the pipeline reports 1.5 for "A", ranking the tied
    teams in roster order, while the repair script, run on the records the
    pipeline returned (sorted for display), reports 1.0. *)
Lemma C9_tied_scores_rank_differently :
  ∃ d fixed m m',
    process_season_data tied_season 17 = Some d ∧
    calculate_rank_based_avg_above_chop (out_managers d) = Some fixed ∧
    out_managers d !! 2%nat = Some m ∧ fixed !! 2%nat = Some m' ∧
    user_name m = "A"%string ∧ user_name m' = "A"%string ∧
    avg_pos_above_chop m = (15 # 10)%Q ∧ avg_above_chop m' = Some (10 # 10)%Q ∧
    ¬ (15 # 10 == 10 # 10)%Q.
Proof.
  destruct (fixed_record_at tied_season 17 2
              (λ m m', (user_name m, user_name m', avg_pos_above_chop m, avg_above_chop m'))
              ("A"%string, "A"%string, (15 # 10)%Q, Some (10 # 10)%Q))
    as (d & fixed & m & m' & Hd & Hfixed & Hm & Hm' & Hf); [by vm_compute |].
  injection Hf as H1 H2 H3 H4. exists d, fixed, m, m'. by split_and!.
Qed.

Lemma C9_rank_average_witness :
  ∃ d fixed,
    process_season_data spec_scenario 17 = Some d ∧
    NoDup (roster_of spec_scenario).*2 ∧
    no_tied_scores (teams_of spec_scenario) (scores_of spec_scenario 17)
      (eliminations (sim_of spec_scenario 17)) ∧
    calculate_rank_based_avg_above_chop (out_managers d) = Some fixed ∧
    Forall2 (λ m m', user_name m' = user_name m ∧
                     avg_above_chop m' = Some (avg_pos_above_chop m))
      (out_managers d) fixed.
Proof.
  destruct (process_season_data_is_Some spec_scenario 17) as [d Hd].
  assert (NoDup (roster_of spec_scenario).*2) as Hnames.
  { apply (bool_decide_unpack _). by vm_compute. }
  destruct (C9_rank_average_agrees_without_ties spec_scenario d Hd Hnames spec_scenario_no_ties)
    as (fixed & Hfixed & Hall).
  exists d, fixed.
  split_and!; [done | exact Hnames | exact spec_scenario_no_ties | exact Hfixed | exact Hall].
Defined.

(** * Further properties of the pipeline *)

(** ** Step 2: the weeks and rosters that have scores *)

Lemma collect_scores_outside fetched n lo acc week :
  week < lo ∨ lo + Z.of_nat n ≤ week ∨ (∃ w, lo ≤ w ≤ week ∧ fetched !! w = None) →
  collect_scores fetched (seqZ lo (Z.of_nat n)) acc !! week = acc !! week.
Proof.
  revert lo acc. induction n as [| n IH]; intros lo acc Hout; [done |].
  rewrite seqZ_cons by lia. cbn [collect_scores].
  replace (Z.pred (Z.of_nat (S n))) with (Z.of_nat n) by lia.
  destruct (fetched !! lo) as [ms |] eqn:E; [| done].
  destruct (decide (week = lo)) as [-> | Hne].
  - exfalso. destruct Hout as [? | [? | (w & Hw & Hnone)]]; [lia | lia |].
    assert (w = lo) as -> by lia. congruence.
  - rewrite IH.
    + by rewrite lookup_insert_ne.
    + destruct Hout as [? | [? | (w & Hw & Hnone)]]; [left; lia | right; left; lia |].
      destruct (decide (w = lo)) as [-> | ?]; [congruence |].
      right. right. exists w. split; [lia | done].
Qed.

Lemma collect_scores_inside fetched n lo acc week :
  lo ≤ week < lo + Z.of_nat n → (∀ w, lo ≤ w ≤ week → is_Some (fetched !! w)) →
  collect_scores fetched (seqZ lo (Z.of_nat n)) acc !! week = week_points <$> fetched !! week.
Proof.
  revert lo acc. induction n as [| n IH]; intros lo acc Hin Hall; [lia |].
  rewrite seqZ_cons by lia. cbn [collect_scores].
  replace (Z.pred (Z.of_nat (S n))) with (Z.of_nat n) by lia.
  destruct (Hall lo) as [ms Hms]; [lia |]. rewrite Hms.
  destruct (decide (week = lo)) as [-> | Hne].
  - rewrite collect_scores_outside by (left; lia). by rewrite lookup_insert_eq, Hms.
  - apply IH; [lia |]. intros w Hw. apply Hall. lia.
Qed.

Lemma collect_scores_Some fetched n lo acc week sc :
  collect_scores fetched (seqZ lo (Z.of_nat n)) acc !! week = Some sc →
  acc !! week = Some sc ∨
  (lo ≤ week < lo + Z.of_nat n ∧ (∀ w, lo ≤ w ≤ week → is_Some (fetched !! w)) ∧
   ∃ ms, fetched !! week = Some ms ∧ sc = week_points ms).
Proof.
  revert lo acc. induction n as [| n IH]; intros lo acc; [by left |].
  rewrite seqZ_cons by lia. cbn [collect_scores].
  replace (Z.pred (Z.of_nat (S n))) with (Z.of_nat n) by lia.
  destruct (fetched !! lo) as [ms |] eqn:E; [| by left].
  intros H. apply IH in H as [H | (Hweek & Hall & ms' & Hms' & ->)].
  - rewrite lookup_insert in H. case_decide as Hlo; [| by left].
    subst week. injection H as <-. right. split; [lia |]. split; [| by exists ms].
    intros w Hw. assert (w = lo) as -> by lia. by eexists.
  - right. split; [lia |]. split; [| by exists ms'].
    intros w Hw. destruct (decide (w = lo)) as [-> | ?]; [by eexists |]. apply Hall. lia.
Qed.

(** X1: step 2 records the scores of the weeks up to the first week whose
    matchups cannot be fetched: a week is a key of [all_scores] exactly when
    it lies in [1..current_week] and it and every earlier week were fetched,
    and then it holds that week's points. *)
Theorem X1_scores_until_first_failure fetched current_week week :
  (is_Some (collect_scores fetched (Py.range 1 (current_week + 1)) ∅ !! week) ↔
     1 ≤ week ≤ current_week ∧ ∀ w, 1 ≤ w ≤ week → is_Some (fetched !! w)) ∧
  (∀ sc, collect_scores fetched (Py.range 1 (current_week + 1)) ∅ !! week = Some sc →
         ∃ ms, fetched !! week = Some ms ∧ sc = week_points ms).
Proof.
  rewrite range_seqZ. split; [split |].
  - intros [sc Hsc]. apply collect_scores_Some in Hsc as [Hsc | (Hweek & Hall & _)].
    + by rewrite lookup_empty in Hsc.
    + split; [lia | done].
  - intros [Hweek Hall]. rewrite collect_scores_inside by (done || lia).
    destruct (Hall week) as [ms ->]; [lia |]. by eexists.
  - intros sc Hsc. apply collect_scores_Some in Hsc as [Hsc | (_ & _ & H)]; [| done].
    by rewrite lookup_empty in Hsc.
Qed.

Lemma week_points_fold (ms : list matchup) (acc : gmap Z Q) rid :
  foldl (λ d m, match m_points m with
                | Some p => <[m_roster_id m := p]> d
                | None => d
                end) acc ms !! rid =
    match list_find (λ m, m_roster_id m = rid ∧ is_Some (m_points m)) (reverse ms) with
    | Some (_, m) => m_points m
    | None => acc !! rid
    end.
Proof.
  revert acc. induction ms as [| m ms IH] using rev_ind; intros acc; [done |].
  rewrite foldl_app, reverse_snoc. cbn [foldl list_find].
  destruct (decide (m_roster_id m = rid ∧ is_Some (m_points m))) as [[Hrid [p Hp]] | Hno]; simpl.
  - rewrite Hp, <- Hrid. apply lookup_insert_eq.
  - destruct (m_points m) as [p |] eqn:Ep.
    + rewrite lookup_insert_ne.
      * rewrite IH. by destruct (list_find _ (reverse ms)) as [[i m'] |].
      * intros Hrid. apply Hno. split; [done | by eexists].
    + rewrite IH. by destruct (list_find _ (reverse ms)) as [[i m'] |].
Qed.

(** X2: within a week a roster has a score exactly when one of the week's
    matchups for it carries points (matchups with null points are skipped),
    and the score kept is the points of the last such matchup. *)
Theorem X2_week_points ms rid :
  (is_Some (week_points ms !! rid) ↔
     ∃ m, m ∈ ms ∧ m_roster_id m = rid ∧ is_Some (m_points m)) ∧
  (∀ before m after p,
     ms = before ++ m :: after → m_roster_id m = rid → m_points m = Some p →
     (∀ m', m' ∈ after → m_roster_id m' = rid → m_points m' = None) →
     week_points ms !! rid = Some p).
Proof.
  unfold week_points. rewrite week_points_fold, lookup_empty. split.
  - destruct (list_find _ (reverse ms)) as [[i m] |] eqn:E.
    + apply list_find_Some in E as (Hi & [Hrid Hp] & _).
      split; [| done]. intros _. exists m. split_and!; try done.
      apply elem_of_reverse. by eapply list_elem_of_lookup_2.
    + split; [by intros [? ?] |]. intros (m & Hm & Hrid & Hp). exfalso.
      apply list_find_None in E. rewrite Forall_forall in E.
      apply (E m); [by apply elem_of_reverse | done].
  - intros before m after p -> Hrid Hp Hafter.
    rewrite reverse_app, reverse_cons.
    assert (list_find (λ m0, m_roster_id m0 = rid ∧ is_Some (m_points m0))
              ((reverse after ++ [m]) ++ reverse before) = Some (length after, m)) as ->; [| done].
    apply list_find_Some. split; [| split].
    + rewrite lookup_app_l by (rewrite length_app, length_reverse; simpl; lia).
      rewrite lookup_app_r by (rewrite length_reverse; lia).
      by rewrite length_reverse, Nat.sub_diag.
    + split; [done | by eexists].
    + intros j m' Hj Hlt [Hrid' [p' Hp']].
      rewrite lookup_app_l in Hj by (rewrite length_app, length_reverse; simpl; lia).
      rewrite lookup_app_l in Hj by (rewrite length_reverse; lia).
      apply list_elem_of_lookup_2 in Hj. rewrite elem_of_reverse in Hj.
      rewrite (Hafter m' Hj Hrid') in Hp'. done.
Qed.

(** ** Step 3: the weeks in which teams are chopped *)

Lemma sim_week_dense (teams : gset Z) all_scores lo st st' :
  1 ≤ lo → sim_inv teams st lo → chop_weeks_upto st (lo - 1) →
  sim_week all_scores lo st = Some st' → chop_weeks_upto st' lo.
Proof.
  intros Hlo Hinv Hdense E.
  apply sim_week_Some in E as (sc & c & s & m & _ & Hc & _ & _ & _ & _ & ->).
  assert (eliminations st !! c = None) as Hfresh.
  { rewrite (inv_remaining _ _ _ Hinv) in Hc. apply elem_of_difference in Hc as [_ Hc].
    by apply not_elem_of_dom. }
  intros w. simpl. split.
  - intros [r Hr]. rewrite lookup_insert in Hr. case_decide; simplify_eq; [lia |].
    assert (1 ≤ w ≤ lo - 1) by (apply Hdense; by exists r). lia.
  - intros Hw. destruct (decide (w = lo)) as [-> | Hne].
    + exists c. apply lookup_insert_eq.
    + destruct (proj2 (Hdense w)) as [r Hr]; [lia |]. exists r.
      rewrite lookup_insert_ne; [done |]. intros ->. congruence.
Qed.

Lemma sim_loop_dense (teams : gset Z) all_scores n lo st :
  1 ≤ lo → sim_inv teams st lo → chop_weeks_upto st (lo - 1) →
  Z.of_nat (size (eliminations st)) = lo - 1 →
  chop_weeks_upto (sim_loop all_scores (seqZ lo (Z.of_nat n)) st)
    (Z.of_nat (size (eliminations (sim_loop all_scores (seqZ lo (Z.of_nat n)) st)))).
Proof.
  revert lo st. induction n as [| n IH]; intros lo st Hlo Hinv Hdense Hsize.
  - simpl. by rewrite Hsize.
  - rewrite seqZ_cons by lia. cbn [sim_loop].
    replace (Z.pred (Z.of_nat (S n))) with (Z.of_nat n) by lia.
    destruct (sim_week all_scores lo st) as [st' |] eqn:E; [| by rewrite Hsize].
    destruct (sim_week_inv _ _ _ _ _ Hlo Hinv E) as (Hinv' & _ & Hsz & _).
    apply IH; [lia | by rewrite <- Z.add_1_r | | lia].
    replace (Z.succ lo - 1) with lo by lia. by eapply sim_week_dense.
Qed.

Lemma simulate_chop_weeks teams all_scores current_week :
  chop_weeks_upto (simulate teams all_scores current_week)
    (Z.of_nat (size (eliminations (simulate teams all_scores current_week)))).
Proof.
  unfold simulate. rewrite range_seqZ.
  apply (sim_loop_dense (list_to_set teams)); [done | apply sim_inv_init | | done].
  intros w. simpl. split; [| lia]. intros [r Hr]. by rewrite lookup_empty in Hr.
Qed.

Lemma simulate_size_le teams all_scores current_week :
  (size (eliminations (simulate teams all_scores current_week)) ≤
     size (list_to_set teams : gset Z))%nat.
Proof.
  pose proof (simulate_inv teams all_scores current_week) as Hinv.
  rewrite <- size_dom. apply subseteq_size, (inv_dom _ _ _ Hinv).
Qed.

(** X3: teams are chopped in consecutive weeks from week 1 on: when [k]
    teams have been eliminated, the chop weeks are exactly 1, ..., k, the
    weeks with a chop score are the same, and [k] is at most the current
    week and at most the number of teams. *)
Theorem X3_chop_weeks_are_consecutive teams all_scores current_week :
  let st := simulate teams all_scores current_week in
  let k := Z.of_nat (size (eliminations st)) in
  (∀ w, (∃ r, eliminations st !! r = Some w) ↔ 1 ≤ w ≤ k) ∧
  (∀ w, is_Some (chop_scores st !! w) ↔ 1 ≤ w ≤ k) ∧
  k ≤ Z.max 0 current_week ∧
  k ≤ Z.of_nat (size (list_to_set teams : gset Z)).
Proof.
  intros st k. pose proof (simulate_inv teams all_scores current_week) as Hinv. fold st in Hinv.
  assert (chop_weeks_upto st k) as Hdense by apply simulate_chop_weeks.
  split_and!.
  - exact Hdense.
  - intros w. rewrite (inv_chops _ _ _ Hinv). apply Hdense.
  - destruct (decide (k = 0)) as [-> | Hk]; [lia |].
    destruct (proj2 (Hdense k)) as [r Hr]; [lia |].
    pose proof (inv_weeks _ _ _ Hinv _ _ Hr). lia.
  - subst k. apply inj_le, simulate_size_le.
Qed.

(** ** Steps 8 to 10: the records of a result *)

Lemma roster_to_user_keys rosters d rid :
  rid ∈ (foldl (λ d (r : Z * string), Py.setitem r.1 r.2 d) d rosters).*1 ↔
    rid ∈ d.*1 ∨ rid ∈ rosters.*1.
Proof.
  revert d. induction rosters as [| r rosters IH]; intros d.
  - simpl. rewrite elem_of_nil. tauto.
  - cbn [foldl]. rewrite IH, fmap_cons, elem_of_cons. destruct (decide (r.1 ∈ d.*1)) as [Hin | Hin].
    + rewrite setitem_keys by done. split; [tauto |]. intros [? | [-> | ?]]; tauto.
    + rewrite setitem_new_key, elem_of_app, list_elem_of_singleton by done. tauto.
Qed.

Lemma built_roster_ids inp current_week roster built :
  Forall2 (λ r m0, built_manager inp current_week r = Some m0) roster built →
  roster_id <$> built = roster.*1 ∧ user_name <$> built = roster.*2.
Proof.
  induction 1 as [| r m0 roster built Hb _ [IH1 IH2]]; [done |].
  apply built_manager_fields in Hb as (Hname & Hrid & _).
  rewrite !fmap_cons, IH1, IH2, Hname, Hrid. done.
Qed.

Lemma out_managers_roster_ids inp current_week d :
  process_season_data inp current_week = Some d →
  roster_id <$> out_managers d ≡ₚ teams_of inp ∧
  length (out_managers d) = length (roster_of inp).
Proof.
  intros Hd. apply process_season_data_built in Hd as (built & Hbuilt & ->).
  apply mapM_Some in Hbuilt. destruct (built_roster_ids _ _ _ _ Hbuilt) as [Hids _].
  unfold assign_finish_positions. split.
  - rewrite <- list_fmap_compose.
    change (roster_id ∘ with_finish_position _) with roster_id.
    by rewrite sorted_Permutation, Hids.
  - rewrite length_fmap, sorted_length. symmetry. by eapply Forall2_length.
Qed.

(** X4: a result holds exactly one record per roster id: the roster ids of
    the records are those of the fetched rosters, each once (a roster id
    fetched twice keeps one record), and every record carries the user name
    stored for its roster id. *)
Theorem X4_one_record_per_roster inp current_week :
  ∃ d, process_season_data inp current_week = Some d ∧
       NoDup (roster_id <$> out_managers d) ∧
       (∀ rid, rid ∈ roster_id <$> out_managers d ↔ rid ∈ (in_rosters inp).*1) ∧
       (∀ m, m ∈ out_managers d →
             Py.getitem (roster_id m) (roster_of inp) = Some (user_name m)).
Proof.
  destruct (process_season_data_is_Some inp current_week) as [d Hd]. exists d.
  split; [done |]. destruct (out_managers_roster_ids _ _ _ Hd) as [Hperm _]. split_and!.
  - rewrite Hperm. apply roster_of_keys_NoDup.
  - intros rid. rewrite Hperm. unfold teams_of, roster_of, roster_to_user_of.
    rewrite roster_to_user_keys. simpl. rewrite elem_of_nil. tauto.
  - intros m Hm.
    destruct (process_season_data_managers _ _ _ _ Hd Hm) as (r & m0 & Hr & Hb & ->).
    apply built_manager_fields in Hb as (Hname & Hrid & _). simpl. rewrite Hname, Hrid.
    pose proof (roster_of_keys_NoDup inp) as Hnd. unfold teams_of in Hnd.
    revert Hr Hnd. generalize (roster_of inp). intros l.
    induction l as [| [k v] l IH]; intros Hr Hnd; [by apply not_elem_of_nil in Hr |].
    simpl. rewrite fmap_cons in Hnd. apply NoDup_cons in Hnd as [Hk Hnd].
    apply elem_of_cons in Hr as [-> | Hr]; simpl.
    + by rewrite decide_True.
    + rewrite decide_False; [by apply IH |].
      intros ->. apply Hk, list_elem_of_fmap. by exists r.
Qed.

Lemma sim_of_chop_week_le_teams inp current_week rid w :
  eliminations (sim_of inp current_week) !! rid = Some w →
  1 ≤ w ≤ Z.of_nat (length (roster_of inp)).
Proof.
  intros H. pose proof (sim_of_chop_week_pos _ _ _ _ H) as [Hpos _]. split; [done |].
  pose proof (simulate_chop_weeks (teams_of inp) (scores_of inp current_week) current_week) as Hd.
  pose proof (simulate_size_le (teams_of inp) (scores_of inp current_week) current_week) as Hsz.
  rewrite size_list_to_set in Hsz by apply roster_of_keys_NoDup.
  unfold teams_of in Hsz at 2. rewrite length_fmap in Hsz.
  assert (1 ≤ w ≤ Z.of_nat (size (eliminations (sim_of inp current_week)))) as Hw
    by (apply Hd; by exists rid).
  unfold sim_of in Hw. lia.
Qed.

(** X5: in every result each record has a finish position between 1 and
    the number [N] of records: 1 for a team that is not eliminated and
    [N - W + 1] for a team chopped in week [W]; an eliminated team shares its
    position with no other team. *)
Theorem X5_finish_positions_of_result inp current_week :
  ∃ d, process_season_data inp current_week = Some d ∧
    (∀ m, m ∈ out_managers d →
       ∃ p, finish_position m = Some p ∧
            1 ≤ p ≤ Z.of_nat (length (out_managers d)) ∧
            p = match chop_week m with
                | None => 1
                | Some W => Z.of_nat (length (out_managers d)) - W + 1
                end) ∧
    (∀ m1 m2, m1 ∈ out_managers d → m2 ∈ out_managers d →
       is_Some (chop_week m1) → finish_position m1 = finish_position m2 →
       roster_id m1 = roster_id m2).
Proof.
  destruct (process_season_data_is_Some inp current_week) as [d Hd]. exists d.
  split; [done |]. destruct (out_managers_roster_ids _ _ _ Hd) as [_ Hlen]. rewrite Hlen.
  split.
  - intros m Hm. assert (1 ≤ Z.of_nat (length (roster_of inp))) as Hne.
    { rewrite <- Hlen. destruct (out_managers d); [by apply not_elem_of_nil in Hm | simpl; lia]. }
    destruct (process_season_data_managers _ _ _ _ Hd Hm) as (r & m0 & Hr & Hb & ->).
    apply built_manager_fields in Hb as (_ & _ & Hchop & _). simpl. rewrite Hchop.
    eexists. split; [done |].
    destruct (eliminations _ !! r.1) as [w |] eqn:E; [| lia].
    apply sim_of_chop_week_le_teams in E. lia.
  - intros m1 m2 Hm1 Hm2 [w1 Hw1] Heq.
    destruct (process_season_data_managers _ _ _ _ Hd Hm1) as (r1 & m1' & Hr1 & Hb1 & ->).
    destruct (process_season_data_managers _ _ _ _ Hd Hm2) as (r2 & m2' & Hr2 & Hb2 & ->).
    apply built_manager_fields in Hb1 as (_ & Hrid1 & Hchop1 & _).
    apply built_manager_fields in Hb2 as (_ & Hrid2 & Hchop2 & _).
    simpl in *. rewrite Hrid1, Hrid2. rewrite Hchop1 in Hw1, Heq. rewrite Hchop2, Hw1 in Heq.
    pose proof (simulate_inv (teams_of inp) (scores_of inp current_week) current_week) as Hinv.
    pose proof (sim_of_chop_week_le_teams _ _ _ _ Hw1) as Hbound.
    destruct (eliminations (sim_of inp current_week) !! r2.1) as [w2 |] eqn:E2.
    + assert (w1 = w2) as -> by (simplify_eq; lia). by apply (inv_inj _ _ _ Hinv _ _ w2).
    + exfalso. assert (w1 = Z.of_nat (length (roster_of inp))) as Hw by (simplify_eq; lia).
      pose proof (simulate_chop_weeks (teams_of inp) (scores_of inp current_week) current_week)
        as Hdense.
      pose proof (simulate_size_le (teams_of inp) (scores_of inp current_week) current_week)
        as Hsz.
      assert (1 ≤ w1 ≤ Z.of_nat (size (eliminations (sim_of inp current_week)))) as Hk
        by (apply Hdense; by exists r1.1).
      assert (dom (eliminations (sim_of inp current_week)) ≡ list_to_set (teams_of inp)) as Hdom.
      { apply set_subseteq_size_equiv; [apply (inv_dom _ _ _ Hinv) |].
        rewrite size_dom, size_list_to_set by apply roster_of_keys_NoDup.
        unfold teams_of. rewrite length_fmap. lia. }
      assert (r2.1 ∈ dom (eliminations (sim_of inp current_week))) as Hin.
      { rewrite Hdom. apply elem_of_list_to_set, list_elem_of_fmap. by exists r2. }
      apply elem_of_dom in Hin as [? Hin]. congruence.
Qed.

(** ** Step 9: the display order *)

Lemma display_lt_spec a b :
  display_lt a b = true ↔
    a.1.1 < b.1.1 ∨ (a.1.1 = b.1.1 ∧ (a.1.2 < b.1.2 ∨ (a.1.2 = b.1.2 ∧ (a.2 < b.2)%Q))).
Proof.
  unfold display_lt.
  destruct (decide (a.1.1 ≠ b.1.1)) as [H1 | H1]; [rewrite Z.ltb_lt; lia |].
  destruct (decide (a.1.2 ≠ b.1.2)) as [H2 | H2]; [rewrite Z.ltb_lt; lia |].
  rewrite num_lt_spec. split.
  - intros Hlt. right. split; [lia |]. right. split; [lia | done].
  - intros [? | [_ [? | [_ ?]]]]; [lia | lia | done].
Qed.

Lemma display_lt_false a b :
  display_lt a b = false ↔
    b.1.1 < a.1.1 ∨ (a.1.1 = b.1.1 ∧ (b.1.2 < a.1.2 ∨ (a.1.2 = b.1.2 ∧ (b.2 <= a.2)%Q))).
Proof.
  rewrite <- not_true_iff_false, display_lt_spec. split.
  - intros H. destruct (Z.lt_trichotomy a.1.1 b.1.1) as [? | [? | ?]]; [tauto | | lia].
    destruct (Z.lt_trichotomy a.1.2 b.1.2) as [? | [? | ?]]; [tauto | | lia].
    right. split; [done |]. right. split; [done |]. apply Qnot_lt_le. tauto.
  - intros [? | [? [? | [? Hle]]]] [? | [? [? | [? Hlt]]]]; try lia.
    by apply Qle_not_lt in Hle.
Qed.

Lemma display_le_trans : Transitive display_le.
Proof.
  intros a b c. unfold display_le. rewrite !display_lt_false.
  intros [? | [? [? | [? H1]]]] [? | [? [? | [? H2]]]]; try lia.
  right. split; [lia |]. right. split; [lia |]. by eapply Qle_trans.
Qed.

Lemma display_sorted managers :
  StronglySorted display_le (Py.sorted display_key display_lt false managers).
Proof.
  apply sorted_StronglySorted.
  - intros y x H. simpl in H. unfold display_le. apply display_lt_spec in H.
    apply display_lt_false. destruct H as [? | [? [? | [? H]]]]; [lia | lia |].
    right. split; [lia |]. right. split; [lia |]. by apply Qlt_le_weak.
  - intros y x H. exact H.
  - apply display_le_trans.
Qed.

(** X6: the records of a result are listed with the eliminated teams
    first, in the order of their chop weeks, followed by the teams still
    alive in ascending order of their average position above the chop. *)
Theorem X6_display_order inp current_week :
  ∃ d, process_season_data inp current_week = Some d ∧
    ∀ i j m1 m2,
      out_managers d !! i = Some m1 → out_managers d !! j = Some m2 → (i < j)%nat →
      (∀ w2, chop_week m2 = Some w2 → ∃ w1, chop_week m1 = Some w1 ∧ w1 < w2) ∧
      (chop_week m1 = None →
         chop_week m2 = None ∧ (avg_pos_above_chop m1 <= avg_pos_above_chop m2)%Q).
Proof.
  destruct (process_season_data_is_Some inp current_week) as [d Hd]. exists d.
  split; [done |]. intros i j m1 m2 H1 H2 Hij.
  assert (roster_id m1 ≠ roster_id m2) as Hne.
  { intros Heq. destruct (out_managers_roster_ids _ _ _ Hd) as [Hperm _].
    assert (NoDup (roster_id <$> out_managers d)) as Hnd
      by (rewrite Hperm; apply roster_of_keys_NoDup).
    assert (i = j); [| lia].
    eapply NoDup_lookup; [exact Hnd | |]; rewrite list_lookup_fmap.
    - by rewrite H1.
    - rewrite H2. simpl. by rewrite Heq. }
  assert (m1 ∈ out_managers d) as Hm1 by by eapply list_elem_of_lookup_2.
  assert (m2 ∈ out_managers d) as Hm2 by by eapply list_elem_of_lookup_2.
  assert (display_le m1 m2) as Hle.
  { pose proof Hd as Hd'. apply process_season_data_built in Hd' as (built & _ & Hout).
    rewrite Hout in H1, H2. unfold assign_finish_positions in H1, H2.
    apply list_lookup_fmap_Some in H1 as (m1' & -> & Hm1').
    apply list_lookup_fmap_Some in H2 as (m2' & -> & Hm2').
    change (display_le m1' m2').
    eapply StronglySorted_lookup_lt; [apply display_sorted | done | done | lia]. }
  destruct (process_season_data_managers _ _ _ _ Hd Hm1) as (r1 & m1' & Hr1 & Hb1 & ->).
  destruct (process_season_data_managers _ _ _ _ Hd Hm2) as (r2 & m2' & Hr2 & Hb2 & ->).
  apply built_manager_fields in Hb1 as (_ & Hrid1 & Hchop1 & _).
  apply built_manager_fields in Hb2 as (_ & Hrid2 & Hchop2 & _).
  unfold display_le in Hle. apply display_lt_false in Hle. unfold display_key in Hle.
  simpl in *. rewrite Hchop1, Hchop2 in *.
  pose proof (simulate_inv (teams_of inp) (scores_of inp current_week) current_week) as Hinv.
  destruct (eliminations (sim_of inp current_week) !! r1.1) as [w1 |] eqn:E1,
           (eliminations (sim_of inp current_week) !! r2.1) as [w2 |] eqn:E2; simpl in Hle.
  - pose proof (sim_of_chop_week_pos _ _ _ _ E1). pose proof (sim_of_chop_week_pos _ _ _ _ E2).
    rewrite !bool_decide_eq_true_2 in Hle by lia. simpl in Hle.
    split; [| done]. intros ? [= <-]. exists w1. split; [done |].
    assert (w1 ≠ w2); [| lia]. intros ->. apply Hne. rewrite Hrid1, Hrid2.
    by apply (inv_inj _ _ _ Hinv _ _ w2).
  - pose proof (sim_of_chop_week_pos _ _ _ _ E1).
    rewrite bool_decide_eq_true_2 in Hle by lia. simpl in Hle. split; done.
  - pose proof (sim_of_chop_week_pos _ _ _ _ E2).
    rewrite bool_decide_eq_true_2 in Hle by lia. simpl in Hle. lia.
  - split; [done |]. intros _. split; [done |]. destruct Hle as [? | [_ [? | [_ ?]]]]; [lia | lia | done].
Qed.

(** ** Step 5: properties of the two budget passes *)

Lemma get_or_insert (d : gmap Z Z) k v rid :
  Py.get_or (<[k := v]> d) rid 0 = if decide (k = rid) then v else Py.get_or d rid 0.
Proof. unfold Py.get_or. rewrite lookup_insert. by case_decide. Qed.

Lemma player_waste_nonneg bids r x : player_waste bids = Some (r, x) → 0 ≤ x.
Proof.
  unfold player_waste. destruct (winning_claim _) as [[w r'] |]; [| done].
  repeat case_decide; try done. intros [= <- <-]. lia.
Qed.

Lemma charge_waste_mono faab_wasted bids rid :
  Py.get_or faab_wasted rid 0 ≤ Py.get_or (charge_waste faab_wasted bids) rid 0.
Proof.
  unfold charge_waste. destruct (player_waste bids) as [[r x] |] eqn:E; [| done].
  apply player_waste_nonneg in E. rewrite get_or_insert. case_decide; [subst | done]. lia.
Qed.

Lemma waste_week_mono txns faab_wasted rid :
  Py.get_or faab_wasted rid 0 ≤ Py.get_or (waste_week txns faab_wasted) rid 0.
Proof.
  unfold waste_week. destruct (group_claims txns []) as [player_bids |]; [| done].
  generalize (player_bids.*2). intros l. revert faab_wasted.
  induction l as [| bids l IH]; intros faab_wasted; simpl; [done |].
  etrans; [apply (charge_waste_mono faab_wasted bids) | apply IH].
Qed.

Lemma waste_season_mono transactions weeks faab_wasted rid :
  Py.get_or faab_wasted rid 0 ≤ Py.get_or (waste_season transactions weeks faab_wasted) rid 0.
Proof.
  unfold waste_season. revert faab_wasted.
  induction weeks as [| week weeks IH]; intros faab_wasted; simpl; [done |].
  etrans; [| apply IH]. destruct (transactions !! week); [apply waste_week_mono | done].
Qed.

Lemma get_or_zeros teams rid : Py.get_or (zeros teams) rid 0 = 0.
Proof.
  unfold Py.get_or, zeros. destruct (list_to_map _ !! rid) as [v |] eqn:E; [| done].
  apply elem_of_list_to_map_2, list_elem_of_fmap in E as (r & [= _ ->] & _). done.
Qed.

(** X7: the amount charged for a player is never negative, and when no bid
    on the player is negative it is below the winning bid (at most the
    winning bid less 1, or 0). *)
Theorem X7_waste_charged_is_bounded bids r x :
  player_waste bids = Some (r, x) →
  0 ≤ x ∧
  ∃ winning_bid, wins bids winning_bid r ∧
    ((∀ c, c ∈ bids → 0 ≤ claim_bid c) → x ≤ Z.max 0 (winning_bid - 1)).
Proof.
  intros H. split; [by eapply player_waste_nonneg |].
  unfold player_waste in H.
  destruct (winning_claim _) as [[w r'] |] eqn:Ew; [| done].
  repeat case_decide; try done. injection H as <- <-.
  assert (∃ c, c ∈ bids ∧ claim_status c = Some "complete"%string) as Hc.
  { unfold winning_claim in Ew. destruct (list_find _ _) as [[i c] |] eqn:Ef; [| done].
    apply list_find_Some in Ef as (Hi & Hst & _). exists c. split; [| done].
    rewrite <- (sorted_Permutation claim_bid Z.ltb true bids). by eapply list_elem_of_lookup_2. }
  destruct (winning_claim_spec bids Hc) as (w' & r'' & Hw' & Hwins).
  rewrite Ew in Hw'. injection Hw' as <- <-. exists w. split; [done |].
  intros Hpos. pose proof (second_bid_of_spec bids r') as [(c & Hin & _ & <- & _) | [_ ->]].
  - specialize (Hpos c Hin). lia.
  - lia.
Qed.

Lemma X7_waste_charged_witness :
  player_waste contested_claims = Some (1, 19) ∧ 0 ≤ 19 ∧
  ∃ winning_bid, wins contested_claims winning_bid 1 ∧
    ((∀ c, c ∈ contested_claims → 0 ≤ claim_bid c) → 19 ≤ Z.max 0 (winning_bid - 1)).
Proof.
  assert (player_waste contested_claims = Some (1, 19)) as H by by vm_compute.
  split; [exact H |]. exact (X7_waste_charged_is_bounded contested_claims 1 19 H).
Defined.

(** X8: in every result the wasted budget of every record is at least 0:
    the wasted pass only ever adds amounts that are not negative. *)
Theorem X8_wasted_totals_are_not_negative inp current_week :
  ∃ d, process_season_data inp current_week = Some d ∧
       ∀ m, m ∈ out_managers d → 0 ≤ faab_wasted m.
Proof.
  destruct (process_season_data_is_Some inp current_week) as [d Hd]. exists d.
  split; [done |]. intros m Hm.
  destruct (process_season_data_managers _ _ _ _ Hd Hm) as (r & m0 & Hr & Hb & ->).
  unfold built_manager, build_manager in Hb. apply bind_Some in Hb as (avg & _ & Hb).
  injection Hb as <-. simpl.
  etrans; [| apply waste_season_mono]. by rewrite get_or_zeros.
Qed.

Lemma spend_week_stops before t after faab_spent :
  txn_type t = Some "waiver"%string → txn_status t = Some "complete"%string →
  txn_settings t = None →
  spend_week (before ++ t :: after) faab_spent = spend_week before faab_spent.
Proof.
  intros Hty Hst Hset. revert faab_spent.
  induction before as [| t' before IH]; intros faab_spent; simpl.
  - rewrite decide_True by done. unfold waiver_bid. by rewrite Hset.
  - case_decide; [| apply IH]. destruct (waiver_bid t') as [bid |]; [| done].
    destruct (txn_roster_ids t') as [| rid ?], bid as [b |]; try apply IH.
    case_decide; apply IH.
Qed.

Lemma group_claims_raises txns t player_bids :
  t ∈ txns → txn_type t = Some "waiver"%string → txn_settings t = None →
  group_claims txns player_bids = None.
Proof.
  intros Hin Hty Hset. revert player_bids.
  induction txns as [| t' txns IH]; intros player_bids; [by apply not_elem_of_nil in Hin |].
  simpl. apply elem_of_cons in Hin as [<- | Hin].
  - rewrite decide_True by done. unfold waiver_bid. by rewrite Hset.
  - case_decide; [| by apply IH]. destruct (waiver_bid t'); [by apply IH | done].
Qed.

(** X9: a waiver claim with null settings makes the processing of its week
    raise, and the two passes treat that differently: the spent pass keeps
    the bids it added before reaching a completed claim of this kind and
    drops the rest of the week, while the wasted pass charges nothing at all
    for a week that holds such a claim. *)
Theorem X9_malformed_claim_ends_the_week before t after faab_spent faab_wasted :
  txn_type t = Some "waiver"%string → txn_status t = Some "complete"%string →
  txn_settings t = None →
  spend_week (before ++ t :: after) faab_spent = spend_week before faab_spent ∧
  waste_week (before ++ t :: after) faab_wasted = faab_wasted.
Proof.
  intros Hty Hst Hset. split; [by apply spend_week_stops |].
  unfold waste_week. rewrite (group_claims_raises _ t); [done | | done | done].
  apply elem_of_app. right. left.
Qed.

Lemma X9_malformed_claim_witness :
  spend_week ([well_formed_claim] ++ malformed_claim :: [well_formed_claim]) (zeros [1; 2])
    = spend_week [well_formed_claim] (zeros [1; 2]) ∧
  waste_week ([well_formed_claim] ++ malformed_claim :: [well_formed_claim]) (zeros [1; 2])
    = zeros [1; 2].
Proof.
  apply (X9_malformed_claim_ends_the_week [well_formed_claim] malformed_claim
           [well_formed_claim]); reflexivity.
Defined.

Lemma spend_week_sum txns faab_spent rid :
  (∀ t, t ∈ txns → txn_settings t ≠ None) →
  Py.get_or (spend_week txns faab_spent) rid 0 =
    Py.get_or faab_spent rid 0 + Py.sum (omap (completed_bid rid) txns).
Proof.
  revert faab_spent. induction txns as [| t txns IH]; intros faab_spent Hwf.
  - simpl. lia.
  - assert (∀ t', t' ∈ txns → txn_settings t' ≠ None) as Hwf' by (intros ? ?; apply Hwf; by right).
    assert (txn_settings t ≠ None) as Ht by (apply Hwf; left).
    cbn [spend_week]. csimpl. unfold completed_bid at 1.
    destruct (decide (txn_type t = Some "waiver"%string ∧ txn_status t = Some "complete"%string));
      [| by apply IH].
    unfold waiver_bid. destruct (txn_settings t) as [j |]; [| done].
    destruct (txn_roster_ids t) as [| r rs];
      [destruct j; by apply IH |].
    assert (∀ b, Py.get_or
              (if decide (b = 0) then spend_week txns faab_spent
               else spend_week txns (<[r := Py.get_or faab_spent r 0 + b]> faab_spent)) rid 0 =
            Py.get_or faab_spent rid 0 +
            Py.sum (match (if decide (r = rid) then Some b else None) with
                    | Some y => y :: omap (completed_bid rid) txns
                    | None => omap (completed_bid rid) txns
                    end)) as Hstep.
    { intros b. destruct (decide (b = 0)) as [-> | Hb].
      - rewrite IH by done. case_decide; simpl; lia.
      - rewrite IH by done. rewrite get_or_insert. case_decide; simpl; [subst; lia | lia]. }
    destruct j as [| | b]; [apply (Hstep 0) | by apply IH | apply (Hstep b)].
Qed.

Lemma sum_app l1 l2 : Py.sum (l1 ++ l2) = Py.sum l1 + Py.sum l2.
Proof. unfold Py.sum. induction l1 as [| x l1 IH]; simpl; lia. Qed.

Lemma spend_season_sum transactions weeks faab_spent rid :
  (∀ week txns t, transactions !! week = Some txns → t ∈ txns → txn_settings t ≠ None) →
  Py.get_or (spend_season transactions weeks faab_spent) rid 0 =
    Py.get_or faab_spent rid 0 +
    Py.sum (omap (completed_bid rid)
              (mjoin ((λ week, default [] (transactions !! week)) <$> weeks))).
Proof.
  intros Hwf. unfold spend_season. revert faab_spent.
  induction weeks as [| week weeks IH]; intros faab_spent.
  - simpl. lia.
  - cbn [foldl]. rewrite IH. rewrite fmap_cons. cbn [mjoin list_join].
    rewrite omap_app, sum_app.
    destruct (transactions !! week) as [txns |] eqn:E; cbn [default from_option id].
    + rewrite spend_week_sum by (intros t Ht; by eapply Hwf). by rewrite Z.add_assoc.
    + change (Py.sum (omap (completed_bid rid) [])) with 0. by rewrite Z.add_0_l.
Qed.

(** X10: when no transaction of the season has null settings, the
    [faab_spent] of every record of a result is the sum of the bids of the
    completed waiver claims of the fetched weeks 1..current_week that name
    its roster first. *)
Theorem X10_spent_is_the_sum_of_winning_bids inp current_week :
  (∀ week txns t, in_transactions inp !! week = Some txns → t ∈ txns →
                  txn_settings t ≠ None) →
  ∃ d, process_season_data inp current_week = Some d ∧
    ∀ m, m ∈ out_managers d →
      faab_spent m = Py.sum (omap (completed_bid (roster_id m)) (season_txns inp current_week)).
Proof.
  intros Hwf. destruct (process_season_data_is_Some inp current_week) as [d Hd]. exists d.
  split; [done |]. intros m Hm.
  destruct (process_season_data_managers _ _ _ _ Hd Hm) as (r & m0 & Hr & Hb & ->).
  apply built_manager_fields in Hb as (_ & Hrid & _ & Hspent & _).
  change (faab_spent (with_finish_position _ m0)) with (faab_spent m0).
  change (roster_id (with_finish_position _ m0)) with (roster_id m0).
  rewrite Hspent, Hrid. unfold spent_of. rewrite spend_season_sum by done.
  rewrite get_or_zeros. unfold season_txns. lia.
Qed.

Lemma X10_spent_witness :
  (∀ week txns t, in_transactions spec_scenario !! week = Some txns → t ∈ txns →
                  txn_settings t ≠ None) ∧
  ∃ d, process_season_data spec_scenario 2 = Some d ∧
    ∀ m, m ∈ out_managers d →
      faab_spent m = Py.sum (omap (completed_bid (roster_id m)) (season_txns spec_scenario 2)).
Proof.
  assert (∀ week txns t, in_transactions spec_scenario !! week = Some txns → t ∈ txns →
                         txn_settings t ≠ None) as H.
  { intros week txns t Hw Ht. simpl in Hw.
    apply lookup_insert_Some in Hw as [[_ <-] | [_ Hw]]; [| by rewrite lookup_empty in Hw].
    repeat (apply elem_of_cons in Ht as [-> | Ht]); try done.
    by apply not_elem_of_nil in Ht. }
  split; [exact H |].
  exact (X10_spent_is_the_sum_of_winning_bids spec_scenario 2 H).
Defined.

(** ** [str] and [int], and dictionaries in insertion order *)

Lemma int_str n : Py.int (Py.str n) = Some n.
Proof.
  unfold Py.int, Py.str. rewrite NilZero.isi.
  - simpl. f_equal. apply DecimalZ.of_to.
  - destruct n; simpl; [done | | done]. intros [= H]. by apply DecimalPos.Unsigned.to_uint_nonnil in H.
  - destruct n; simpl; [done | done |]. intros [= H]. by apply DecimalPos.Unsigned.to_uint_nonnil in H.
Qed.

Lemma str_inj n n' : Py.str n = Py.str n' → n = n'.
Proof. intros H. apply (f_equal Py.int) in H. rewrite !int_str in H. by injection H. Qed.

Lemma getitem_setitem {K V} `{EqDecision K} (k k' : K) (v : V) d :
  Py.getitem k' (Py.setitem k v d) = if decide (k = k') then Some v else Py.getitem k' d.
Proof.
  induction d as [| [k0 v0] d IH]; simpl.
  - by destruct (decide (k = k')).
  - destruct (decide (k0 = k)) as [-> | Hne]; simpl.
    + by destruct (decide (k = k')).
    + destruct (decide (k0 = k')) as [-> | Hne'].
      * by rewrite decide_False by done.
      * exact IH.
Qed.

Lemma getitem_None {K V} `{EqDecision K} (k : K) (d : list (K * V)) :
  Py.getitem k d = None ↔ k ∉ d.*1.
Proof.
  induction d as [| [k0 v0] d IH]; simpl.
  - split; [intros _; apply not_elem_of_nil | done].
  - rewrite not_elem_of_cons. destruct (decide (k0 = k)) as [-> | Hne].
    + split; [done | by intros [? _]].
    + rewrite IH. split; [by intros ? | by intros [_ ?]].
Qed.

Lemma getitem_elem_of {K V} `{EqDecision K} (k : K) (v : V) (d : list (K * V)) :
  Py.getitem k d = Some v → (k, v) ∈ d.
Proof.
  induction d as [| [k0 v0] d IH]; simpl; [done |].
  destruct (decide (k0 = k)) as [-> | Hne]; [intros [= ->]; left | intros H; right; by apply IH].
Qed.

Lemma setitem_keys_elem {K V} `{EqDecision K} (k k' : K) (v : V) d :
  k' ∈ (Py.setitem k v d).*1 → k' = k ∨ k' ∈ d.*1.
Proof.
  destruct (decide (k ∈ d.*1)) as [Hin | Hin].
  - rewrite setitem_keys by done. by right.
  - rewrite setitem_new_key by done. intros H. apply elem_of_app in H as [H | H]; [by right |].
    apply list_elem_of_singleton in H. by left.
Qed.

(** ** Step 7: the dictionary [weekly_stats] *)

Lemma played_stats_lookup teams all_scores eliminations weeks weekly_stats played week :
  played_stats teams all_scores eliminations weeks weekly_stats = Some played →
  NoDup weeks →
  Py.getitem (Py.str week) played =
    if decide (week ∈ weeks)
    then match week_entry teams all_scores eliminations week with
         | Some s => Some s
         | None => Py.getitem (Py.str week) weekly_stats
         end
    else Py.getitem (Py.str week) weekly_stats.
Proof.
  revert weekly_stats. induction weeks as [| w weeks IH]; intros weekly_stats H Hnd.
  - simpl in H. injection H as <-. by rewrite decide_False by apply not_elem_of_nil.
  - apply NoDup_cons in Hnd as [Hw Hnd]. cbn [played_stats] in H.
    destruct (decide (week = w)) as [-> | Hne].
    + rewrite decide_True by left. unfold week_entry.
      destruct (all_scores !! w) as [sc |] eqn:Esc; simpl.
      * destruct (alive_scores teams eliminations sc w) as [| s scores] eqn:Ea.
        -- rewrite (IH _ H Hnd). by rewrite decide_False by done.
        -- destruct (stats_of (s :: scores)) as [st |] eqn:Est; [| done]. simpl in H.
           rewrite (IH _ H Hnd). rewrite decide_False by done.
           rewrite getitem_setitem. by rewrite decide_True by done.
      * rewrite (IH _ H Hnd). by rewrite decide_False by done.
    + assert (Py.getitem (Py.str week) played =
              if decide (week ∈ weeks)
              then match week_entry teams all_scores eliminations week with
                   | Some s => Some s
                   | None => Py.getitem (Py.str week) weekly_stats
                   end
              else Py.getitem (Py.str week) weekly_stats) as Hgoal.
      { destruct (all_scores !! w) as [sc |] eqn:Esc; [| by apply IH].
        destruct (alive_scores teams eliminations sc w) as [| s scores] eqn:Ea; [by apply IH |].
        destruct (stats_of (s :: scores)) as [st |] eqn:Est; [| done]. simpl in H.
        rewrite (IH _ H Hnd). rewrite getitem_setitem.
        rewrite (decide_False (P := Py.str w = Py.str week)); [done |].
        intros Heq. apply str_inj in Heq. congruence. }
      rewrite Hgoal. destruct (decide (week ∈ weeks)) as [Hin | Hin].
      * rewrite decide_True by (by right). done.
      * rewrite decide_False; [done |]. rewrite not_elem_of_cons. done.
Qed.

Lemma played_stats_keys teams all_scores eliminations weeks weekly_stats played k :
  played_stats teams all_scores eliminations weeks weekly_stats = Some played →
  k ∈ played.*1 → k ∈ weekly_stats.*1 ∨ ∃ week, week ∈ weeks ∧ k = Py.str week.
Proof.
  revert weekly_stats. induction weeks as [| w weeks IH]; intros weekly_stats H Hk.
  - simpl in H. injection H as <-. by left.
  - cbn [played_stats] in H.
    assert (k ∈ weekly_stats.*1 ∨ (∃ week, week ∈ weeks ∧ k = Py.str week) →
            k ∈ weekly_stats.*1 ∨ ∃ week, week ∈ w :: weeks ∧ k = Py.str week) as Hweak.
    { intros [? | (week & ? & ?)]; [by left | right; exists week; split; [by right | done]]. }
    destruct (all_scores !! w) as [sc |]; [| by apply Hweak, IH].
    destruct (alive_scores teams eliminations sc w) as [| s scores]; [by apply Hweak, IH |].
    destruct (stats_of (s :: scores)) as [st |]; [| done]. simpl in H.
    destruct (IH _ H Hk) as [Hin | Hin]; [| by apply Hweak; right].
    apply setitem_keys_elem in Hin as [-> | Hin]; [| by left].
    right. exists w. split; [left | done].
Qed.

Lemma played_stats_NoDup teams all_scores eliminations weeks weekly_stats played :
  played_stats teams all_scores eliminations weeks weekly_stats = Some played →
  NoDup weekly_stats.*1 → NoDup played.*1.
Proof.
  revert weekly_stats. induction weeks as [| w weeks IH]; intros weekly_stats H Hnd.
  - simpl in H. by injection H as <-.
  - cbn [played_stats] in H.
    destruct (all_scores !! w) as [sc |]; [| by eapply IH].
    destruct (alive_scores teams eliminations sc w) as [| s scores]; [by eapply IH |].
    destruct (stats_of (s :: scores)) as [st |]; [| done]. simpl in H.
    eapply IH; [exact H |]. by apply setitem_keys_NoDup.
Qed.

Lemma placeholders_lookup weeks (weekly_stats : list (string * week_stats)) week :
  Py.getitem (Py.str week)
    (foldl (λ d week, Py.setitem (Py.str week) empty_stats d) weekly_stats weeks) =
    if decide (week ∈ weeks) then Some empty_stats else Py.getitem (Py.str week) weekly_stats.
Proof.
  revert weekly_stats. induction weeks as [| w weeks IH]; intros weekly_stats; cbn [foldl].
  - destruct (decide (week ∈ [])) as [Hin | _]; [by apply not_elem_of_nil in Hin | done].
  - rewrite IH. rewrite getitem_setitem.
    destruct (decide (week ∈ weeks)) as [Hin | Hin].
    + destruct (decide (week ∈ w :: weeks)) as [_ | Hout]; [done |].
      exfalso. apply Hout. by right.
    + destruct (decide (Py.str w = Py.str week)) as [Heq | Hne].
      * apply str_inj in Heq as ->.
        destruct (decide (week ∈ week :: weeks)) as [_ | Hout]; [done |].
        exfalso. apply Hout. left.
      * destruct (decide (week ∈ w :: weeks)) as [Hin' | _]; [| done].
        exfalso. apply elem_of_cons in Hin' as [-> | Hin']; done.
Qed.

Lemma placeholders_keys weeks (weekly_stats : list (string * week_stats)) k :
  k ∈ (foldl (λ d week, Py.setitem (Py.str week) empty_stats d) weekly_stats weeks).*1 →
  k ∈ weekly_stats.*1 ∨ ∃ week, week ∈ weeks ∧ k = Py.str week.
Proof.
  revert weekly_stats. induction weeks as [| w weeks IH]; intros weekly_stats Hk; simpl in Hk.
  - by left.
  - destruct (IH _ Hk) as [Hin | (week & Hin & ->)].
    + apply setitem_keys_elem in Hin as [-> | Hin]; [| by left].
      right. exists w. split; [left | done].
    + right. exists week. split; [by right | done].
Qed.

Lemma placeholders_NoDup weeks (weekly_stats : list (string * week_stats)) :
  NoDup weekly_stats.*1 →
  NoDup (foldl (λ d week, Py.setitem (Py.str week) empty_stats d) weekly_stats weeks).*1.
Proof.
  revert weekly_stats. induction weeks as [| w weeks IH]; intros weekly_stats Hnd; simpl.
  - done.
  - apply IH. by apply setitem_keys_NoDup.
Qed.

Lemma elem_of_range a b x : x ∈ Py.range a b ↔ a ≤ x < b.
Proof. unfold Py.range. rewrite elem_of_seqZ. lia. Qed.

Lemma weekly_stats_of_lookup teams all_scores eliminations current_week weekly_stats week :
  weekly_stats_of teams all_scores eliminations current_week = Some weekly_stats →
  Py.getitem (Py.str week) weekly_stats =
    if decide (current_week < week ≤ 17) then Some empty_stats
    else if decide (1 ≤ week ≤ current_week)
         then week_entry teams all_scores eliminations week
         else None.
Proof.
  unfold weekly_stats_of. intros H. apply bind_Some in H as (played & Hplayed & [= <-]).
  rewrite placeholders_lookup.
  destruct (decide (current_week < week ≤ 17)) as [Hf | Hf].
  - rewrite decide_True; [done |]. apply elem_of_range. lia.
  - rewrite decide_False by (rewrite elem_of_range; lia).
    rewrite (played_stats_lookup _ _ _ _ _ _ week Hplayed) by apply NoDup_seqZ.
    destruct (decide (1 ≤ week ≤ current_week)) as [Hp | Hp].
    + rewrite decide_True by (apply elem_of_range; lia).
      by destruct (week_entry teams all_scores eliminations week).
    + rewrite decide_False by (rewrite elem_of_range; lia). done.
Qed.

(** X11: the dictionary [weekly_stats] of a result, read under [str(week)]:
    a week after the current one, up to week 17, holds the placeholder whose
    six entries are null; a week from 1 to the current one holds the
    statistics of the scores of the teams alive in it, and has no key when
    the week was not fetched or no team alive in it has a score; there are
    no other keys, and none occurs twice.  (With a current week below 1 the
    placeholders start at the week after it.) *)
Theorem X11_weekly_stats_by_week inp current_week :
  ∃ d, process_season_data inp current_week = Some d ∧
    NoDup (out_weekly_stats d).*1 ∧
    (∀ k, k ∈ (out_weekly_stats d).*1 →
       ∃ week, k = Py.str week ∧ Z.min 1 (current_week + 1) ≤ week ≤ Z.max current_week 17) ∧
    ∀ week,
      Py.getitem (Py.str week) (out_weekly_stats d) =
        if decide (current_week < week ≤ 17) then Some empty_stats
        else if decide (1 ≤ week ≤ current_week)
             then week_entry (teams_of inp) (scores_of inp current_week)
                    (eliminations (sim_of inp current_week)) week
             else None.
Proof.
  destruct (process_season_data_is_Some inp current_week) as [d Hd]. exists d.
  split; [done |]. rewrite process_season_data_unfold in Hd.
  apply bind_Some in Hd as (stats & Hstats & Hd). apply bind_Some in Hd as (built & _ & [= <-]).
  simpl. split_and!.
  - unfold weekly_stats_of in Hstats. apply bind_Some in Hstats as (played & Hplayed & [= <-]).
    apply placeholders_NoDup. eapply played_stats_NoDup; [exact Hplayed |]. constructor.
  - intros k Hk. unfold weekly_stats_of in Hstats.
    apply bind_Some in Hstats as (played & Hplayed & [= <-]).
    apply placeholders_keys in Hk as [Hk | (week & Hin & ->)].
    + eapply played_stats_keys in Hk as [Hk | (week & Hin & ->)]; [| | exact Hplayed].
      * by apply not_elem_of_nil in Hk.
      * exists week. split; [done |]. rewrite elem_of_range in Hin. lia.
    + exists week. split; [done |]. rewrite elem_of_range in Hin. lia.
  - intros week. by apply weekly_stats_of_lookup.
Qed.

(** ** Steps 3 and 7 agree on the chop score *)

Lemma elem_of_alive_scores teams eliminations sc week x :
  x ∈ alive_scores teams eliminations sc week ↔
  ∃ r, r ∈ teams ∧ alive eliminations week r ∧ sc !! r = Some x.
Proof.
  unfold alive_scores. rewrite list_elem_of_omap. split.
  - intros (r & Hr & Hx). apply list_elem_of_filter in Hr as [Ha Hr]. by exists r.
  - intros (r & Hr & Ha & Hx). exists r. split; [| done]. by apply list_elem_of_filter.
Qed.

Lemma stats_of_chop_score scores st :
  stats_of scores = Some st →
  ∃ low, chop_score st = Some low ∧ Py.min_by id Py.num_lt scores = Some low.
Proof.
  unfold stats_of. intros H.
  apply bind_Some in H as (high & _ & H). apply bind_Some in H as (low & Hlow & H).
  apply bind_Some in H as (p75 & _ & H). apply bind_Some in H as (med & _ & H).
  apply bind_Some in H as (p25 & _ & [= <-]). by exists low.
Qed.

Lemma out_weekly_stats_eq inp current_week d :
  process_season_data inp current_week = Some d →
  weekly_stats_of (teams_of inp) (scores_of inp current_week)
    (eliminations (sim_of inp current_week)) current_week = Some (out_weekly_stats d).
Proof.
  rewrite process_season_data_unfold. intros H.
  apply bind_Some in H as (stats & Hstats & H). by apply bind_Some in H as (built & _ & [= <-]).
Qed.

Lemma weekly_stats_chop_score inp current_week d w c :
  process_season_data inp current_week = Some d →
  chop_scores (sim_of inp current_week) !! w = Some c →
  ∃ st c', Py.getitem (Py.str w) (out_weekly_stats d) = Some st ∧
           chop_score st = Some c' ∧ (c' == c)%Q.
Proof.
  intros Hd Hc. apply out_weekly_stats_eq in Hd.
  destruct (simulate_chop_score _ _ _ _ _ Hc) as (sc & ch & s & Hsc & Hch & Hin & Hs & Heq & Hmin).
  pose proof (sim_of_chop_week_pos _ _ _ _ Hch) as Hw.
  rewrite (weekly_stats_of_lookup _ _ _ _ _ w Hd).
  rewrite decide_False by lia. rewrite decide_True by lia.
  unfold week_entry. fold (scores_of inp current_week). rewrite Hsc. simpl.
  assert (s ∈ alive_scores (teams_of inp) (eliminations (sim_of inp current_week)) sc w) as Hs_in.
  { apply elem_of_alive_scores. exists ch. split_and!; [done | | done].
    unfold alive. fold (sim_of inp current_week) in Hch. by rewrite Hch. }
  destruct (alive_scores _ _ sc w) as [| q scores] eqn:Ea; [by apply not_elem_of_nil in Hs_in |].
  destruct (stats_of_is_Some (q :: scores)) as [st Hst]; [done |].
  destruct (stats_of_chop_score _ _ Hst) as (low & Hlow & Hmin_by).
  apply min_by_scores_spec in Hmin_by as [Hlow_in Hleast].
  exists st, low. split_and!; [done | done |].
  rewrite Heq. apply Qle_antisym; [by apply Hleast |].
  rewrite <- Ea in Hlow_in. apply elem_of_alive_scores in Hlow_in as (r & Hr & Ha & Hr_low).
  by apply (Hmin r low).
Qed.

(** X12: the chop score that the elimination loop records for a week is
    the chop score shown in the statistics of that week: whenever a team was
    chopped in week [w] at score [c], the result has statistics under
    [str(w)], their [chop_score] equals [c], and it is the score that the
    team chopped in [w] has in that week. *)
Theorem X12_chop_score_in_weekly_stats inp current_week d w c :
  process_season_data inp current_week = Some d →
  chop_scores (sim_of inp current_week) !! w = Some c →
  ∃ st c' ch s,
    Py.getitem (Py.str w) (out_weekly_stats d) = Some st ∧
    chop_score st = Some c' ∧ (c' == c)%Q ∧
    eliminations (sim_of inp current_week) !! ch = Some w ∧
    scores_of inp current_week !! w ≫= (λ sc, sc !! ch) = Some s ∧ (s == c')%Q.
Proof.
  intros Hd Hc.
  destruct (weekly_stats_chop_score _ _ _ _ _ Hd Hc) as (st & c' & Hst & Hc' & Heq).
  destruct (simulate_chop_score _ _ _ _ _ Hc) as (sc & ch & s & Hsc & Hch & _ & Hs & Hcs & _).
  exists st, c', ch, s. split_and!; [done | done | done | done | |].
  - fold (scores_of inp current_week) in Hsc. rewrite Hsc. done.
  - by rewrite Heq, Hcs.
Qed.

Lemma X12_chop_score_witness :
  ∃ d, process_season_data spec_scenario 2 = Some d ∧
       chop_scores (sim_of spec_scenario 2) !! 1 = Some 80%Q ∧
       ∃ st c' ch s,
         Py.getitem (Py.str 1) (out_weekly_stats d) = Some st ∧
         chop_score st = Some c' ∧ (c' == 80)%Q ∧
         eliminations (sim_of spec_scenario 2) !! ch = Some 1 ∧
         scores_of spec_scenario 2 !! 1 ≫= (λ sc, sc !! ch) = Some s ∧ (s == c')%Q.
Proof.
  destruct (process_season_data_is_Some spec_scenario 2) as [d Hd].
  assert (chop_scores (sim_of spec_scenario 2) !! 1 = Some 80%Q) as Hc by (by vm_compute).
  exists d. split; [done |]. split; [done |].
  exact (X12_chop_score_in_weekly_stats spec_scenario 2 d 1 80%Q Hd Hc).
Defined.

(** ** [scripts/add_close_calls.py]: the chop scores read back *)

Lemma chop_scores_of_lookup weekly_stats chop_scores :
  NoDup weekly_stats.*1 →
  (∀ k, k ∈ weekly_stats.*1 → ∃ week, k = Py.str week) →
  ∃ cs, chop_scores_of weekly_stats chop_scores = Some cs ∧
        ∀ week, cs !! week =
          match Py.getitem (Py.str week) weekly_stats ≫= chop_score with
          | Some c => Some c
          | None => chop_scores !! week
          end.
Proof.
  revert chop_scores. induction weekly_stats as [| [k st] ws IH]; intros chop_scores Hnd Hkeys.
  - by exists chop_scores.
  - rewrite fmap_cons in Hnd. apply NoDup_cons in Hnd as [Hk Hnd].
    destruct (Hkeys k) as [wk ->]; [left |].
    assert (∀ k, k ∈ ws.*1 → ∃ week, k = Py.str week) as Hkeys'
      by (intros k' Hk'; apply Hkeys; by right).
    assert (Py.getitem (Py.str wk) ws = None) as Hfresh by (by apply getitem_None).
    cbn [chop_scores_of Py.getitem].
    destruct (chop_score st) as [c |] eqn:Ec.
    + rewrite int_str. cbn [mbind option_bind].
      destruct (IH (<[wk := c]> chop_scores) Hnd Hkeys') as (cs & Hcs & Hlook).
      exists cs. split; [done |]. intros week. rewrite Hlook.
      destruct (decide (Py.str wk = Py.str week)) as [Heq | Hne].
      * apply str_inj in Heq as ->. rewrite Hfresh. cbn [mbind option_bind]. rewrite Ec.
        apply lookup_insert_eq.
      * destruct (Py.getitem (Py.str week) ws ≫= chop_score); [done |].
        rewrite lookup_insert_ne; [done |]. by intros ->.
    + destruct (IH chop_scores Hnd Hkeys') as (cs & Hcs & Hlook).
      exists cs. split; [done |]. intros week. rewrite Hlook.
      destruct (decide (Py.str wk = Py.str week)) as [Heq | Hne]; [| done].
      apply str_inj in Heq as ->. rewrite Hfresh. cbn [mbind option_bind]. by rewrite Ec.
Qed.

Lemma out_weekly_stats_keys inp current_week d :
  process_season_data inp current_week = Some d →
  NoDup (out_weekly_stats d).*1 ∧
  ∀ k, k ∈ (out_weekly_stats d).*1 → ∃ week, k = Py.str week.
Proof.
  intros Hd. apply out_weekly_stats_eq in Hd. unfold weekly_stats_of in Hd.
  apply bind_Some in Hd as (played & Hplayed & [= <-]). split.
  - apply placeholders_NoDup. eapply played_stats_NoDup; [exact Hplayed |]. constructor.
  - intros k Hk. apply placeholders_keys in Hk as [Hk | (week & _ & ->)]; [| by exists week].
    eapply played_stats_keys in Hk as [Hk | (week & _ & ->)]; [| | exact Hplayed].
    + by apply not_elem_of_nil in Hk.
    + by exists week.
Qed.

(** X13: the repair script [add_close_calls.py] reads the chop scores back
    from the [weekly_stats] of a result without raising; the score it holds
    for a week is the [chop_score] of the statistics under [str(week)], it
    holds none for a placeholder or a week without statistics, and for a
    week in which a team was chopped it is the score the elimination loop
    recorded. *)
Theorem X13_chop_scores_read_back inp current_week :
  ∃ d cs, process_season_data inp current_week = Some d ∧
    chop_scores_of (out_weekly_stats d) ∅ = Some cs ∧
    (∀ week, cs !! week = Py.getitem (Py.str week) (out_weekly_stats d) ≫= chop_score) ∧
    ∀ week c, chop_scores (sim_of inp current_week) !! week = Some c →
      ∃ c', cs !! week = Some c' ∧ (c' == c)%Q.
Proof.
  destruct (process_season_data_is_Some inp current_week) as [d Hd].
  destruct (out_weekly_stats_keys _ _ _ Hd) as [Hnd Hkeys].
  destruct (chop_scores_of_lookup (out_weekly_stats d) ∅ Hnd Hkeys) as (cs & Hcs & Hlook).
  assert (∀ week, cs !! week = Py.getitem (Py.str week) (out_weekly_stats d) ≫= chop_score)
    as Hlook'.
  { intros week. rewrite Hlook.
    by destruct (Py.getitem (Py.str week) (out_weekly_stats d) ≫= chop_score). }
  exists d, cs. split_and!; [done | done | done |].
  intros week c Hc.
  destruct (weekly_stats_chop_score _ _ _ _ _ Hd Hc) as (st & c' & Hst & Hc' & Heq).
  exists c'. split; [| done]. rewrite Hlook', Hst. done.
Qed.

(** ** The week of a live season *)

Lemma get_current_week_bounds league w : get_current_week league = Some w → 1 ≤ w ≤ 17.
Proof.
  unfold get_current_week. destruct league as [l |]; [| intros [= <-]; lia].
  case_decide; [intros [= <-]; lia |].
  destruct (league_settings l) as [s |]; [| done]. simpl.
  destruct (settings_leg s) as [cw |]; [| intros [= <-]; lia].
  case_decide; intros [= <-]; lia.
Qed.

(** X14: the week that a live season is processed with lies between 1 and
    17.  The client's [get_current_week] answers 17 for a league whose
    status is complete, otherwise the leg of the settings when that is
    between 1 and 17, and 1 in every other case; it raises only on null
    settings of a league that is not complete.  A week asked for in the
    query is clamped to 1..17, and the client's week is not changed by the
    clamp. *)
Theorem X14_week_of_live_season week league :
  match season_week week league with
  | Some w =>
      1 ≤ w ≤ 17 ∧
      match week with
      | Some asked => w = Z.max 1 (Z.min 17 asked)
      | None =>
          get_current_week league = Some w ∧
          match league with
          | None => w = 1
          | Some l =>
              if decide (league_status l = Some "complete"%string) then w = 17
              else match league_settings l with
                   | Some (JInt leg) => if decide (1 ≤ leg ≤ 17) then w = leg else w = 1
                   | _ => w = 1
                   end
          end
      end
  | None =>
      week = None ∧
      ∃ l, league = Some l ∧ league_status l ≠ Some "complete"%string ∧
           league_settings l = None
  end.
Proof.
  unfold season_week. destruct week as [asked |]; simpl; [split; [lia | done] |].
  destruct (get_current_week league) as [w |] eqn:E; simpl.
  - pose proof (get_current_week_bounds _ _ E) as Hw.
    replace (Z.max 1 (Z.min 17 w)) with w by lia. split; [done |]. split; [done |].
    unfold get_current_week in E. destruct league as [l |]; [| by injection E].
    destruct (decide (league_status l = Some "complete"%string)); [by injection E |].
    destruct (league_settings l) as [[| | leg] |]; simpl in E; [| by injection E | | done].
    + by destruct (decide (1 ≠ 0 ∧ 1 ≤ 1 ≤ 17)); injection E.
    + destruct (decide (1 ≤ leg ≤ 17)).
      * rewrite decide_True in E by lia. by injection E.
      * rewrite decide_False in E by lia. by injection E.
  - split; [done |]. unfold get_current_week in E. destruct league as [l |]; [| done].
    exists l. destruct (decide (league_status l = Some "complete"%string)); [done |].
    destruct (league_settings l) as [s |]; [| done]. simpl in E.
    destruct (settings_leg s); [by case_decide | done].
Qed.

(** ** The finish position shown in a manager's profile *)

(** X15: for a record of a result, the profile's finish position is the
    one step 10 stored; and for a record that carries the same chop week but
    no finish position, as in older data, the profile computes that same
    position from the chop week. *)
Theorem X15_profile_finish_agrees inp current_week :
  ∃ d, process_season_data inp current_week = Some d ∧
    ∀ m, m ∈ out_managers d →
      is_Some (finish_position m) ∧
      profile_finish (Z.of_nat (length (out_managers d))) m = finish_position m ∧
      ∀ m', chop_week m' = chop_week m → finish_position m' = None →
        profile_finish (Z.of_nat (length (out_managers d))) m' = finish_position m.
Proof.
  destruct (process_season_data_is_Some inp current_week) as [d Hd]. exists d.
  split; [done |]. destruct (out_managers_roster_ids _ _ _ Hd) as [_ Hlen]. rewrite Hlen.
  intros m Hm.
  destruct (process_season_data_managers _ _ _ _ Hd Hm) as (r & m0 & Hr & Hb & ->).
  apply built_manager_fields in Hb as (_ & _ & Hchop & _).
  unfold profile_finish. simpl. rewrite Hchop.
  destruct (eliminations (sim_of inp current_week) !! r.1) as [w |] eqn:E.
  - pose proof (sim_of_chop_week_le_teams _ _ _ _ E) as Hw.
    split; [by eexists |]. split.
    + rewrite bool_decide_eq_true_2 by lia. done.
    + intros m' -> ->. simpl. rewrite bool_decide_eq_true_2 by lia. done.
  - split; [by eexists |]. split; [done |]. by intros m' -> ->.
Qed.

(** ** The champion of a result *)

Lemma getitem_Some_elem {K V} `{EqDecision K} (k : K) (v : V) (d : list (K * V)) :
  NoDup d.*1 → Py.getitem k d = Some v ↔ (k, v) ∈ d.
Proof.
  intros Hnd. split; [apply getitem_elem_of |].
  induction d as [| [k0 v0] d IH]; [by intros ?%not_elem_of_nil |].
  rewrite fmap_cons in Hnd. apply NoDup_cons in Hnd as [Hk Hnd].
  intros Hin. apply elem_of_cons in Hin as [[= <- <-] | Hin]; simpl.
  - by rewrite decide_True.
  - rewrite decide_False; [by apply IH |].
    intros ->. apply Hk, list_elem_of_fmap. by exists (k, v).
Qed.

(** X16: the champion of a result is the user name of the record of the
    winner's roster id; there is no champion when the league names no
    winner, names roster 0, or names a roster id that no record carries.
    The chop week of that record plays no part. *)
Theorem X16_champion_is_the_winners_name inp current_week :
  ∃ d, process_season_data inp current_week = Some d ∧
    ∀ name, out_champion d = Some name ↔
      ∃ w m, in_winner_roster_id inp = Some w ∧ w ≠ 0 ∧
             m ∈ out_managers d ∧ roster_id m = w ∧ user_name m = name.
Proof.
  destruct (process_season_data_is_Some inp current_week) as [d Hd]. exists d.
  split; [done |]. intros name.
  assert (out_champion d =
          match in_winner_roster_id inp with
          | Some w => if decide (w = 0) then None else Py.getitem w (roster_of inp)
          | None => None
          end) as ->.
  { rewrite process_season_data_unfold in Hd.
    apply bind_Some in Hd as (stats & _ & Hd). by apply bind_Some in Hd as (built & _ & [= <-]). }
  pose proof (roster_of_keys_NoDup inp) as Hnd. unfold teams_of in Hnd.
  assert (∀ w, Py.getitem w (roster_of inp) = Some name ↔
               ∃ m, m ∈ out_managers d ∧ roster_id m = w ∧ user_name m = name) as Hget.
  { intros w. rewrite getitem_Some_elem by done. split.
    - intros Hin. pose proof Hd as Hd'.
      apply process_season_data_built in Hd' as (built & Hbuilt & Hout).
      apply mapM_Some in Hbuilt. apply list_elem_of_lookup in Hin as [i Hi].
      destruct (Forall2_lookup_l _ _ _ _ _ Hbuilt Hi) as (m0 & Hm0 & Hb).
      apply built_manager_fields in Hb as (Hname & Hrid & _).
      exists (with_finish_position
                (Z.of_nat (length (Py.sorted display_key display_lt false built))) m0).
      split_and!; [| done | done].
      rewrite Hout. unfold assign_finish_positions.
      apply list_elem_of_fmap. exists m0. split; [done |].
      rewrite sorted_Permutation. by eapply list_elem_of_lookup_2.
    - intros (m & Hm & <- & <-).
      destruct (process_season_data_managers _ _ _ _ Hd Hm) as (r & m0 & Hr & Hb & ->).
      apply built_manager_fields in Hb as (Hname & Hrid & _). simpl.
      rewrite Hname, Hrid. by destruct r. }
  destruct (in_winner_roster_id inp) as [w |].
  - destruct (decide (w = 0)) as [-> | Hw].
    + split; [done |]. by intros (w & m & [= <-] & ? & _).
    + rewrite Hget. split.
      * intros (m & ? & ? & ?). by exists w, m.
      * intros (w' & m & [= <-] & _ & ? & ? & ?). by exists m.
  - split; [done |]. by intros (w & m & ? & _).
Qed.

(** ** Step 4: draft positions *)

Lemma draft_positions_fold (draft_picks : list draft_pick) (dp : gmap Z Z) (rid : Z) :
  foldl (λ (draft_positions : gmap Z Z) (pick : draft_pick),
           if decide (pick_round pick = Some 1)
           then match pick_roster_id pick, pick_no pick with
                | Some roster_id, Some no =>
                    if truthy (Some roster_id) && truthy (Some no)
                    then <[roster_id := no]> draft_positions
                    else draft_positions
                | _, _ => draft_positions
                end
           else draft_positions) dp draft_picks !! rid =
    match last (omap (first_round_pick rid) draft_picks) with
    | Some no => Some no
    | None => dp !! rid
    end.
Proof.
  revert dp. induction draft_picks as [| p picks IH]; intros dp; [done |].
  cbn [foldl]. rewrite IH. csimpl. unfold first_round_pick at 2.
  destruct (decide (pick_round p = Some 1)) as [Hround | Hround].
  - destruct (pick_roster_id p) as [r |] eqn:Er.
    + destruct (pick_no p) as [no |] eqn:En.
      * simpl. destruct (decide (r = rid)) as [-> | Hne].
        -- destruct (decide (rid = 0)) as [-> | Hz].
           ++ rewrite bool_decide_eq_false_2 by (intros ?; done). simpl.
              rewrite decide_False by (intros (_ & _ & ?); done). done.
           ++ rewrite bool_decide_eq_true_2 by done. simpl.
              rewrite decide_True by done.
              destruct (decide (no = 0)) as [-> | Hno].
              ** rewrite bool_decide_eq_false_2 by (intros ?; done).
                 rewrite decide_False by (intros ?; done). done.
              ** rewrite bool_decide_eq_true_2 by done. rewrite decide_True by done.
                 rewrite last_cons.
                 destruct (last (omap (first_round_pick rid) picks)); [done |].
                 apply lookup_insert_eq.
        -- rewrite decide_False by (intros (_ & [= ?] & _); done).
           destruct (bool_decide (r ≠ 0) && bool_decide (no ≠ 0)); [| done].
           by rewrite lookup_insert_ne.
      * destruct (decide (pick_round p = Some 1 ∧ Some r = Some rid ∧ rid ≠ 0)); done.
    + rewrite decide_False by (intros (_ & ? & _); done). done.
  - rewrite decide_False by (intros (? & _); done). done.
Qed.

(** X17: the draft position kept for a roster is the pick number of its
    last pick of round 1 whose roster id and pick number are both non-zero;
    picks of other rounds never count, and neither roster 0 nor pick
    number 0 is ever recorded. *)
Theorem X17_draft_position_is_last_first_round_pick draft_picks rid :
  draft_positions_of draft_picks !! rid = last (omap (first_round_pick rid) draft_picks) ∧
  draft_positions_of draft_picks !! 0 = None ∧
  draft_positions_of draft_picks !! rid ≠ Some 0.
Proof.
  assert (∀ rid, draft_positions_of draft_picks !! rid =
                 last (omap (first_round_pick rid) draft_picks)) as Hlook.
  { clear rid. intros rid. unfold draft_positions_of. rewrite draft_positions_fold.
    by destruct (last _). }
  split; [apply Hlook |].
  assert (∀ r no, last (omap (first_round_pick r) draft_picks) = Some no → r ≠ 0 ∧ no ≠ 0) as Hnz.
  { intros r no Hlast. apply last_Some_elem_of in Hlast.
    apply list_elem_of_omap in Hlast as (p & _ & Hp). unfold first_round_pick in Hp.
    case_decide as Hc; [| done]. destruct Hc as (_ & _ & Hr).
    destruct (pick_no p) as [no' |]; [| done]. case_decide; [| done]. by injection Hp as <-. }
  split.
  - rewrite Hlook. destruct (last _) as [no |] eqn:E; [| done]. by apply Hnz in E as [? _].
  - rewrite Hlook. intros E. by apply Hnz in E as [_ ?].
Qed.

(** ** The records of a result and the eliminations *)

Lemma out_managers_record inp current_week d m :
  process_season_data inp current_week = Some d → m ∈ out_managers d →
  (roster_id m, user_name m) ∈ roster_of inp ∧
  chop_week m = eliminations (sim_of inp current_week) !! roster_id m ∧
  weekly_scores m =
    weekly_scores_dict (scores_of inp current_week) current_week (chop_week m) (roster_id m).
Proof.
  intros Hd Hm.
  destruct (process_season_data_managers _ _ _ _ Hd Hm) as (r & m0 & Hr & Hb & ->).
  apply built_manager_fields in Hb as (Hname & Hrid & Hchop & _ & _ & Hws & _). simpl.
  rewrite Hname, Hrid, Hchop, Hws. split_and!; [by destruct r | done | done].
Qed.

Lemma out_managers_of_roster inp current_week d r :
  process_season_data inp current_week = Some d → r ∈ teams_of inp →
  ∃ m, m ∈ out_managers d ∧ roster_id m = r.
Proof.
  intros Hd Hr. destruct (out_managers_roster_ids _ _ _ Hd) as [Hperm _].
  rewrite <- Hperm in Hr. apply list_elem_of_fmap in Hr as (m & -> & Hm). by exists m.
Qed.

Lemma out_managers_roster_inj inp current_week d m1 m2 :
  process_season_data inp current_week = Some d →
  m1 ∈ out_managers d → m2 ∈ out_managers d → roster_id m1 = roster_id m2 → m1 = m2.
Proof.
  intros Hd Hm1 Hm2 Heq. destruct (out_managers_roster_ids _ _ _ Hd) as [Hperm _].
  assert (NoDup (roster_id <$> out_managers d)) as Hnd
    by (rewrite Hperm; apply roster_of_keys_NoDup).
  apply list_elem_of_lookup in Hm1 as [i Hi]. apply list_elem_of_lookup in Hm2 as [j Hj].
  assert (i = j) as ->; [| congruence].
  eapply NoDup_lookup; [exact Hnd | |].
  - by rewrite list_lookup_fmap, Hi.
  - rewrite list_lookup_fmap, Hj. simpl. by rewrite Heq.
Qed.

Lemma sim_of_chopped_in_teams inp current_week r w :
  eliminations (sim_of inp current_week) !! r = Some w → r ∈ teams_of inp.
Proof.
  intros H. pose proof (simulate_inv (teams_of inp) (scores_of inp current_week) current_week)
    as Hinv.
  apply (elem_of_list_to_set (C := gset Z)). apply (inv_dom _ _ _ Hinv). by apply elem_of_dom.
Qed.

(** X20: the scan by which the chopped-players endpoint finds the roster
    chopped in a week, run on the records of a result, finds exactly the
    roster that the elimination loop chopped in that week, and nothing for
    a week without a chop. *)
Theorem X20_chopped_roster_of_week inp current_week :
  ∃ d, process_season_data inp current_week = Some d ∧
    ∀ w r, chopped_roster_of (out_managers d) w = Some r ↔
           eliminations (sim_of inp current_week) !! r = Some w.
Proof.
  destruct (process_season_data_is_Some inp current_week) as [d Hd]. exists d.
  split; [done |]. intros w r. unfold chopped_roster_of. split.
  - intros H. apply fmap_Some in H as ([i m] & Hf & ->).
    apply list_find_Some in Hf as (Hi & Hw & _). simpl in *.
    apply list_elem_of_lookup_2 in Hi.
    destruct (out_managers_record _ _ _ _ Hd Hi) as (_ & Hchop & _). congruence.
  - intros Hr.
    destruct (out_managers_of_roster _ _ _ r Hd) as (m & Hm & Hrid);
      [by eapply sim_of_chopped_in_teams |].
    destruct (out_managers_record _ _ _ _ Hd Hm) as (_ & Hchop & _).
    rewrite Hrid, Hr in Hchop.
    destruct (list_find_elem_of (λ m, chop_week m = Some w) (out_managers d) m Hm Hchop)
      as [[i m'] Hf].
    rewrite Hf. simpl. f_equal.
    apply list_find_Some in Hf as (Hi & Hw & _). simpl in *.
    apply list_elem_of_lookup_2 in Hi.
    destruct (out_managers_record _ _ _ _ Hd Hi) as (_ & Hchop' & _).
    rewrite Hw in Hchop'.
    pose proof (simulate_inv (teams_of inp) (scores_of inp current_week) current_week) as Hinv.
    by apply (inv_inj _ _ _ Hinv _ _ w).
Qed.

(** ** The elimination order of the recap *)

Lemma truthy_Some x : truthy x = true ↔ ∃ n, x = Some n ∧ n ≠ 0.
Proof.
  destruct x as [n |]; simpl.
  - rewrite bool_decide_eq_true. split; [intros ?; by exists n | by intros (? & [= <-] & ?)].
  - split; [done | by intros (? & ? & _)].
Qed.

Lemma seqZ_StronglySorted m n : StronglySorted Z.le (seqZ m n).
Proof.
  destruct (decide (0 ≤ n)) as [Hn | Hn]; [| rewrite seqZ_nil by lia; constructor].
  rewrite <- (Z2Nat.id n) by done. generalize (Z.to_nat n). clear. intros k. revert m.
  induction k as [| k IH]; intros m; [constructor |].
  rewrite seqZ_cons by lia. replace (Z.pred (Z.of_nat (S k))) with (Z.of_nat k) by lia.
  constructor; [apply IH |]. apply Forall_forall. intros x Hx. rewrite elem_of_seqZ in Hx. lia.
Qed.

Lemma sorted_by_week_StronglySorted (l : list manager) :
  StronglySorted Z.le
    ((λ m, default 0 (chop_week m)) <$>
       Py.sorted (λ m, default 0 (chop_week m)) Z.ltb false l).
Proof.
  assert (StronglySorted (λ a b : manager, default 0 (chop_week a) ≤ default 0 (chop_week b))
            (Py.sorted (λ m, default 0 (chop_week m)) Z.ltb false l)) as Hs.
  { apply sorted_StronglySorted.
    - intros y x H. simpl in H. apply Z.ltb_lt in H. lia.
    - intros y x H. simpl in H. apply Z.ltb_ge in H. lia.
    - intros a b c. lia. }
  induction Hs as [| x l' Hl IH Hx]; [constructor |].
  rewrite fmap_cons. constructor; [done |].
  apply Forall_fmap. eapply Forall_impl; [exact Hx |]. done.
Qed.

Lemma eliminated_weeks inp current_week d :
  process_season_data inp current_week = Some d →
  (λ m, default 0 (chop_week m)) <$>
    Py.sorted (λ m, default 0 (chop_week m)) Z.ltb false
      (filter (λ m, truthy (chop_week m)) (out_managers d)) =
    seqZ 1 (Z.of_nat (size (eliminations (sim_of inp current_week)))).
Proof.
  intros Hd.
  pose proof (simulate_inv (teams_of inp) (scores_of inp current_week) current_week) as Hinv.
  pose proof (simulate_chop_weeks (teams_of inp) (scores_of inp current_week) current_week)
    as Hdense.
  apply (StronglySorted_unique_strong Z.le).
  - intros. lia.
  - apply sorted_by_week_StronglySorted.
  - apply seqZ_StronglySorted.
  - rewrite sorted_Permutation. apply NoDup_Permutation.
    + apply NoDup_fmap_2_strong.
      * intros m1 m2 Hm1 Hm2 Heq.
        apply list_elem_of_filter in Hm1 as [Ht1 Hm1]. apply list_elem_of_filter in Hm2 as [Ht2 Hm2].
        apply Is_true_true, truthy_Some in Ht1 as (w1 & Hw1 & _).
        apply Is_true_true, truthy_Some in Ht2 as (w2 & Hw2 & _).
        rewrite Hw1, Hw2 in Heq. simpl in Heq. subst w2.
        destruct (out_managers_record _ _ _ _ Hd Hm1) as (_ & Hc1 & _).
        destruct (out_managers_record _ _ _ _ Hd Hm2) as (_ & Hc2 & _).
        rewrite Hw1 in Hc1. rewrite Hw2 in Hc2.
        eapply out_managers_roster_inj; [done | done | done |].
        by apply (inv_inj _ _ _ Hinv _ _ w1).
      * apply NoDup_filter. apply (NoDup_fmap_1 roster_id).
        destruct (out_managers_roster_ids _ _ _ Hd) as [Hperm _]. rewrite Hperm.
        apply roster_of_keys_NoDup.
    + apply NoDup_seqZ.
    + intros w. rewrite elem_of_seqZ. rewrite list_elem_of_fmap. split.
      * intros (m & -> & Hm). apply list_elem_of_filter in Hm as [Ht Hm].
        apply Is_true_true, truthy_Some in Ht as (w & Hw & _). rewrite Hw. simpl.
        destruct (out_managers_record _ _ _ _ Hd Hm) as (_ & Hc & _). rewrite Hw in Hc.
        assert (1 ≤ w ≤ Z.of_nat (size (eliminations (sim_of inp current_week)))) as Hb
          by (apply Hdense; by exists (roster_id m)).
        lia.
      * intros Hw. destruct (proj2 (Hdense w)) as [r Hr]; [unfold sim_of in Hw; lia |].
        destruct (out_managers_of_roster _ _ _ r Hd) as (m & Hm & Hrid);
          [by eapply sim_of_chopped_in_teams |].
        destruct (out_managers_record _ _ _ _ Hd Hm) as (_ & Hc & _).
        rewrite Hrid in Hc. fold (sim_of inp current_week) in Hr. rewrite Hr in Hc.
        exists m. rewrite Hc. split; [done |]. apply list_elem_of_filter. split; [| done].
        rewrite Hc. simpl. apply bool_decide_pack. lia.
Qed.

(** X18: the elimination order of the recap of a result lists the weeks
    1, 2, ..., k in this order, one entry for each team chopped; an entry
    names the team chopped in its week, and for a week up to 17 its score is
    the chop score recorded for that week. *)
Theorem X18_elimination_order_of_recap inp current_week :
  ∃ d, process_season_data inp current_week = Some d ∧
    (elimination_order (out_managers d)).*1.*1 =
      seqZ 1 (Z.of_nat (size (eliminations (sim_of inp current_week)))) ∧
    ∀ w name score, (w, name, score) ∈ elimination_order (out_managers d) →
      ∃ r, eliminations (sim_of inp current_week) !! r = Some w ∧
           (r, name) ∈ roster_of inp ∧
           (w ≤ 17 → ∃ s c, score = Some s ∧
                            chop_scores (sim_of inp current_week) !! w = Some c ∧ (s == c)%Q).
Proof.
  destruct (process_season_data_is_Some inp current_week) as [d Hd]. exists d.
  split; [done |]. split.
  - unfold elimination_order. rewrite <- !list_fmap_compose.
    rewrite <- (eliminated_weeks _ _ _ Hd). done.
  - intros w name score Hin. unfold elimination_order in Hin.
    apply list_elem_of_fmap in Hin as (m & Heq & Hm).
    rewrite sorted_Permutation in Hm. apply list_elem_of_filter in Hm as [Ht Hm].
    apply Is_true_true, truthy_Some in Ht as (w' & Hw' & _). rewrite Hw' in Heq. simpl in Heq.
    injection Heq as -> -> ->.
    destruct (out_managers_record _ _ _ _ Hd Hm) as (Hroster & Hchop & Hws).
    rewrite Hw' in Hchop. exists (roster_id m). split_and!; [done | done |].
    intros H17. pose proof (sim_of_chop_week_pos _ _ _ _ (eq_sym Hchop)) as Hpos.
    pose proof (simulate_inv (teams_of inp) (scores_of inp current_week) current_week) as Hinv.
    destruct (proj2 (inv_chops _ _ _ Hinv w')) as [c Hc]; [by exists (roster_id m) |].
    destruct (simulate_chop_score _ _ _ _ _ Hc) as (sc & ch & s & Hsc & Hch & _ & Hs & Hcs & _).
    assert (ch = roster_id m) as -> by (by apply (inv_inj _ _ _ Hinv _ _ w')).
    exists s, c. split_and!; [| done | by symmetry].
    rewrite Hws, Hw', weekly_scores_dict_lookup by lia. simpl.
    unfold shown_score. rewrite decide_True by lia. rewrite decide_True by lia.
    fold (scores_of inp current_week) in Hsc. rewrite Hsc. simpl. done.
Qed.

(** ** The close calls and blowouts of the recap *)

Lemma round_half_even_nonneg x : (0 <= x)%Q → 0 ≤ Py.round_half_even x.
Proof.
  intros Hx. unfold Py.round_half_even.
  assert (0 ≤ Qfloor x) as Hf by (apply (Qfloor_resp_le 0 x Hx)).
  destruct (_ ?= _)%Q; [destruct (Z.even _) | |]; lia.
Qed.

Lemma round_nonneg x ndigits : (0 <= x)%Q → (0 <= Py.round x ndigits)%Q.
Proof.
  intros Hx. unfold Py.round. destruct ndigits as [| n].
  - change 0%Q with (inject_Z 0). rewrite <- Zle_Qle. by apply round_half_even_nonneg.
  - unfold Qle. simpl. rewrite Z.mul_1_r. apply round_half_even_nonneg.
    apply Qmult_le_0_compat; [done |]. by change 0%Q with (inject_Z 0); rewrite <- Zle_Qle.
Qed.


Lemma recap_weeks_inv managers (PC : close_call → Prop) (PB : blowout → Prop)
    weekly_stats close_calls biggest_blowouts :
  (∀ k, k ∈ weekly_stats.*1 → ∃ week, k = Py.str week) →
  (∀ week stats chopped survivor others,
     (Py.str week, stats) ∈ weekly_stats → truthy_score (chop_score stats) = true →
     Py.sorted (λ x : string * Q * bool, x.1.2) Py.num_lt false
       (recap_week_scores managers (Py.str week) week) = chopped :: survivor :: others →
     (Py.num_lt (Py.round (survivor.1.2 - chopped.1.2) 2) 5 = true →
      PC (CloseCall week survivor.1.1 survivor.1.2 chopped.1.1 chopped.1.2
           (Py.round (survivor.1.2 - chopped.1.2) 2))) ∧
     (Py.num_lt 20 (Py.round (survivor.1.2 - chopped.1.2) 2) = true →
      PB (Blowout week chopped.1.1 chopped.1.2 (Py.round (survivor.1.2 - chopped.1.2) 2)))) →
  Forall PC close_calls → Forall PB biggest_blowouts →
  ∃ ccs bos, recap_weeks managers weekly_stats close_calls biggest_blowouts = Some (ccs, bos) ∧
             Forall PC ccs ∧ Forall PB bos.
Proof.
  revert close_calls biggest_blowouts.
  induction weekly_stats as [| [week_str stats] rest IH]; intros ccs bos Hkeys Hstep Hcc Hbo.
  - by exists ccs, bos.
  - assert (∀ k, k ∈ rest.*1 → ∃ week, k = Py.str week) as Hkeys'
      by (intros k Hk; apply Hkeys; by right).
    assert (∀ ccs' bos', Forall PC ccs' → Forall PB bos' →
              ∃ ccs0 bos0, recap_weeks managers rest ccs' bos' = Some (ccs0, bos0) ∧
                           Forall PC ccs0 ∧ Forall PB bos0) as IH'.
    { intros ccs' bos' Hcc' Hbo'. apply IH; [done | | done | done].
      intros week stats' chopped survivor others Hin. apply Hstep. by right. }
    destruct (Hkeys week_str) as [week ->]; [left |].
    cbn [recap_weeks]. rewrite int_str. cbn [mbind option_bind].
    destruct (truthy_score (chop_score stats)) eqn:Et; [| by apply IH'].
    destruct (Py.sorted _ _ _ _) as [| chopped [| survivor others]] eqn:Es;
      [by apply IH' | by apply IH' |].
    destruct (Hstep week stats chopped survivor others) as [HP HQ]; [left | done | done |].
    apply IH'.
    + destruct (Py.num_lt _ 5) eqn:E; [| done].
      apply Forall_app. split; [done |]. apply Forall_singleton. by apply HP.
    + destruct (Py.num_lt 20 _) eqn:E; [| done].
      apply Forall_app. split; [done |]. apply Forall_singleton. by apply HQ.
Qed.







(** ** Shown scores and the statistics of their week *)

Lemma stats_of_bounds scores st :
  stats_of scores = Some st →
  ∃ low high, chop_score st = Some low ∧ high_score st = Some high ∧
              ∀ x, x ∈ scores → (low <= x)%Q ∧ (x <= high)%Q.
Proof.
  unfold stats_of. intros H.
  apply bind_Some in H as (high & Hhigh & H). apply bind_Some in H as (low & Hlow & H).
  apply bind_Some in H as (p75 & _ & H). apply bind_Some in H as (med & _ & H).
  apply bind_Some in H as (p25 & _ & [= <-]). exists low, high. simpl.
  split_and!; [done | done |]. intros x Hx.
  apply min_by_scores_spec in Hlow as [_ Hlow]. apply max_by_spec in Hhigh as [_ Hhigh].
  split; [by apply Hlow | by apply Hhigh].
Qed.

Lemma weekly_scores_key inp current_week d m week v :
  process_season_data inp current_week = Some d → m ∈ out_managers d →
  weekly_scores m !! Py.str week = Some v → 1 ≤ week ≤ 17.
Proof.
  intros Hd Hm Hv. destruct (out_managers_record _ _ _ _ Hd Hm) as (_ & _ & Hws).
  assert (Py.str week ∈ dom (weekly_scores m)) as Hdom by (apply elem_of_dom; by eexists).
  rewrite Hws, weekly_scores_dict_dom in Hdom.
  apply elem_of_list_to_set, list_elem_of_fmap in Hdom as (w & Heq & Hw).
  apply str_inj in Heq as ->. rewrite elem_of_seqZ in Hw. lia.
Qed.

(** X21: a score shown for a team in a week lies within the statistics of
    that week: whenever a record of a result holds a score under
    [str(week)], the result has statistics for that week, and the score is
    at least their chop score and at most their high score. *)
Theorem X21_shown_score_within_week_stats inp current_week d m week s :
  process_season_data inp current_week = Some d → m ∈ out_managers d →
  weekly_scores m !! Py.str week = Some (Some s) →
  ∃ st low high, Py.getitem (Py.str week) (out_weekly_stats d) = Some st ∧
                 chop_score st = Some low ∧ high_score st = Some high ∧
                 (low <= s)%Q ∧ (s <= high)%Q.
Proof.
  intros Hd Hm Hs. pose proof (weekly_scores_key _ _ _ _ _ _ Hd Hm Hs) as Hweek.
  destruct (out_managers_record _ _ _ _ Hd Hm) as (Hroster & Hchop & Hws).
  rewrite Hws, weekly_scores_dict_lookup in Hs by done. injection Hs as Hs.
  unfold shown_score in Hs. destruct (decide (week ≤ current_week)) as [Hcw | Hcw]; [| done].
  assert (alive (eliminations (sim_of inp current_week)) week (roster_id m) ∧
          default ∅ (scores_of inp current_week !! week) !! roster_id m = Some s) as [Ha Hsc].
  { unfold alive. rewrite <- Hchop. destruct (chop_week m) as [w |]; [| done].
    by destruct (decide (week ≤ w)). }
  destruct (scores_of inp current_week !! week) as [sc |] eqn:Esc; simpl in Hsc;
    [| by rewrite lookup_empty in Hsc].
  assert (s ∈ alive_scores (teams_of inp) (eliminations (sim_of inp current_week)) sc week)
    as Hin.
  { apply elem_of_alive_scores. exists (roster_id m). split_and!; [| done | done].
    apply list_elem_of_fmap. by exists (roster_id m, user_name m). }
  apply out_weekly_stats_eq in Hd.
  rewrite (weekly_stats_of_lookup _ _ _ _ _ week Hd).
  rewrite decide_False by lia. rewrite decide_True by lia.
  unfold week_entry. rewrite Esc. simpl.
  destruct (alive_scores _ _ sc week) as [| q scores] eqn:Ea; [by apply not_elem_of_nil in Hin |].
  destruct (stats_of_is_Some (q :: scores)) as [st Hst]; [done |].
  destruct (stats_of_bounds _ _ Hst) as (low & high & Hlow & Hhigh & Hb).
  exists st, low, high. split_and!; [done | done | done | by apply Hb | by apply Hb].
Qed.

Lemma X21_shown_score_witness :
  ∃ d m, process_season_data spec_scenario 2 = Some d ∧ m ∈ out_managers d ∧
    weekly_scores m !! Py.str 1 = Some (Some 80%Q) ∧
    ∃ st low high, Py.getitem (Py.str 1) (out_weekly_stats d) = Some st ∧
                   chop_score st = Some low ∧ high_score st = Some high ∧
                   (low <= 80)%Q ∧ (80 <= high)%Q.
Proof.
  destruct (pipeline_record_at spec_scenario 2 0 (λ m, weekly_scores m !! Py.str 1)
              (Some (Some 80%Q))) as (d & m & Hd & Hm & Hs); [by vm_compute |].
  apply list_elem_of_lookup_2 in Hm.
  exists d, m. split; [done |]. split; [done |]. split; [done |].
  exact (X21_shown_score_within_week_stats spec_scenario 2 d m 1 80%Q Hd Hm Hs).
Defined.

(** ** Bounds on the average position and on the close calls *)

Lemma round_half_even_le x z : (x <= inject_Z z)%Q → Py.round_half_even x ≤ z.
Proof.
  intros Hx. unfold Py.round_half_even.
  assert (Qfloor x ≤ z) as Hf by (rewrite <- (Qfloor_Z z); by apply Qfloor_resp_le).
  destruct (decide (Qfloor x = z)) as [Heq | Hne].
  - assert (x - inject_Z (Qfloor x) <= 0)%Q as H0 by (rewrite Heq; lra).
    destruct (_ ?= _)%Q eqn:E; [| lia |].
    + apply Qeq_alt in E. lra.
    + apply Qgt_alt in E. lra.
  - destruct (_ ?= _)%Q; [destruct (Z.even _) | |]; lia.
Qed.

Lemma round_le_int x z ndigits : (x <= inject_Z z)%Q → (Py.round x ndigits <= inject_Z z)%Q.
Proof.
  intros Hx. unfold Py.round. destruct ndigits as [| n].
  - rewrite <- Zle_Qle. by apply round_half_even_le.
  - unfold Qle. cbn [Qnum Qden inject_Z]. rewrite Z.mul_1_r. apply round_half_even_le.
    rewrite inject_Z_mult. apply Qmult_le_compat_r; [done |].
    by change 0%Q with (inject_Z 0); rewrite <- Zle_Qle.
Qed.

Lemma sum_bounds (l : list Z) B :
  Forall (λ p, 0 ≤ p ≤ B) l → 0 ≤ Py.sum l ≤ B * Z.of_nat (length l).
Proof.
  induction 1 as [| p l Hp _ IH]; [simpl; lia |].
  unfold Py.sum in *. cbn [foldr]. rewrite length_cons. lia.
Qed.

Lemma omap_length_le {A B} (f : A → option B) (l : list A) :
  (length (omap f l) ≤ length l)%nat.
Proof. induction l as [| x l IH]; [done |]. csimpl. destruct (f x); simpl; lia. Qed.

Lemma ranked_scores_length teams eliminations sc week :
  (length (ranked_scores teams eliminations sc week) ≤ length teams)%nat.
Proof.
  unfold ranked_scores. rewrite sorted_length. unfold week_scores_of.
  etrans; [apply omap_length_le |]. apply length_filter.
Qed.

Lemma positions_above_chop_bounds teams all_scores st rid weeks :
  Forall (λ p, 0 ≤ p ≤ Z.of_nat (length teams) - 1)
    (omap (positions_above_chop teams all_scores st rid) weeks).
Proof.
  apply Forall_forall. intros p Hp. apply list_elem_of_omap in Hp as (week & _ & Hp).
  unfold positions_above_chop in Hp. apply fmap_Some in Hp as ([pos flag] & Hp & ->).
  apply week_position_Some in Hp as (sc & s & rank & _ & _ & _ & _ & _ & _ & Hb & _).
  pose proof (ranked_scores_length teams (eliminations st) sc week). simpl. lia.
Qed.

(** X22: in every result, the average position above the chop of a record
    lies between 0 and [N - 1], where [N] is the number of records, and its
    close calls are at least 0 and at most the number of weeks up to the
    team's chop week (up to the current week for a team that is not
    chopped). *)
Theorem X22_average_and_close_calls_are_bounded inp current_week :
  ∃ d, process_season_data inp current_week = Some d ∧
    ∀ m, m ∈ out_managers d →
      (0 <= avg_pos_above_chop m)%Q ∧
      (avg_pos_above_chop m <= inject_Z (Z.of_nat (length (out_managers d)) - 1))%Q ∧
      0 ≤ close_calls m ≤
        Z.max 0 (match chop_week m with Some w => w | None => current_week end).
Proof.
  destruct (process_season_data_is_Some inp current_week) as [d Hd]. exists d.
  split; [done |]. destruct (out_managers_roster_ids _ _ _ Hd) as [_ Hlen]. rewrite Hlen.
  intros m Hm.
  assert (1 ≤ Z.of_nat (length (roster_of inp))) as Hne.
  { rewrite <- Hlen. destruct (out_managers d); [by apply not_elem_of_nil in Hm | simpl; lia]. }
  destruct (process_season_data_managers _ _ _ _ Hd Hm) as (r & m0 & Hr & Hb & ->).
  apply built_manager_fields in Hb as (_ & _ & Hchop & _ & _ & _ & Havg & Hcc).
  change (avg_pos_above_chop (with_finish_position _ m0)) with (avg_pos_above_chop m0).
  change (close_calls (with_finish_position _ m0)) with (close_calls m0).
  change (chop_week (with_finish_position _ m0)) with (chop_week m0).
  rewrite season_positions_spec in Havg, Hcc. cbn [fst snd] in Havg, Hcc.
  rewrite average_position_spec in Havg.
  pose proof (positions_above_chop_bounds (teams_of inp) (scores_of inp current_week)
                (sim_of inp current_week) r.1
                (Py.range 1 (end_week_of (eliminations (sim_of inp current_week) !! r.1)
                               current_week + 1))) as Hbounds.
  assert (length (teams_of inp) = length (roster_of inp)) as Hteams
    by (unfold teams_of; by rewrite length_fmap).
  rewrite Hteams in Hbounds.
  set (positions := omap _ _) in Havg, Hbounds.
  assert (avg_pos_above_chop m0 =
          if decide (positions = []) then 0%Q
          else Py.round (inject_Z (Py.sum positions)
                         / inject_Z (Z.of_nat (length positions))) 1) as -> by congruence.
  pose proof (sum_bounds _ _ Hbounds) as [Hsum0 Hsum1].
  assert (positions ≠ [] → (0 < inject_Z (Z.of_nat (length positions)))%Q) as Hlen_pos.
  { intros Hnil. change 0%Q with (inject_Z 0). rewrite <- Zlt_Qlt.
    destruct positions; [done | rewrite length_cons; lia]. }
  split; [| split].
  - destruct (decide (positions = [])) as [Hnil | Hnil]; [apply Qle_refl |].
    apply round_nonneg. apply Qle_shift_div_l; [by apply Hlen_pos |].
    rewrite Qmult_0_l. change 0%Q with (inject_Z 0). by rewrite <- Zle_Qle.
  - destruct (decide (positions = [])) as [Hnil | Hnil].
    + change 0%Q with (inject_Z 0). rewrite <- Zle_Qle. lia.
    + apply round_le_int. apply Qle_shift_div_r; [by apply Hlen_pos |].
      rewrite <- inject_Z_mult, <- Zle_Qle. done.
  - rewrite Hcc, Hchop. split; [lia |].
    etrans; [apply inj_le, length_filter |].
    unfold Py.range. rewrite length_seqZ.
    assert (end_week_of (eliminations (sim_of inp current_week) !! r.1) current_week =
            match eliminations (sim_of inp current_week) !! r.1 with
            | Some w => w
            | None => current_week
            end) as ->; [| lia].
    unfold end_week_of. destruct (eliminations _ !! r.1) as [w |] eqn:E; [| done].
    apply sim_of_chop_week_pos in E. by rewrite decide_False by lia.
Qed.

(** ** [scripts/add_close_calls.py] on the records of a result *)

Lemma is_close_call_Qeq pos x y : (x == y)%Q → is_close_call pos x = is_close_call pos y.
Proof.
  intros Heq. unfold is_close_call. repeat case_decide; try done.
  apply eq_true_iff_eq. rewrite !num_le_spec. by rewrite Heq.
Qed.

Lemma close_call_weeks_spec managers chop_scores m :
  close_call_weeks managers chop_scores m =
    Z.of_nat (length (filter (λ week, script_close_call managers chop_scores (user_name m) week = true)
                        (Py.range 1 (end_week_of (chop_week m) 17 + 1)))).
Proof.
  unfold close_call_weeks.
  assert (∀ weeks acc,
            foldl (λ close_call_count week,
                     match named_rank managers (user_name m) week,
                           named_score (Py.sorted snd Py.num_lt true
                                          (named_week_scores managers week)) (user_name m) with
                     | Some (rank, n), Some my_score =>
                         if is_close_call (n - rank)
                              (my_score - default 0%Q (chop_scores !! week))
                         then close_call_count + 1 else close_call_count
                     | _, _ => close_call_count
                     end) acc weeks =
            acc + Z.of_nat (length (filter (λ week, script_close_call managers chop_scores
                                                      (user_name m) week = true) weeks))) as H.
  { induction weeks as [| week weeks IH]; intros acc; [simpl; lia |].
    cbn [foldl]. rewrite IH, filter_cons.
    assert (match named_rank managers (user_name m) week,
                  named_score (Py.sorted snd Py.num_lt true
                                 (named_week_scores managers week)) (user_name m) with
            | Some (rank, n), Some my_score =>
                if is_close_call (n - rank) (my_score - default 0%Q (chop_scores !! week))
                then acc + 1 else acc
            | _, _ => acc
            end =
            if script_close_call managers chop_scores (user_name m) week
            then acc + 1 else acc) as ->.
    { unfold script_close_call.
      destruct (named_rank managers (user_name m) week) as [[rank n] |]; [| done].
      by destruct (named_score _ (user_name m)). }
    destruct (script_close_call managers chop_scores (user_name m) week) eqn:E.
    - rewrite decide_True by done. rewrite length_cons. lia.
    - rewrite decide_False by done. done. }
  rewrite H. lia.
Qed.

Lemma script_close_call_pipeline inp d cs rid name wk :
  process_season_data inp 17 = Some d → 1 ≤ wk ≤ 17 →
  (rid, name) ∈ roster_of inp →
  NoDup (roster_of inp).*2 →
  no_tied_scores (teams_of inp) (scores_of inp 17) (eliminations (sim_of inp 17)) →
  chop_in_every_scored_week inp →
  (∀ week, cs !! week = Py.getitem (Py.str week) (out_weekly_stats d) ≫= chop_score) →
  script_close_call (out_managers d) cs name wk =
    flagged (teams_of inp) (scores_of inp 17) (sim_of inp 17) rid wk.
Proof.
  intros Hd Hwk Hr Hnames Hties Hcov Hcs.
  pose proof (named_position_pipeline inp d rid name wk Hd Hwk Hr Hnames Hties) as Hpos.
  unfold named_position, positions_above_chop in Hpos.
  unfold script_close_call, flagged.
  destruct (week_position (teams_of inp) (scores_of inp 17) (sim_of inp 17) rid wk)
    as [[pos flag] |] eqn:Ew.
  - destruct (named_rank (out_managers d) name wk) as [[rank n] |] eqn:En; [| done].
    simpl in Hpos. injection Hpos as Hpos.
    apply week_position_Some in Ew
      as (sc & my_score & rank' & Hsc & Hmy & Hteam & Halive & _ & _ & _ & ->).
    (* the score found under the name is the score of the roster *)
    assert (named_score (Py.sorted snd Py.num_lt true (named_week_scores (out_managers d) wk))
              name = Some my_score) as ->.
    { unfold named_rank in En.
      destruct (Py.sorted snd Py.num_lt true (named_week_scores (out_managers d) wk))
        as [| p ws] eqn:Es; [done |].
      apply fmap_Some in En as (rank0 & Hrank & _).
      apply rank_from_Some in Hrank as [[b Hb] _].
      destruct (list_find_elem_of (λ x : string * Q, x.1 = name) (p :: ws) (name, b) Hb eq_refl)
        as [[i x] Hf].
      unfold named_score. rewrite Hf. simpl. f_equal.
      apply list_find_Some in Hf as (Hi & Hx & _). simpl in Hx.
      apply list_elem_of_lookup_2 in Hi. rewrite <- Es in Hi.
      rewrite sorted_Permutation, (named_week_scores_pipeline inp d wk Hd Hwk) in Hi.
      apply list_elem_of_fmap in Hi as (t & -> & Ht).
      apply scored_alive_elem in Ht as (Ht & _ & Hs). unfold by_user_name in *. simpl in *.
      assert (t.1.1 = rid) as Hrid.
      { destruct t as [[k n'] s]. simpl in *. subst n'. by eapply NoDup_snd_inj. }
      rewrite Hrid, Hsc in Hs. simpl in Hs. congruence. }
    rewrite Hpos. apply is_close_call_Qeq.
    assert (default 0%Q (cs !! wk) == default 0%Q (chop_scores (sim_of inp 17) !! wk))%Q as Hchop.
    { destruct (chop_scores (sim_of inp 17) !! wk) as [c |] eqn:Ec.
      - destruct (weekly_stats_chop_score _ _ _ _ _ Hd Ec) as (st & c' & Hst & Hc' & Heq).
        rewrite Hcs, Hst. simpl. rewrite Hc'. done.
      - destruct (cs !! wk) as [c' |] eqn:Ec'; [| done]. exfalso.
        rewrite Hcs in Ec'. apply bind_Some in Ec' as (st & Hst & Hc').
        apply out_weekly_stats_eq in Hd.
        rewrite (weekly_stats_of_lookup _ _ _ _ _ wk Hd) in Hst.
        rewrite decide_False in Hst by lia. rewrite decide_True in Hst by lia.
        unfold week_entry in Hst. rewrite Hsc in Hst. simpl in Hst.
        destruct (Hcov wk sc Hwk Hsc) as [c Hc]; [| congruence].
        intros Hnil. by rewrite Hnil in Hst. }
    by rewrite Hchop.
  - destruct (named_rank (out_managers d) name wk) as [[rank n] |]; done.
Qed.

Lemma filter_ext_in {A} (P Q : A → Prop) `{∀ x, Decision (P x)} `{∀ x, Decision (Q x)}
    (l : list A) :
  (∀ x, x ∈ l → P x ↔ Q x) → filter P l = filter Q l.
Proof.
  induction l as [| x l IH]; intros Hext; [done |].
  rewrite !filter_cons. rewrite IH by (intros y Hy; apply Hext; by right).
  destruct (decide (P x)) as [HP | HP], (decide (Q x)) as [HQ | HQ]; try done.
  - exfalso. apply HQ, (Hext x); [left | done].
  - exfalso. apply HP, (Hext x); [left | done].
Qed.

Lemma set_close_calls_same m : set_close_calls (close_calls m) m = m.
Proof. by destruct m. Qed.

(** X23: on a complete-season result (current week 17) with pairwise
    distinct user names, without tied scores among the teams alive in a
    week, and in which every week with a score of a team alive has a chop,
    the script [add_close_calls.py] recomputes for every record the
    [close_calls] that the pipeline stored: it returns the records
    unchanged. *)
Theorem X23_close_calls_script_agrees inp d :
  process_season_data inp 17 = Some d →
  NoDup (roster_of inp).*2 →
  no_tied_scores (teams_of inp) (scores_of inp 17) (eliminations (sim_of inp 17)) →
  chop_in_every_scored_week inp →
  calculate_close_calls (out_managers d) (out_weekly_stats d) = Some (out_managers d).
Proof.
  intros Hd Hnames Hties Hcov.
  destruct (out_weekly_stats_keys _ _ _ Hd) as [Hnd Hkeys].
  destruct (chop_scores_of_lookup (out_weekly_stats d) ∅ Hnd Hkeys) as (cs & Hcs & Hlook).
  assert (∀ week, cs !! week = Py.getitem (Py.str week) (out_weekly_stats d) ≫= chop_score)
    as Hlook'.
  { intros week. rewrite Hlook.
    by destruct (Py.getitem (Py.str week) (out_weekly_stats d) ≫= chop_score). }
  unfold calculate_close_calls. rewrite Hcs. simpl. f_equal.
  trans (id <$> out_managers d); [| apply list_fmap_id].
  apply list_fmap_ext. intros i m Hi. apply list_elem_of_lookup_2 in Hi.
  trans (set_close_calls (close_calls m) m); [| apply set_close_calls_same]. f_equal.
  rewrite close_call_weeks_spec.
  destruct (process_season_data_managers _ _ _ _ Hd Hi) as (r & m0 & Hr & Hb & ->).
  apply built_manager_fields in Hb as (Hname & _ & Hchop & _ & _ & _ & _ & Hcc).
  change (close_calls (with_finish_position _ m0)) with (close_calls m0).
  change (chop_week (with_finish_position _ m0)) with (chop_week m0).
  change (user_name (with_finish_position _ m0)) with (user_name m0).
  rewrite Hcc, season_positions_spec, Hchop, Hname. cbn [snd]. do 2 f_equal.
  apply filter_ext_in. intros wk Hwk. rewrite elem_of_range in Hwk.
  pose proof (end_week_of_bounds inp r.1).
  rewrite (script_close_call_pipeline inp d cs r.1 r.2 wk); try done; [lia | by destruct r].
Qed.

Lemma spec_scenario_chops : chop_in_every_scored_week spec_scenario.
Proof.
  intros week sc Hweek Hsc _.
  assert (week ∈ [1; 2; 3; 4; 5; 6; 7; 8; 9; 10; 11; 12; 13; 14; 15; 16; 17]) as Hin.
  { change [1; 2; 3; 4; 5; 6; 7; 8; 9; 10; 11; 12; 13; 14; 15; 16; 17] with (seqZ 1 17).
    apply elem_of_seqZ. lia. }
  repeat (apply elem_of_cons in Hin as [-> | Hin]);
    try (by apply not_elem_of_nil in Hin);
    try (by vm_compute in Hsc);
    apply (bool_decide_unpack _); by vm_compute.
Qed.

Lemma X23_close_calls_script_witness :
  ∃ d, process_season_data spec_scenario 17 = Some d ∧
    NoDup (roster_of spec_scenario).*2 ∧
    no_tied_scores (teams_of spec_scenario) (scores_of spec_scenario 17)
      (eliminations (sim_of spec_scenario 17)) ∧
    chop_in_every_scored_week spec_scenario ∧
    calculate_close_calls (out_managers d) (out_weekly_stats d) = Some (out_managers d).
Proof.
  destruct (process_season_data_is_Some spec_scenario 17) as [d Hd].
  assert (NoDup (roster_of spec_scenario).*2) as Hnames.
  { apply (bool_decide_unpack _). by vm_compute. }
  exists d.
  split_and!; [done | exact Hnames | exact spec_scenario_no_ties | exact spec_scenario_chops |].
  exact (X23_close_calls_script_agrees spec_scenario d Hd Hnames spec_scenario_no_ties
           spec_scenario_chops).
Defined.

(** ** The recap of a result and its weekly statistics *)

Lemma round_half_even_Qeq x y : (x == y)%Q → Py.round_half_even x = Py.round_half_even y.
Proof.
  intros Heq. unfold Py.round_half_even. rewrite (Qfloor_comp x y Heq).
  assert ((x - inject_Z (Qfloor y) ?= 1 # 2) = (y - inject_Z (Qfloor y) ?= 1 # 2))%Q as ->; [| done].
  apply Qcompare_comp; [by rewrite Heq | done].
Qed.

Lemma round_Qeq x y ndigits : (x == y)%Q → Py.round x ndigits = Py.round y ndigits.
Proof.
  intros Heq. unfold Py.round. destruct ndigits as [| n].
  - by rewrite (round_half_even_Qeq x y).
  - f_equal. apply round_half_even_Qeq. by rewrite Heq.
Qed.

(** Sorted copies of two lists with the same scores agree position by
    position. *)
Lemma sorted_Qeq_perm (l1 l2 : list Q) :
  l1 ≡ₚ l2 →
  Forall2 Qeq (Py.sorted id Py.num_lt false l1) (Py.sorted id Py.num_lt false l2).
Proof.
  intros Hperm.
  assert (Qred <$> Py.sorted id Py.num_lt false l1 = Qred <$> Py.sorted id Py.num_lt false l2)
    as Heq.
  { apply (StronglySorted_unique_strong Qle).
    - intros x1 x2 Hx1 Hx2 H12 H21.
      apply list_elem_of_fmap in Hx1 as (a & -> & _). apply list_elem_of_fmap in Hx2 as (b & -> & _).
      apply Qred_complete. rewrite <- (Qred_correct a), <- (Qred_correct b).
      by apply Qle_antisym.
    - apply (StronglySorted_fmap _ Qle Qle); [| apply sorted_scores_ascending].
      intros x y Hxy. by rewrite !Qred_correct.
    - apply (StronglySorted_fmap _ Qle Qle); [| apply sorted_scores_ascending].
      intros x y Hxy. by rewrite !Qred_correct.
    - apply fmap_Permutation. by rewrite !sorted_Permutation. }
  apply list_eq_Forall2 in Heq.
  apply (proj1 (Forall2_fmap Qred Qred eq _ _)) in Heq.
  eapply Forall2_impl; [exact Heq |]. intros x y Hxy. simpl in Hxy.
  by rewrite <- (Qred_correct x), <- (Qred_correct y), Hxy.
Qed.

Lemma stats_of_fields scores st :
  stats_of scores = Some st →
  chop_differential st =
    Some (if decide (2 ≤ length scores)%nat
          then Py.round (Py.item (Py.sorted id Py.num_lt false scores) 1
                         - Py.item (Py.sorted id Py.num_lt false scores) 0) 2
          else 0%Q) ∧
  ∃ low, chop_score st = Some low ∧ low ∈ scores ∧ ∀ x, x ∈ scores → (low <= x)%Q.
Proof.
  unfold stats_of. intros H.
  apply bind_Some in H as (high & _ & H). apply bind_Some in H as (low & Hlow & H).
  apply bind_Some in H as (p75 & _ & H). apply bind_Some in H as (med & _ & H).
  apply bind_Some in H as (p25 & _ & [= <-]). cbn [chop_differential chop_score].
  split; [done |]. exists low. split; [done |]. by apply min_by_scores_spec.
Qed.

(** The scores that the recap collects for a week from the records of a
    result are those of the teams alive in it. *)
Lemma recap_scores_pipeline inp current_week d week sc :
  process_season_data inp current_week = Some d →
  1 ≤ week ≤ 17 → week ≤ current_week →
  scores_of inp current_week !! week = Some sc →
  (λ x : string * Q * bool, x.1.2) <$> recap_week_scores (out_managers d) (Py.str week) week ≡ₚ
    alive_scores (teams_of inp) (eliminations (sim_of inp current_week)) sc week.
Proof.
  intros Hd Hweek Hcw Hsc. unfold recap_week_scores, alive_scores.
  rewrite list_fmap_omap, omap_filter.
  destruct (out_managers_roster_ids _ _ _ Hd) as [Hperm _]. rewrite <- Hperm, omap_fmap.
  apply reflexive_eq, list_omap_ext, Forall_Forall2_diag, Forall_forall. intros m Hm.
  destruct (out_managers_record _ _ _ _ Hd Hm) as (_ & Hchop & Hws). simpl.
  rewrite Hws, weekly_scores_dict_lookup by done. simpl. unfold shown_score.
  rewrite decide_True by done. rewrite Hsc. simpl.
  destruct (decide (alive (eliminations (sim_of inp current_week)) week (roster_id m)))
    as [Ha | Ha]; unfold alive in Ha; rewrite <- Hchop in Ha;
    destruct (chop_week m) as [w |] eqn:Ew.
  - assert (1 ≤ w) as Hw.
    { symmetry in Hchop. by apply sim_of_chop_week_pos in Hchop as [? _]. }
    rewrite decide_True by done.
    destruct (sc !! roster_id m) as [s |]; [| done]. simpl.
    rewrite bool_decide_eq_true_2 by lia. simpl.
    by rewrite bool_decide_eq_true_2 by done.
  - by destruct (sc !! roster_id m) as [s |].
  - by rewrite decide_False by done.
  - done.
Qed.

Lemma pipeline_recap_step inp current_week d week stats chopped survivor others :
  process_season_data inp current_week = Some d →
  (Py.str week, stats) ∈ out_weekly_stats d →
  Py.sorted (λ x : string * Q * bool, x.1.2) Py.num_lt false
    (recap_week_scores (out_managers d) (Py.str week) week) = chopped :: survivor :: others →
  Py.getitem (Py.str week) (out_weekly_stats d) = Some stats ∧
  chop_differential stats = Some (Py.round (survivor.1.2 - chopped.1.2) 2) ∧
  ∃ low, chop_score stats = Some low ∧ (low == chopped.1.2)%Q.
Proof.
  intros Hd Hin Hs.
  destruct (out_weekly_stats_keys _ _ _ Hd) as [Hnd _].
  assert (Py.getitem (Py.str week) (out_weekly_stats d) = Some stats) as Hget
    by (by apply getitem_Some_elem).
  split; [done |].
  (* the week is a played week of the result *)
  assert (chopped ∈ recap_week_scores (out_managers d) (Py.str week) week) as Hch.
  { rewrite <- (sorted_Permutation (λ x : string * Q * bool, x.1.2) Py.num_lt false), Hs. left. }
  unfold recap_week_scores in Hch. apply list_elem_of_omap in Hch as (m & Hm & Hentry).
  destruct (weekly_scores m !! Py.str week) as [[s |] |] eqn:Ews; simpl in Hentry; try done.
  pose proof (weekly_scores_key _ _ _ _ _ _ Hd Hm Ews) as Hweek.
  assert (week ≤ current_week) as Hcw.
  { destruct (out_managers_record _ _ _ _ Hd Hm) as (_ & _ & Hws).
    rewrite Hws, weekly_scores_dict_lookup in Ews by done. injection Ews as Ews.
    unfold shown_score in Ews. by destruct (decide (week ≤ current_week)). }
  clear m Hm Hentry Ews s.
  pose proof (out_weekly_stats_eq _ _ _ Hd) as Hstats.
  rewrite (weekly_stats_of_lookup _ _ _ _ _ week Hstats) in Hget.
  rewrite decide_False in Hget by lia. rewrite decide_True in Hget by lia.
  unfold week_entry in Hget. apply bind_Some in Hget as (sc & Hsc & Hget).
  set (scores := alive_scores (teams_of inp) (eliminations (sim_of inp current_week)) sc week)
    in Hget.
  assert (stats_of scores = Some stats) as Hst by (by destruct scores).
  pose proof (recap_scores_pipeline _ _ _ _ _ Hd Hweek Hcw Hsc) as Hperm.
  fold scores in Hperm.
  pose proof (sorted_Qeq_perm _ _ Hperm) as Hsorted.
  rewrite (sorted_fmap (λ x : string * Q * bool, x.1.2) id) in Hsorted.
  change (id ∘ (λ x : string * Q * bool, x.1.2)) with (λ x : string * Q * bool, x.1.2) in Hsorted.
  rewrite Hs in Hsorted. rewrite !fmap_cons in Hsorted.
  destruct (Py.sorted id Py.num_lt false scores) as [| a0 [| a1 rest]] eqn:Ea;
    [by inversion Hsorted | inversion Hsorted as [| ? ? ? ? _ Hrest]; by inversion Hrest |].
  apply Forall2_cons in Hsorted as [H0 Hsorted]. apply Forall2_cons in Hsorted as [H1 _].
  destruct (stats_of_fields _ _ Hst) as (Hdiff & low & Hlow & Hlow_in & Hleast).
  assert (2 ≤ length scores)%nat as Hlen.
  { rewrite <- (sorted_length id Py.num_lt false), Ea. simpl. lia. }
  split.
  - rewrite Hdiff, Ea. rewrite decide_True by done. f_equal.
    apply round_Qeq. unfold Py.item. simpl. by rewrite H0, H1.
  - exists low. split; [done |]. rewrite H0. apply Qle_antisym.
    + apply Hleast. rewrite <- (sorted_Permutation id Py.num_lt false), Ea. left.
    + pose proof (sorted_scores_ascending scores) as Hasc. rewrite Ea in Hasc.
      rewrite <- (sorted_Permutation id Py.num_lt false), Ea in Hlow_in.
      apply elem_of_cons in Hlow_in as [-> | Hlow_in]; [apply Qle_refl |].
      apply StronglySorted_cons in Hasc as [Hall _]. rewrite Forall_forall in Hall.
      by apply Hall.
Qed.

(** X24: the close calls and blowouts that the recap reports for a result
    agree with the weekly statistics of that result: the margin of an entry
    is the [chop_differential] of its week, and its chopped score is the
    [chop_score] of its week. *)
Theorem X24_recap_margins_match_stats inp current_week :
  ∃ d ccs bos, process_season_data inp current_week = Some d ∧
    recap_close_calls (out_managers d) (out_weekly_stats d) = Some (ccs, bos) ∧
    Forall (close_call_in_stats (out_weekly_stats d)) ccs ∧
    Forall (blowout_in_stats (out_weekly_stats d)) bos.
Proof.
  destruct (process_season_data_is_Some inp current_week) as [d Hd].
  destruct (out_weekly_stats_keys _ _ _ Hd) as [_ Hkeys].
  destruct (recap_weeks_inv (out_managers d) (close_call_in_stats (out_weekly_stats d))
              (blowout_in_stats (out_weekly_stats d)) (out_weekly_stats d) [] [] Hkeys)
    as (found & blow & Hf & Hcc & Hbo); [| constructor | constructor |].
  - intros week stats chopped survivor others Hin _ Hs.
    destruct (pipeline_recap_step _ _ _ _ _ _ _ _ Hd Hin Hs) as (Hget & Hdiff & low & Hlow & Heq).
    split; intros _; exists stats, low; done.
  - exists d. unfold recap_close_calls. rewrite Hf. simpl. eexists _, _.
    split_and!; [done | done | |].
    + apply Forall_take. by rewrite sorted_Permutation.
    + apply Forall_take. by rewrite sorted_Permutation.
Qed.

(** ** The two repair scripts on arbitrary records *)

Lemma named_rank_bounds managers name wk rank n :
  named_rank managers name wk = Some (rank, n) →
  0 ≤ n - rank ≤ Z.of_nat (length managers) - 1.
Proof.
  unfold named_rank. intros H.
  pose proof (sorted_length snd Py.num_lt true (named_week_scores managers wk)) as Hlen.
  pose proof (omap_length_le (named_entry wk) managers) as Hle.
  fold (named_week_scores managers wk) in Hle.
  destruct (Py.sorted snd Py.num_lt true (named_week_scores managers wk)) as [| p ws] eqn:Es;
    [done |].
  apply fmap_Some in H as (rank0 & Hrank & [= -> ->]).
  apply rank_from_Some in Hrank as [_ Hr]. rewrite length_cons in Hr, Hlen. lia.
Qed.

Lemma rank_positions_bounds managers m :
  Forall (λ p, 0 ≤ p ≤ Z.of_nat (length managers) - 1) (rank_positions managers m).
Proof.
  rewrite rank_positions_spec. apply Forall_forall. intros p Hp.
  apply list_elem_of_omap in Hp as (wk & _ & Hp). unfold named_position in Hp.
  apply fmap_Some in Hp as ([rank n] & Hrank & ->). simpl.
  by apply named_rank_bounds in Hrank.
Qed.

Lemma average_position_bounds positions B :
  0 ≤ B → Forall (λ p, 0 ≤ p ≤ B) positions →
  ∃ avg, average_position positions = Some avg ∧ (0 <= avg)%Q ∧ (avg <= inject_Z B)%Q.
Proof.
  intros HB Hall. rewrite average_position_spec. eexists. split; [done |].
  pose proof (sum_bounds _ _ Hall) as [Hsum0 Hsum1].
  assert (positions ≠ [] → (0 < inject_Z (Z.of_nat (length positions)))%Q) as Hlen_pos.
  { intros Hnil. change 0%Q with (inject_Z 0). rewrite <- Zlt_Qlt.
    destruct positions; [done | rewrite length_cons; lia]. }
  destruct (decide (positions = [])) as [Hnil | Hnil].
  - split; [apply Qle_refl |]. change 0%Q with (inject_Z 0). by rewrite <- Zle_Qle.
  - split.
    + apply round_nonneg. apply Qle_shift_div_l; [by apply Hlen_pos |].
      rewrite Qmult_0_l. change 0%Q with (inject_Z 0). by rewrite <- Zle_Qle.
    + apply round_le_int. apply Qle_shift_div_r; [by apply Hlen_pos |].
      rewrite <- inject_Z_mult, <- Zle_Qle. done.
Qed.

(** X25: on any list of records, the script [fix_avg_above_chop.py] does
    not raise; it returns the records in their order with only
    [avg_above_chop] set, to a value between 0 and [N - 1] for [N]
    records. *)
Theorem X25_rank_average_script_is_bounded managers :
  ∃ fixed, calculate_rank_based_avg_above_chop managers = Some fixed ∧
    Forall2 (λ m m', ∃ avg, m' = set_avg_above_chop avg m ∧ (0 <= avg)%Q ∧
                            (avg <= inject_Z (Z.of_nat (length managers) - 1))%Q)
      managers fixed.
Proof.
  unfold calculate_rank_based_avg_above_chop.
  assert (∀ m, m ∈ managers →
            ∃ avg, average_position (rank_positions managers m) = Some avg ∧ (0 <= avg)%Q ∧
                   (avg <= inject_Z (Z.of_nat (length managers) - 1))%Q) as Havg.
  { intros m Hm. apply average_position_bounds; [| apply rank_positions_bounds].
    destruct managers; [by apply not_elem_of_nil in Hm | rewrite length_cons; lia]. }
  destruct (mapM_is_Some_2
              (λ manager, (λ avg, set_avg_above_chop avg manager) <$>
                            average_position (rank_positions managers manager)) managers)
    as [fixed Hfixed].
  { apply Forall_forall. intros m Hm. destruct (Havg m Hm) as (avg & Hav & _).
    simpl. rewrite Hav. by eexists. }
  exists fixed. split; [done |]. apply mapM_Some in Hfixed.
  apply Forall2_same_length_lookup. split; [by eapply Forall2_length |].
  intros i m m' Hm Hm'. pose proof (Forall2_lookup_lr _ _ _ _ _ _ Hfixed Hm Hm') as Hmm'.
  apply list_elem_of_lookup_2 in Hm. destruct (Havg m Hm) as (avg & Hav & H0 & H1).
  simpl in Hmm'. rewrite Hav in Hmm'. simpl in Hmm'. injection Hmm' as <-. by exists avg.
Qed.

Lemma script_close_calls_bounds managers chop_scores m :
  0 ≤ close_call_weeks managers chop_scores m ≤ Z.max 0 (end_week_of (chop_week m) 17).
Proof.
  rewrite close_call_weeks_spec. split; [lia |].
  etrans; [apply inj_le, length_filter |]. unfold Py.range. rewrite length_seqZ. lia.
Qed.

(** X26: on any records, with statistics whose keys are week numbers, the
    script [add_close_calls.py] does not raise; it returns the records in
    their order with only [close_calls] set, to a count between 0 and the
    number of weeks up to the record's chop week (17 for a record without
    one). *)
Theorem X26_close_calls_script_is_bounded managers weekly_stats :
  NoDup weekly_stats.*1 →
  (∀ k, k ∈ weekly_stats.*1 → ∃ week, k = Py.str week) →
  ∃ fixed, calculate_close_calls managers weekly_stats = Some fixed ∧
    Forall2 (λ m m', ∃ n, m' = set_close_calls n m ∧
                          0 ≤ n ≤ Z.max 0 (end_week_of (chop_week m) 17))
      managers fixed.
Proof.
  intros Hnd Hkeys.
  destruct (chop_scores_of_lookup weekly_stats ∅ Hnd Hkeys) as (cs & Hcs & _).
  unfold calculate_close_calls. rewrite Hcs. simpl. eexists. split; [done |].
  apply Forall2_fmap_r, Forall_Forall2_diag, Forall_forall. intros m _.
  eexists. split; [done |]. apply script_close_calls_bounds.
Qed.

Lemma X26_close_calls_script_witness :
  ∃ d, process_season_data spec_scenario 2 = Some d ∧
    NoDup (out_weekly_stats d).*1 ∧
    (∀ k, k ∈ (out_weekly_stats d).*1 → ∃ week, k = Py.str week) ∧
    ∃ fixed, calculate_close_calls (out_managers d) (out_weekly_stats d) = Some fixed ∧
      Forall2 (λ m m', ∃ n, m' = set_close_calls n m ∧
                            0 ≤ n ≤ Z.max 0 (end_week_of (chop_week m) 17))
        (out_managers d) fixed.
Proof.
  destruct (process_season_data_is_Some spec_scenario 2) as [d Hd].
  destruct (out_weekly_stats_keys _ _ _ Hd) as [Hnd Hkeys].
  exists d. split; [done |]. split; [done |]. split; [done |].
  exact (X26_close_calls_script_is_bounded (out_managers d) (out_weekly_stats d) Hnd Hkeys).
Defined.

(** ** The wasted pass: grouping and totals *)

Lemma charge_waste_sum faab_wasted (groups : list (list claim)) rid :
  Py.get_or (foldl charge_waste faab_wasted groups) rid 0 =
    Py.get_or faab_wasted rid 0 + Py.sum (omap (charged_to rid) groups).
Proof.
  revert faab_wasted. induction groups as [| bids groups IH]; intros faab_wasted.
  - simpl. lia.
  - cbn [foldl]. rewrite IH. csimpl. unfold charge_waste, charged_to.
    destruct (player_waste bids) as [[r x] |]; [| done].
    rewrite get_or_insert. destruct (decide (r = rid)) as [-> | Hne]; simpl; lia.
Qed.

Lemma waste_week_sum txns faab_wasted rid :
  Py.get_or (waste_week txns faab_wasted) rid 0 =
    Py.get_or faab_wasted rid 0 + Py.sum (omap (charged_to rid) (week_claims txns)).
Proof.
  unfold waste_week, week_claims. destruct (group_claims txns []) as [player_bids |].
  - apply charge_waste_sum.
  - simpl. lia.
Qed.

Lemma waste_season_sum transactions weeks faab_wasted rid :
  Py.get_or (waste_season transactions weeks faab_wasted) rid 0 =
    Py.get_or faab_wasted rid 0 +
    Py.sum (omap (charged_to rid)
              (mjoin ((λ week, match transactions !! week with
                               | Some txns => week_claims txns
                               | None => []
                               end) <$> weeks))).
Proof.
  unfold waste_season. revert faab_wasted.
  induction weeks as [| week weeks IH]; intros faab_wasted.
  - simpl. lia.
  - cbn [foldl]. rewrite IH. rewrite fmap_cons. cbn [mjoin list_join].
    rewrite omap_app, sum_app.
    destruct (transactions !! week) as [txns |] eqn:E.
    + rewrite waste_week_sum. by rewrite Z.add_assoc.
    + change (Py.sum (omap (charged_to rid) [])) with 0. by rewrite Z.add_0_l.
Qed.

(** X27: the [faab_wasted] of every record of a result is the sum, over
    the fetched weeks 1..current_week and over the players claimed in a
    week, of the amounts that the claims on the player charge to the
    record's roster; a week whose grouping raises adds nothing. *)
Theorem X27_wasted_is_the_sum_of_charges inp current_week :
  ∃ d, process_season_data inp current_week = Some d ∧
    ∀ m, m ∈ out_managers d →
      faab_wasted m = Py.sum (omap (charged_to (roster_id m)) (season_claims inp current_week)).
Proof.
  destruct (process_season_data_is_Some inp current_week) as [d Hd]. exists d.
  split; [done |]. intros m Hm.
  destruct (process_season_data_managers _ _ _ _ Hd Hm) as (r & m0 & Hr & Hb & ->).
  change (faab_wasted (with_finish_position _ m0)) with (faab_wasted m0).
  change (roster_id (with_finish_position _ m0)) with (roster_id m0).
  unfold built_manager, build_manager in Hb. apply bind_Some in Hb as (avg & _ & [= <-]).
  cbn [faab_wasted roster_id].
  fold (wasted_of inp current_week). unfold wasted_of.
  rewrite waste_season_sum, get_or_zeros. unfold season_claims. lia.
Qed.

Lemma add_claim_lookup (p q : string) (c : claim) player_bids :
  default [] (Py.getitem p (add_claim q c player_bids)) =
    default [] (Py.getitem p player_bids) ++ (if decide (q = p) then [c] else []).
Proof.
  unfold add_claim. rewrite getitem_setitem.
  destruct (decide (q = p)) as [-> | Hne]; [done | by rewrite app_nil_r].
Qed.

Lemma add_claims_lookup (p : string) (c : claim) adds player_bids :
  NoDup adds →
  default [] (Py.getitem p (foldl (λ pb player_id, add_claim player_id c pb) player_bids adds)) =
    default [] (Py.getitem p player_bids) ++ (if decide (p ∈ adds) then [c] else []).
Proof.
  revert player_bids. induction adds as [| q adds IH]; intros player_bids Hnd.
  - cbn [foldl]. destruct (decide (p ∈ [])) as [Hin | _];
      [by apply not_elem_of_nil in Hin | by rewrite app_nil_r].
  - apply NoDup_cons in Hnd as [Hq Hnd]. cbn [foldl]. rewrite IH by done.
    rewrite add_claim_lookup. rewrite <- app_assoc. f_equal.
    destruct (decide (q = p)) as [-> | Hne].
    + rewrite (decide_False (P := p ∈ adds)) by done.
      by rewrite decide_True by left.
    + destruct (decide (p ∈ adds)) as [Hin | Hin].
      * by rewrite decide_True by (by right).
      * rewrite decide_False; [done |]. rewrite not_elem_of_cons. split; [| done].
        by intros ->.
Qed.

Lemma foldl_unchanged {A B} (f : A → B → A) (l : list B) (a : A) :
  (∀ a b, f a b = a) → foldl f a l = a.
Proof. intros Hf. revert a. induction l as [| b l IH]; intros a; [done |]. simpl. by rewrite Hf. Qed.

Lemma group_claims_lookup txns player_bids groups p :
  (∀ t, t ∈ txns → NoDup (txn_adds t)) →
  group_claims txns player_bids = Some groups →
  default [] (Py.getitem p groups) =
    default [] (Py.getitem p player_bids) ++ omap (claim_on p) txns.
Proof.
  revert player_bids. induction txns as [| t txns IH]; intros player_bids Hadds H.
  - simpl in H. injection H as <-. by rewrite app_nil_r.
  - assert (∀ t', t' ∈ txns → NoDup (txn_adds t')) as Hadds'
      by (intros t' Ht'; apply Hadds; by right).
    assert (NoDup (txn_adds t)) as Hnd by (apply Hadds; left).
    cbn [group_claims] in H. csimpl. unfold claim_on at 1.
    destruct (decide (txn_type t = Some "waiver"%string)) as [Hty | Hty].
    + destruct (waiver_bid t) as [bid |] eqn:Eb; [| done].
      rewrite (IH _ Hadds' H).
      destruct (txn_roster_ids t) as [| r rs].
      * rewrite foldl_unchanged by done. by destruct (decide _).
      * destruct bid as [b |].
        -- rewrite add_claims_lookup by done. rewrite <- app_assoc. f_equal.
           destruct (decide (p ∈ txn_adds t)) as [Hin | Hin].
           ++ by rewrite decide_True by done.
           ++ by rewrite decide_False by (intros [_ ?]; done).
        -- rewrite foldl_unchanged by done. by destruct (decide _).
    + rewrite (IH _ Hadds' H). by rewrite decide_False by (intros [? _]; done).
Qed.

(** X28: the wasted pass groups the claims of a week by player: the claims
    under a player are exactly the waiver claims that add that player, with
    a first roster id and a non-null bid, in the order of the transactions,
    whatever their status; a player that no such claim adds has no group. *)
Theorem X28_claims_grouped_by_player txns groups p :
  (∀ t, t ∈ txns → NoDup (txn_adds t)) →
  group_claims txns [] = Some groups →
  default [] (Py.getitem p groups) = omap (claim_on p) txns ∧
  (is_Some (Py.getitem p groups) ↔ omap (claim_on p) txns ≠ []).
Proof.
  intros Hadds H. pose proof (group_claims_lookup _ _ _ p Hadds H) as Hlook. simpl in Hlook.
  split; [done |]. rewrite <- Hlook. split.
  - intros [bids Hbids]. rewrite Hbids. simpl. intros ->.
    (* a group is never empty *)
    revert Hbids. clear Hlook.
    assert (∀ pb, (∀ q l, Py.getitem q pb = Some l → l ≠ []) →
                  ∀ q l, group_claims txns pb = Some groups → Py.getitem q groups = Some l → l ≠ [])
      as Hne.
    { clear H. induction txns as [| t txns IH]; intros pb Hpb q l Hg Hq.
      - simpl in Hg. injection Hg as <-. by eapply Hpb.
      - cbn [group_claims] in Hg.
        assert (∀ t', t' ∈ txns → NoDup (txn_adds t')) as Hadds'
          by (intros t' Ht'; apply Hadds; by right).
        destruct (decide (txn_type t = Some "waiver"%string)); [| by eapply (IH Hadds' pb)].
        destruct (waiver_bid t) as [bid |]; [| done].
        eapply (IH Hadds'); [| exact Hg | exact Hq].
        generalize (txn_adds t). intros adds. revert Hpb. generalize pb. clear.
        induction adds as [| a adds IHa]; intros pb Hpb; [done |].
        cbn [foldl]. apply IHa. destruct (txn_roster_ids t) as [| r rs]; [done |].
        destruct bid as [b |]; [| done].
        intros q' l'. unfold add_claim. rewrite getitem_setitem.
        case_decide; [| apply Hpb]. intros [= <-]. by destruct (default [] _). }
    intros Hbids.
    assert (∀ q (l : list claim),
              Py.getitem q ([] : list (string * list claim)) = Some l → l ≠ []) as Hnil by done.
    by apply (Hne [] Hnil p [] H Hbids).
  - intros Hne. destruct (Py.getitem p groups) as [bids |]; [by eexists | done].
Qed.

Lemma X28_claims_grouped_witness :
  (∀ t, t ∈ [well_formed_claim; well_formed_claim] → NoDup (txn_adds t)) ∧
  group_claims [well_formed_claim; well_formed_claim] [] =
    Some [("p1"%string, [(1, 50, Some "complete"%string); (1, 50, Some "complete"%string)])] ∧
  default [] (Py.getitem "p1"%string
                [("p1"%string, [(1, 50, Some "complete"%string);
                                (1, 50, Some "complete"%string)])]) =
    omap (claim_on "p1"%string) [well_formed_claim; well_formed_claim] ∧
  (is_Some (Py.getitem "p1"%string
              [("p1"%string, [(1, 50, Some "complete"%string);
                              (1, 50, Some "complete"%string)])]) ↔
   omap (claim_on "p1"%string) [well_formed_claim; well_formed_claim] ≠ []).
Proof.
  assert (∀ t, t ∈ [well_formed_claim; well_formed_claim] → NoDup (txn_adds t)) as Hadds.
  { intros t Ht. repeat (apply elem_of_cons in Ht as [-> | Ht]);
      try (by apply not_elem_of_nil in Ht); apply (bool_decide_unpack _); by vm_compute. }
  assert (group_claims [well_formed_claim; well_formed_claim] [] =
            Some [("p1"%string, [(1, 50, Some "complete"%string);
                                 (1, 50, Some "complete"%string)])]) as Hg by reflexivity.
  split; [exact Hadds |]. split; [exact Hg |].
  exact (X28_claims_grouped_by_player _ _ "p1"%string Hadds Hg).
Defined.

(** ** The cache of the client *)

Lemma cached_get_timed {V} now response url (st : client_state V) :
  cache_timed st → cache_timed (cached_get now response url st).2.
Proof.
  intros Hwf. unfold cached_get.
  assert (cache_timed (match response with
                       | Some data =>
                           (Returned data,
                            {| cache := <[url := data]> (cache st);
                               cache_time := <[url := now]> (cache_time st) |})
                       | None => (Raised, st)
                       end).2) as Hreq.
  { destruct response as [data |]; [| done]. intros url'. simpl.
    rewrite !lookup_insert_is_Some. intros [-> | [Hne H]]; [by left |]. right.
    split; [done |]. by apply Hwf. }
  destruct (cache st !! url) as [cached |]; [| done].
  destruct (cache_time st !! url) as [stored |]; [| done].
  by destruct (Py.num_lt _ _).
Qed.

(** X29: the cache of the client keeps a time of storage for every url it
    holds, so reading the age of an entry never fails.  A call answers from
    the cache, without a request and without changing the client, exactly
    when the url is cached and its entry is less than 300 seconds old;
    otherwise it makes the request, stores the data with the time of the
    call and returns it, or raises and leaves the client unchanged when
    the request fails. *)
Theorem X29_cached_get_behaviour {V} now (response : option V) url st :
  cache_timed st →
  cache_timed (cached_get now response url st).2 ∧
  match cache st !! url, cache_time st !! url with
  | Some cached, Some stored =>
      ((now - stored < CACHE_TTL)%Q →
         cached_get now response url st = (Returned cached, st)) ∧
      ((CACHE_TTL <= now - stored)%Q →
         match response with
         | Some data =>
             cached_get now response url st =
               (Returned data, ClientState (<[url := data]> (cache st))
                                 (<[url := now]> (cache_time st)))
         | None => cached_get now response url st = (Raised, st)
         end)
  | Some _, None => False
  | None, _ =>
      match response with
      | Some data =>
          cached_get now response url st =
            (Returned data, ClientState (<[url := data]> (cache st))
                              (<[url := now]> (cache_time st)))
      | None => cached_get now response url st = (Raised, st)
      end
  end.
Proof.
  intros Hwf. split; [by apply cached_get_timed |].
  unfold cached_get. destruct (cache st !! url) as [cached |] eqn:Ec.
  - destruct (Hwf url) as [stored Hs]; [by eexists |]. rewrite Hs.
    split.
    + intros Hlt. apply num_lt_spec in Hlt. by rewrite Hlt.
    + intros Hge. assert (Py.num_lt (now - stored) CACHE_TTL = false) as ->
        by (by apply num_lt_false).
      by destruct response.
  - by destruct response.
Qed.

Lemma X29_cached_get_witness :
  cache_timed (new_client (V := Z)) ∧
  cache_timed (cached_get 10 (Some 7) "u" (new_client (V := Z))).2 ∧
  cached_get 10 (Some 7) "u" (new_client (V := Z)) =
    (Returned 7, ClientState (<["u"%string := 7]> (cache (new_client (V := Z))))
                   (<["u"%string := 10%Q]> (cache_time (new_client (V := Z))))).
Proof.
  assert (cache_timed (new_client (V := Z))) as Hwf.
  { intros url [v Hv]. simpl in Hv. by rewrite lookup_empty in Hv. }
  split; [exact Hwf |].
  exact (X29_cached_get_behaviour 10 (Some 7) "u" new_client Hwf).
Defined.

(** X30: data fetched through the cache is served again unchanged: after a
    call that returned [data] for a url, a later call for the same url less
    than 300 seconds after the first request returns [data] again whatever
    the request would now yield, and leaves the client as it is. *)
Theorem X30_cached_get_round_trip {V} now later (data : V) response url st :
  cache st !! url = None ∨
    (∃ stored, cache_time st !! url = Some stored ∧ (CACHE_TTL <= now - stored)%Q) →
  (later - now < CACHE_TTL)%Q →
  let st' := (cached_get now (Some data) url st).2 in
  (cached_get now (Some data) url st).1 = Returned data ∧
  cached_get later response url st' = (Returned data, st').
Proof.
  intros Hmiss Hlater.
  assert (cached_get now (Some data) url st =
            (Returned data, ClientState (<[url := data]> (cache st))
                              (<[url := now]> (cache_time st)))) as Hfirst.
  { unfold cached_get. destruct Hmiss as [-> | (stored & Hs & Hold)]; [done |].
    destruct (cache st !! url) as [cached |]; [| done]. rewrite Hs.
    assert (Py.num_lt (now - stored) CACHE_TTL = false) as -> by (by apply num_lt_false).
    done. }
  rewrite Hfirst. cbn [fst snd]. split; [done |].
  unfold cached_get. cbn [cache cache_time]. rewrite !lookup_insert_eq.
  apply num_lt_spec in Hlater. by rewrite Hlater.
Qed.

Lemma X30_cached_get_witness :
  (cache (new_client (V := Z)) !! "u"%string = None ∨
     (∃ stored, cache_time (new_client (V := Z)) !! "u"%string = Some stored ∧
                (CACHE_TTL <= 10 - stored)%Q)) ∧
  (200 - 10 < CACHE_TTL)%Q ∧
  (cached_get 10 (Some 7) "u" new_client).1 = Returned 7 ∧
  cached_get 200 None "u" (cached_get 10 (Some 7) "u" new_client).2 =
    (Returned 7, (cached_get 10 (Some 7) "u" new_client).2).
Proof.
  assert (cache (new_client (V := Z)) !! "u"%string = None ∨
            (∃ stored, cache_time (new_client (V := Z)) !! "u"%string = Some stored ∧
                       (CACHE_TTL <= 10 - stored)%Q)) as Hmiss by (by left).
  assert (200 - 10 < CACHE_TTL)%Q as Hlater by reflexivity.
  split; [exact Hmiss |]. split; [exact Hlater |].
  exact (X30_cached_get_round_trip 10 200 7 None "u" new_client Hmiss Hlater).
Defined.
